(** * Content renderer of the portfolio site: Markdown formatters, timeline,
      table of contents, section loaders and configuration cache.

    The development embeds the functions of [js/main.js] and [timeline.js]
    and proves the properties stated about them.  JavaScript strings are
    sequences of UTF-16 code units; the regular expressions of the source are
    written as syntax trees and run by a backtracking matcher that follows
    the ECMAScript pattern semantics for the constructs the source uses. *)

From Stdlib Require Import NArith ZArith List String Ascii Bool Lia DecimalString DecimalNat.
From Stdlib Require Import Sorting.Sorted Sorting.Permutation.
From Stdlib Require QArith.
From stdpp Require Import gmap strings list.

Local Open Scope N_scope.

(** ** JavaScript strings *)

Module JsString.

(** A code unit of a JavaScript string. *)
Abbreviation char := N.
Abbreviation jsstring := (list char).

(** The code units of an ASCII literal of the source. *)
Definition js (s : string) : jsstring :=
  List.map N_of_ascii (list_ascii_of_string s).

(** The double quote and the newline, which the literals of the source
    embed. *)
Definition dq : jsstring := [34].
Definition nl : jsstring := [10].

(** LineTerminator: LF, CR, LS, PS. *)
Definition isLineTerminator (c : char) : bool :=
  (c =? 10) || (c =? 13) || (c =? 8232) || (c =? 8233).

(** WhiteSpace: TAB, VT, FF, SP, NBSP, ZWNBSP and the space separators. *)
Definition isWhiteSpace (c : char) : bool :=
  (c =? 9) || (c =? 11) || (c =? 12) || (c =? 32) || (c =? 160) ||
  (c =? 65279) || (c =? 5760) || ((8192 <=? c) && (c <=? 8202)) ||
  (c =? 8239) || (c =? 8287) || (c =? 12288).

(** What [String.prototype.trim] strips and what [\s] matches. *)
Definition isSpace (c : char) : bool := isWhiteSpace c || isLineTerminator c.

Fixpoint trimStart (s : jsstring) : jsstring :=
  match s with
  | c :: s' => if isSpace c then trimStart s' else s
  | [] => []
  end.

Definition trimEnd (s : jsstring) : jsstring := rev (trimStart (rev s)).

(** [String.prototype.trim]. *)
Definition trim (s : jsstring) : jsstring := trimEnd (trimStart s).

(** [String.prototype.startsWith]. *)
Fixpoint startsWith (s p : jsstring) {struct p} : bool :=
  match p, s with
  | [], _ => true
  | a :: p', b :: s' => (a =? b) && startsWith s' p'
  | _ :: _, [] => false
  end.

(** [Array.prototype.join] on an array of strings. *)
Fixpoint join (sep : jsstring) (l : list jsstring) : jsstring :=
  match l with
  | [] => []
  | [x] => x
  | x :: l' => x ++ sep ++ join sep l'
  end.

(** ASCII part of [String.prototype.toLowerCase]; the code units outside
    A-Z that the function maps are given by the host table [lowerOther]. *)
Definition lowerChar (lowerOther : char -> jsstring) (c : char) : jsstring :=
  if (65 <=? c) && (c <=? 90) then [c + 32]
  else if c <? 128 then [c] else lowerOther c.

Definition toLowerCase (lowerOther : char -> jsstring) (s : jsstring) : jsstring :=
  concat (List.map (lowerChar lowerOther) s).

(** Decimal rendering of a natural number, as a template literal prints an
    array index. *)
Definition natToString (n : nat) : jsstring :=
  js (NilEmpty.string_of_uint (Nat.to_uint n)).

End JsString.
Export JsString.

(** ** Regular expressions *)

Module RegExp.

(** Members of a character class. *)
Inductive citem :=
| IChar (c : char)      (* a pattern character *)
| ISpace                (* \s *)
| INotSpace.            (* \S *)

(** Atoms that consume exactly one code unit. *)
Inductive cset :=
| CChar (c : char)                        (* pattern character or escape *)
| CDot                                    (* .  *)
| CClass (neg : bool) (items : list citem). (* [...] and [^...] *)

Inductive regex :=
| Eps
| Chr (c : cset)
| Bol                                     (* ^ *)
| Eol                                     (* $ *)
| WordB                                   (* \b *)
| Star (greedy : bool) (c : cset)         (* c* and c*? *)
| Plus (greedy : bool) (c : cset)         (* c+ and c+? *)
| Group (i : nat) (r : regex)             (* i-th capturing group *)
| Seq (r1 r2 : regex).

Record flags := { global : bool; ignoreCase : bool; multiline : bool }.

Record regexp := { pattern : regex; ngroups : nat; fl : flags }.

(** Canonicalize of the pattern semantics without the unicode flag, on the
    code units below 128; a code unit from 128 on never canonicalizes to one
    below 128, so it is left as it is. *)
Definition canonicalize (f : flags) (c : char) : char :=
  if ignoreCase f then
    if (97 <=? c) && (c <=? 122) then c - 32 else c
  else c.

Definition citem_match (f : flags) (it : citem) (c : char) : bool :=
  match it with
  | IChar a => canonicalize f a =? canonicalize f c
  | ISpace => isSpace c
  | INotSpace => negb (isSpace c)
  end.

Definition cset_match (f : flags) (cs : cset) (c : char) : bool :=
  match cs with
  | CChar a => canonicalize f a =? canonicalize f c
  | CDot => negb (isLineTerminator c)
  | CClass neg items => xorb neg (existsb (fun it => citem_match f it c) items)
  end.

(** State of a match: the input before the current position (latest code
    unit first), the input from the current position on, and the captures. *)
Record mstate := { pre : jsstring; rest : jsstring; caps : list (option jsstring) }.

Definition cont := mstate -> option mstate.

Definition step (st : mstate) (c : char) (s : jsstring) : mstate :=
  {| pre := c :: pre st; rest := s; caps := caps st |}.

Definition at_bol (f : flags) (st : mstate) : bool :=
  match pre st with
  | [] => true
  | c :: _ => multiline f && isLineTerminator c
  end.

Definition at_eol (f : flags) (st : mstate) : bool :=
  match rest st with
  | [] => true
  | c :: _ => multiline f && isLineTerminator c
  end.

Definition isWordChar (c : char) : bool :=
  ((97 <=? c) && (c <=? 122)) || ((65 <=? c) && (c <=? 90)) ||
  ((48 <=? c) && (c <=? 57)) || (c =? 95).

Definition at_wordb (st : mstate) : bool :=
  xorb (match pre st with c :: _ => isWordChar c | [] => false end)
       (match rest st with c :: _ => isWordChar c | [] => false end).

(** Greedy repetition of a one-unit atom: the longest run first, then the
    shorter ones. *)
Fixpoint star_greedy (p : char -> bool) (st : mstate) (s : jsstring) (k : cont)
  : option mstate :=
  match s with
  | c :: s' =>
      if p c then
        match star_greedy p (step st c s') s' k with
        | Some r => Some r
        | None => k st
        end
      else k st
  | [] => k st
  end.

(** Lazy repetition: the shortest run first. *)
Fixpoint star_lazy (p : char -> bool) (st : mstate) (s : jsstring) (k : cont)
  : option mstate :=
  match k st with
  | Some r => Some r
  | None =>
      match s with
      | c :: s' => if p c then star_lazy p (step st c s') s' k else None
      | [] => None
      end
  end.

Definition star (greedy : bool) (p : char -> bool) (st : mstate) (k : cont)
  : option mstate :=
  if greedy then star_greedy p st (rest st) k else star_lazy p st (rest st) k.

(** The substring consumed between two states of one match. *)
Definition consumed (st0 st1 : mstate) : jsstring :=
  firstn (length (rest st0) - length (rest st1))%nat (rest st0).

Definition set_cap (i : nat) (v : jsstring) (st : mstate) : mstate :=
  {| pre := pre st; rest := rest st;
     caps := <[ Nat.pred i := Some v ]> (caps st) |}.

(** The matcher of a pattern, in continuation-passing style. *)
Fixpoint rmatch (f : flags) (r : regex) (st : mstate) (k : cont) : option mstate :=
  match r with
  | Eps => k st
  | Chr cs =>
      match rest st with
      | c :: s' => if cset_match f cs c then k (step st c s') else None
      | [] => None
      end
  | Bol => if at_bol f st then k st else None
  | Eol => if at_eol f st then k st else None
  | WordB => if at_wordb st then k st else None
  | Star g cs => star g (cset_match f cs) st k
  | Plus g cs =>
      match rest st with
      | c :: s' =>
          if cset_match f cs c then star g (cset_match f cs) (step st c s') k
          else None
      | [] => None
      end
  | Group i r' => rmatch f r' st (fun st' => k (set_cap i (consumed st st') st'))
  | Seq r1 r2 => rmatch f r1 st (fun st' => rmatch f r2 st' k)
  end.

(** One attempt at the current position: the matched text and the captures. *)
Definition exec_at (re : regexp) (before s : jsstring)
  : option (jsstring * list (option jsstring)) :=
  let st0 := {| pre := before; rest := s; caps := repeat None (ngroups re) |} in
  match rmatch (fl re) (pattern re) st0 Some with
  | Some st1 => Some (consumed st0 st1, caps st1)
  | None => None
  end.

Definition isDigit (c : char) : bool := (48 <=? c) && (c <=? 57).

Definition capture (cs : list (option jsstring)) (n : N) : option jsstring :=
  if (1 <=? n) && (n <=? N.of_nat (length cs))
  then Some (default [] (cs !!! (N.to_nat n - 1)%nat))
  else None.

(** GetSubstitution: expansion of the [$] references of a replacement
    text.  [before] is the input before the match (latest first), [after]
    the input behind it.  There are no named groups. *)
Fixpoint GetSubstitution (matched before after : jsstring)
    (cs : list (option jsstring)) (tmpl : jsstring) : jsstring :=
  match tmpl with
  | [] => []
  | 36 :: t1 =>
      match t1 with
      | 36 :: t2 => 36 :: GetSubstitution matched before after cs t2
      | 38 :: t2 => matched ++ GetSubstitution matched before after cs t2
      | 96 :: t2 => rev before ++ GetSubstitution matched before after cs t2
      | 39 :: t2 => after ++ GetSubstitution matched before after cs t2
      | d1 :: t2 =>
          if isDigit d1 then
            let one :=
              match capture cs (d1 - 48) with
              | Some v => v ++ GetSubstitution matched before after cs t2
              | None => 36 :: d1 :: GetSubstitution matched before after cs t2
              end in
            match t2 with
            | d2 :: t3 =>
                if isDigit d2 then
                  match capture cs ((d1 - 48) * 10 + (d2 - 48)) with
                  | Some v => v ++ GetSubstitution matched before after cs t3
                  | None => one
                  end
                else one
            | [] => one
            end
          else 36 :: GetSubstitution matched before after cs t1
      | [] => [36]
      end
  | c :: t1 => c :: GetSubstitution matched before after cs t1
  end.

(** [RegExp.prototype.test] from the start of the input: some position at or
    behind the current one matches. *)
Fixpoint test_from (re : regexp) (before s : jsstring) : bool :=
  match exec_at re before s with
  | Some _ => true
  | None =>
      match s with
      | c :: s' => test_from re (c :: before) s'
      | [] => false
      end
  end.

Definition test (re : regexp) (s : jsstring) : bool := test_from re [] s.

(** [String.prototype.replace] with a pattern without the global flag: the
    first match, searched from the start, is replaced. *)
Fixpoint replace_first (re : regexp) (tmpl before s : jsstring) : jsstring :=
  match exec_at re before s with
  | Some (m, cs) =>
      let after := skipn (length m) s in
      GetSubstitution m before after cs tmpl ++ after
  | None =>
      match s with
      | c :: s' => c :: replace_first re tmpl (c :: before) s'
      | [] => []
      end
  end.

(** [String.prototype.replace] with a global pattern.  [skip] counts the
    code units of the last match that lie ahead of the current position
    (lastIndex minus the position): they are dropped, and the next attempt
    starts behind them.  After an empty match lastIndex advances by one, so
    the code unit at the position is copied. *)
Fixpoint replace_loop (re : regexp) (tmpl before : jsstring) (skip : nat)
    (s : jsstring) : jsstring :=
  match skip with
  | S n =>
      match s with
      | c :: s' => replace_loop re tmpl (c :: before) n s'
      | [] => []
      end
  | O =>
      match exec_at re before s with
      | Some (m, cs) =>
          GetSubstitution m before (skipn (length m) s) cs tmpl ++
          match s with
          | c :: s' =>
              match length m with
              | O => c :: replace_loop re tmpl (c :: before) 0 s'
              | S n => replace_loop re tmpl (c :: before) n s'
              end
          | [] => []
          end
      | None =>
          match s with
          | c :: s' => c :: replace_loop re tmpl (c :: before) 0 s'
          | [] => []
          end
      end
  end.

Definition replace (re : regexp) (tmpl s : jsstring) : jsstring :=
  if global (fl re) then replace_loop re tmpl [] 0 s
  else replace_first re tmpl [] s.

(** [String.prototype.split] with a pattern without capturing groups.
    [cur] is the piece collected since the last separator (latest code unit
    first); a match that ends where the piece starts is passed over. *)
Fixpoint split_loop (re : regexp) (before cur : jsstring) (skip : nat)
    (s : jsstring) : list jsstring :=
  match skip with
  | S n =>
      match s with
      | c :: s' => split_loop re (c :: before) [] n s'
      | [] => [rev cur]
      end
  | O =>
      match s with
      | [] => [rev cur]
      | c :: s' =>
          match exec_at re before s with
          | Some (m, _) =>
              match length m with
              | O =>
                  match cur with
                  | [] => split_loop re (c :: before) [c] 0 s'
                  | _ :: _ => rev cur :: split_loop re (c :: before) [c] 0 s'
                  end
              | S n => rev cur :: split_loop re (c :: before) [] n s'
              end
          | None => split_loop re (c :: before) (c :: cur) 0 s'
          end
      end
  end.

Definition split (re : regexp) (s : jsstring) : list jsstring :=
  match s with
  | [] => match exec_at re [] [] with Some _ => [] | None => [[]] end
  | _ :: _ => split_loop re [] [] 0 s
  end.

(** Pattern syntax helpers: a literal run and a sequence. *)
Definition lit (s : string) : regex :=
  fold_right (fun c r => Seq (Chr (CChar c)) r) Eps (js s).

Fixpoint cat (l : list regex) : regex :=
  match l with
  | [] => Eps
  | [r] => r
  | r :: l' => Seq r (cat l')
  end.

End RegExp.
Export RegExp.

(** ** The Markdown formatters of [js/main.js] *)

Module Markdown.

Definition g : flags := {| global := true; ignoreCase := false; multiline := false |}.
Definition gim : flags := {| global := true; ignoreCase := true; multiline := true |}.
Definition noflags : flags := {| global := false; ignoreCase := false; multiline := false |}.

(** [/\[([^\]]+)\]\(([^)]+)\)/g] *)
Definition link_re : regexp :=
  {| pattern := cat [Chr (CChar 91);
                     Group 1 (Plus true (CClass true [IChar 93]));
                     Chr (CChar 93); Chr (CChar 40);
                     Group 2 (Plus true (CClass true [IChar 41]));
                     Chr (CChar 41)];
     ngroups := 2; fl := g |}.

(** [/\*\*([^*]+)\*\*/g] *)
Definition bold_re : regexp :=
  {| pattern := cat [Chr (CChar 42); Chr (CChar 42);
                     Group 1 (Plus true (CClass true [IChar 42]));
                     Chr (CChar 42); Chr (CChar 42)];
     ngroups := 1; fl := g |}.

(** [/\*([^*]+)\*/g] *)
Definition italic_re : regexp :=
  {| pattern := cat [Chr (CChar 42);
                     Group 1 (Plus true (CClass true [IChar 42]));
                     Chr (CChar 42)];
     ngroups := 1; fl := g |}.

(** [/__([^_]+)__/g] *)
Definition underscore_re : regexp :=
  {| pattern := cat [Chr (CChar 95); Chr (CChar 95);
                     Group 1 (Plus true (CClass true [IChar 95]));
                     Chr (CChar 95); Chr (CChar 95)];
     ngroups := 1; fl := g |}.

(** [/^---[\s\S]*?---\n/] *)
Definition frontmatter_re : regexp :=
  {| pattern := cat [Bol; lit "---"; Star false (CClass false [ISpace; INotSpace]);
                     lit "---"; Chr (CChar 10)];
     ngroups := 0; fl := noflags |}.

(** [/^### (.*$)/gim], [/^## (.*$)/gim] and [/^# (.*$)/gim] *)
Definition heading_re (hashes : string) : regexp :=
  {| pattern := cat [Bol; lit hashes; Chr (CChar 32);
                     Group 1 (Seq (Star true CDot) Eol)];
     ngroups := 1; fl := gim |}.

(** [/\n\n+/] *)
Definition blank_re : regexp :=
  {| pattern := cat [Chr (CChar 10); Plus true (CChar 10)];
     ngroups := 0; fl := noflags |}.

(** [/\n\n/g] *)
Definition break_re : regexp :=
  {| pattern := cat [Chr (CChar 10); Chr (CChar 10)];
     ngroups := 0; fl := g |}.

Definition link_tmpl : jsstring :=
  js "<a href=" ++ dq ++ js "$2" ++ dq ++ js " target=" ++ dq ++ js "_blank" ++ dq
     ++ js ">$1</a>".
Definition strong_tmpl : jsstring := js "<strong>$1</strong>".
Definition em_tmpl : jsstring := js "<em>$1</em>".

(** [formatInlineMarkdown] *)
Definition formatInlineMarkdown (text : jsstring) : jsstring :=
  replace italic_re em_tmpl
    (replace bold_re strong_tmpl
       (replace link_re link_tmpl text)).

(** The callback of [blocks.map] in [parseMarkdown]. *)
Definition wrapBlock (block : jsstring) : jsstring :=
  let block := trim block in
  match block with
  | [] => []
  | _ :: _ =>
      if startsWith block (js "<h") || startsWith block (js "<figure") ||
         startsWith block (js "<ul") || startsWith block (js "<ol") ||
         startsWith block (js "</")
      then block
      else js "<p>" ++ block ++ js "</p>"
  end.

(** The substitutions of [parseMarkdown] between the frontmatter removal
    and the split into blocks. *)
Definition convertInline (html : jsstring) : jsstring :=
  let html := replace (heading_re "###") (js "<h3>$1</h3>") html in
  let html := replace (heading_re "##") (js "<h2>$1</h2>") html in
  let html := replace (heading_re "#") (js "<h1>$1</h1>") html in
  let html := replace link_re link_tmpl html in
  let html := replace bold_re strong_tmpl html in
  let html := replace underscore_re strong_tmpl html in
  let html := replace italic_re em_tmpl html in
  html.

Definition stripFrontmatter (markdown : jsstring) : jsstring :=
  replace frontmatter_re [] markdown.

(** [parseMarkdown] *)
Definition parseMarkdown (markdown : jsstring) : jsstring :=
  let markdown := stripFrontmatter markdown in
  let html := convertInline markdown in
  let blocks := split blank_re html in
  join nl (List.map wrapBlock blocks).

End Markdown.
Export Markdown.

(** ** The page and the effects of the loaders *)

Module Dom.

(** A node of the page.  [props] holds the properties that scripts set on
    an element ([id], [href], [style.display], ...); [tagName] is upper case,
    as the DOM reports it. *)
#[warnings="-register-all"] Inductive node :=
| Text (data : jsstring)
| Elem (tagName : string) (props : gmap string jsstring) (childNodes : list node).

(** The elements that the scripts look up with [getElementById], and the
    lines written with [console.error]. *)
Record world := { doc : gmap string node; console : list jsstring }.

(** What the runtime provides: the implementation-specific part of date
    parsing (the time value of a text that is not in the date-only format,
    [None] for an invalid date), the offset of local time from UTC at a time
    value, in milliseconds, the text of a date object, the en-US rendering
    of a date, lower-casing of the code units from 128 on, the parsing that
    assigning [innerHTML] performs and the serialization that reading it
    performs.  Parsing the empty markup gives no node. *)
Class Host := {
  parseDateOther : jsstring -> option Z;
  LocalTZA : Z -> Z;
  dateToString : Z -> jsstring;
  toLocaleDateString : option Z -> jsstring;
  lowerOther : char -> jsstring;
  parseHTML : jsstring -> list node;
  serialize : list node -> jsstring;
  parseHTML_empty : parseHTML [] = []
}.

Inductive completion (A : Type) :=
| Normal (a : A)
| Throw (e : jsstring).
Arguments Normal {A} a.
Arguments Throw {A} e.

(** Statements that read and write the page and may throw. *)
Definition Js (A : Type) : Type := world -> completion A * world.

Definition ret {A} (a : A) : Js A := fun w => (Normal a, w).

Definition throw {A} (e : jsstring) : Js A := fun w => (Throw e, w).

Definition bind {A B} (m : Js A) (k : A -> Js B) : Js B :=
  fun w =>
    match m w with
    | (Normal a, w') => k a w'
    | (Throw e, w') => (Throw e, w')
    end.

#[export] Instance Js_ret : MRet Js := @ret.
#[export] Instance Js_bind : MBind Js := fun A B k m => bind m k.

(** [try { body } catch (error) { handler }] *)
Definition tryCatch {A} (body : Js A) (handler : jsstring -> Js A) : Js A :=
  fun w =>
    match body w with
    | (Normal a, w') => (Normal a, w')
    | (Throw e, w') => handler e w'
    end.

(** An outcome as a statement. *)
Definition settle {A} (outcome : completion A) : Js A :=
  match outcome with
  | Normal a => ret a
  | Throw e => throw e
  end.

Definition getElementById (id : string) : Js (option node) :=
  fun w => (Normal (doc w !! id), w).

Definition console_error (msg : string) : Js unit :=
  fun w => (Normal tt, {| doc := doc w; console := console w ++ [js msg] |}).

Definition childrenOf (n : node) : list node :=
  match n with
  | Elem _ _ cs => cs
  | _ => []
  end.

Definition withChildren (n : node) (cs : list node) : node :=
  match n with
  | Elem t p _ => Elem t p cs
  | _ => n
  end.

Definition setProp (n : node) (k : string) (v : jsstring) : node :=
  match n with
  | Elem t p cs => Elem t (<[k := v]> p) cs
  | _ => n
  end.

Definition update (id : string) (f : node -> node) : Js unit :=
  fun w => (Normal tt, {| doc := alter f id (doc w); console := console w |}).

(** [element.innerHTML = markup] on the element with the given id. *)
Definition setInnerHTML `{Host} (id : string) (markup : jsstring) : Js unit :=
  update id (fun n => withChildren n (parseHTML markup)).

(** [element.innerHTML += markup] *)
Definition appendInnerHTML `{Host} (id : string) (markup : jsstring) : Js unit :=
  update id (fun n => withChildren n (parseHTML (serialize (childrenOf n) ++ markup))).

(** [element.appendChild(child)] *)
Definition appendChild (id : string) (child : node) : Js unit :=
  update id (fun n => withChildren n (childrenOf n ++ [child])).

(** [array.forEach] with a callback that has effects. *)
Fixpoint forEach {A} (l : list A) (f : A -> Js unit) : Js unit :=
  match l with
  | [] => ret tt
  | x :: l' => f x;; forEach l' f
  end.

(** [array.map] with a callback that may throw. *)
Fixpoint mapJs {A B} (l : list A) (f : A -> Js B) : Js (list B) :=
  match l with
  | [] => ret []
  | x :: l' => y ← f x; ys ← mapJs l' f; ret (y :: ys)
  end.

End Dom.
Export Dom.

(** ** Loading a content file *)

Module Yaml.

(** [loadYaml(path)]; [response] is the outcome of the fetch, of reading
    its text and of [jsyaml.load]: the parsed data, [None] for [null] and
    [undefined], or what one of the three threw. *)
Definition loadYaml {A} (path : string) (response : completion (option A))
  : Js (option A) :=
  tryCatch (settle response)
    (fun error =>
       console_error ("Error loading YAML from " ++ path ++ ":");;
       ret None).

End Yaml.
Export Yaml.

(** ** Dates *)

Module DateTime.

Definition msPerDay : Z := 86400000.

(** DayFromYear and TimeFromYear of the language specification. *)
Definition DayFromYear (y : Z) : Z :=
  (365 * (y - 1970) + (y - 1969) / 4 - (y - 1901) / 100 + (y - 1601) / 400)%Z.

Definition TimeFromYear (y : Z) : Z := (msPerDay * DayFromYear y)%Z.

(** YearFromTime: the largest year that starts at the time value or before
    it.  The estimate from the mean length of a year is off by one at
    most. *)
Definition YearFromTime (t : Z) : Z :=
  let y := (1970 + t / msPerDay * 400 / 146097)%Z in
  if (TimeFromYear (y + 1) <=? t)%Z then (y + 1)%Z
  else if (TimeFromYear y <=? t)%Z then y
  else (y - 1)%Z.

Definition InLeapYear (y : Z) : bool :=
  ((y mod 4 =? 0)%Z && negb (y mod 100 =? 0)%Z) || (y mod 400 =? 0)%Z.

(** The days of a year before its month [m], from 1 to 12. *)
Definition daysBeforeMonth (leap : bool) (m : Z) : Z :=
  let l := if leap then 1%Z else 0%Z in
  match m with
  | 1 => 0 | 2 => 31 | 3 => 59 + l | 4 => 90 + l | 5 => 120 + l | 6 => 151 + l
  | 7 => 181 + l | 8 => 212 + l | 9 => 243 + l | 10 => 273 + l | 11 => 304 + l
  | _ => 334 + l
  end%Z.

Definition daysInMonth (leap : bool) (m : Z) : Z :=
  match m with
  | 2 => if leap then 29 else 28
  | 4 | 6 | 9 | 11 => 30
  | _ => 31
  end%Z.

Definition digitValue (c : char) : option Z :=
  if isDigit c then Some (Z.of_N (c - 48)) else None.

Fixpoint decimal (acc : Z) (s : jsstring) : option Z :=
  match s with
  | [] => Some acc
  | c :: s' =>
      match digitValue c with
      | Some d => decimal (10 * acc + d)%Z s'
      | None => None
      end
  end.

(** The time value of midnight UTC on a day of the calendar. *)
Definition makeDate (y m d : Z) : option Z :=
  if ((1 <=? m) && (m <=? 12) && (1 <=? d) && (d <=? daysInMonth (InLeapYear y) m))%Z
  then Some (TimeFromYear y + msPerDay * (daysBeforeMonth (InLeapYear y) m + d - 1))%Z
  else None.

(** The date-only forms of the date time string format, [YYYY], [YYYY-MM]
    and [YYYY-MM-DD], which are read as UTC. *)
Definition dateOnly (s : jsstring) : option Z :=
  match s with
  | [y1; y2; y3; y4] =>
      match decimal 0 [y1; y2; y3; y4] with
      | Some y => Some (TimeFromYear y)
      | None => None
      end
  | [y1; y2; y3; y4; 45; m1; m2] =>
      match decimal 0 [y1; y2; y3; y4], decimal 0 [m1; m2] with
      | Some y, Some m => makeDate y m 1
      | _, _ => None
      end
  | [y1; y2; y3; y4; 45; m1; m2; 45; d1; d2] =>
      match decimal 0 [y1; y2; y3; y4], decimal 0 [m1; m2], decimal 0 [d1; d2] with
      | Some y, Some m, Some d => makeDate y m d
      | _, _, _ => None
      end
  | _ => None
  end.

(** [Date.parse]: a text in a date-only form has the time value of that
    day; for any other text the result is the runtime's. *)
Definition Date_parse `{Host} (s : jsstring) : option Z :=
  match dateOnly s with
  | Some t => Some t
  | None => parseDateOther s
  end.

(** TimeClip on an integer or NaN. *)
Definition TimeClip (n : option Z) : option Z :=
  match n with
  | Some z => if (Z.abs z <=? 8640000000000000)%Z then Some z else None
  | None => None
  end.

(** LocalTime *)
Definition LocalTime `{Host} (t : Z) : Z := (t + LocalTZA t)%Z.

End DateTime.
Export DateTime.

(** ** Values of content fields *)

Module Value.

(** A field of a content item that is read as text: [None] is
    [undefined]. *)
Definition truthy (v : option jsstring) : bool :=
  match v with
  | Some (_ :: _) => true
  | _ => false
  end.

(** [a || b] *)
Definition orElse (a b : option jsstring) : option jsstring :=
  if truthy a then a else b.

(** A field spliced into a template literal. *)
Definition show (v : option jsstring) : jsstring :=
  match v with
  | Some s => s
  | None => js "undefined"
  end.

Definition zToString (z : Z) : jsstring :=
  js (NilEmpty.string_of_int (Z.to_int z)).

(** A number that is an integer or NaN, spliced into a template literal. *)
Definition showNum (n : option Z) : jsstring :=
  match n with
  | Some z => zToString z
  | None => js "NaN"
  end.

(** A field of a content item as the parser of the file hands it over:
    missing, [null], a boolean, a number (an integer or NaN), a string, a
    date (a YAML timestamp, by its time value), or a sequence or mapping (by
    its string conversion). *)
Inductive value :=
| VUndefined
| VNull
| VBool (b : bool)
| VNum (n : option Z)
| VStr (s : jsstring)
| VDate (t : Z)
| VObject (shown : jsstring).

Definition ofText (v : option jsstring) : value :=
  match v with
  | Some s => VStr s
  | None => VUndefined
  end.

Definition ToBoolean (v : value) : bool :=
  match v with
  | VUndefined | VNull => false
  | VBool b => b
  | VNum (Some z) => negb (z =? 0)%Z
  | VNum None => false
  | VStr s => match s with [] => false | _ :: _ => true end
  | VDate _ | VObject _ => true
  end.

(** [a || b] *)
Definition orValue (a b : value) : value := if ToBoolean a then a else b.

(** A value spliced into a template literal. *)
Definition ToString `{Host} (v : value) : jsstring :=
  match v with
  | VUndefined => js "undefined"
  | VNull => js "null"
  | VBool b => if b then js "true" else js "false"
  | VNum n => showNum n
  | VStr s => s
  | VDate t => dateToString t
  | VObject shown => shown
  end.

(** [new Date(value)] as its time value, [None] for an invalid date: a
    date is copied, a string is parsed, as is the string conversion of a
    sequence or mapping, and any other value is converted to a number. *)
Definition newDate `{Host} (v : value) : option Z :=
  match v with
  | VUndefined => None
  | VNull => Some 0%Z
  | VBool b => Some (if b then 1 else 0)%Z
  | VNum n => TimeClip n
  | VStr s => Date_parse s
  | VDate t => Some t
  | VObject shown => Date_parse shown
  end.

(** [date.getFullYear()] *)
Definition getFullYear `{Host} (d : option Z) : option Z :=
  option_map (fun t => YearFromTime (LocalTime t)) d.

(** A method of strings called on a value: only a string has it. *)
Definition asString (v : value) : Js jsstring :=
  match v with
  | VStr s => ret s
  | _ => throw (js "TypeError")
  end.

(** [Array.prototype.sort] with a comparison function.  The sort is
    stable; a comparison result NaN counts as zero (SortCompare). *)
Definition SortCompare {A} (comparefn : A -> A -> option Z) (x y : A) : Z :=
  match comparefn x y with
  | Some v => v
  | None => 0%Z
  end.

Fixpoint insert {A} (comparefn : A -> A -> option Z) (x : A) (l : list A) : list A :=
  match l with
  | [] => [x]
  | y :: l' =>
      if (SortCompare comparefn x y <=? 0)%Z then x :: l
      else y :: insert comparefn x l'
  end.

Definition sort {A} (comparefn : A -> A -> option Z) (l : list A) : list A :=
  fold_right (insert comparefn) [] l.

(** [dateB - dateA] on two dates. *)
Definition minus (b a : option Z) : option Z :=
  match b, a with
  | Some tb, Some ta => Some (tb - ta)%Z
  | _, _ => None
  end.

End Value.
Export Value.

(** ** Timeline *)

Module Timeline.

(** The value of [endYear]: a string or a number. *)
Inductive yearValue :=
| YStr (s : jsstring)
| YNum (n : option Z).

Definition yearTruthy (v : yearValue) : bool :=
  match v with
  | YStr (_ :: _) => true
  | YStr [] => false
  | YNum (Some z) => negb (z =? 0)%Z
  | YNum None => false
  end.

Definition showYear (v : yearValue) : jsstring :=
  match v with
  | YStr s => s
  | YNum n => showNum n
  end.

Section Render.
Context `{Host}.

(** The year range of an entry from its start and end dates; reading
    [toLowerCase] of an end date that is not a string throws. *)
Definition yearRange (start_date end_date : value) : Js jsstring :=
  let startDate := newDate start_date in
  let startYear := getFullYear startDate in
  endYear ←
    (if ToBoolean end_date then
       text ← asString end_date;
       if decide (toLowerCase lowerOther text = js "present")
       then ret (YStr (js "Present"))
       else
         let endDate := newDate end_date in
         ret (YNum (getFullYear endDate))
     else ret (YStr []));
  ret (if yearTruthy endYear
       then showNum startYear ++ js " - " ++ showYear endYear
       else showNum startYear ++ js " -").

Definition logoHTML (url logo organization : value) : jsstring :=
  if ToBoolean url then
    concat [
    js "<a href="; dq; ToString url; dq; js " target="; dq; js "_blank"; dq; js " class=";
    dq; js "timeline-logo-link"; dq; js "><img src="; dq; ToString logo; dq; js " alt=";
    dq; ToString organization; dq; js " class="; dq; js "timeline-logo"; dq; js "></a>"]
  else
    concat [
    js "<img src="; dq; ToString logo; dq; js " alt="; dq; ToString organization; dq;
    js " class="; dq; js "timeline-logo"; dq; js ">"].

Definition paragraph_tmpl : jsstring :=
  js "</p><p class=" ++ dq ++ js "timeline-description" ++ dq ++ js ">".

(** The markup of one entry. *)
Definition timelineHTML (yearRange logoHTML formattedDescription : jsstring) : jsstring :=
  concat [
    nl;
    js "            <div class="; dq; js "timeline-item"; dq; js ">"; nl;
    js "                <div class="; dq; js "timeline-dot"; dq; js "></div>"; nl;
    js "                <div class="; dq; js "timeline-year"; dq; js ">"; yearRange;
    js "</div>"; nl;
    js "                "; logoHTML; nl;
    js "                <div class="; dq; js "timeline-content"; dq; js ">"; nl;
    js "                    <p class="; dq; js "timeline-description"; dq; js ">";
    formattedDescription; js "</p>"; nl;
    js "                </div>"; nl;
    js "            </div>"; nl;
    js "            "].

End Render.

(** *** [loadTimeline] of [js/main.js] *)

Record TimelineItem := {
  start_date : value;
  end_date : value;
  description : value;
  url : value;
  logo : value;
  organization : value
}.

Section Main.
Context `{Host}.

(** The comparison function of the sort. *)
Definition byStartDate (a b : TimelineItem) : option Z :=
  let dateA := newDate (start_date a) in
  let dateB := newDate (start_date b) in
  minus dateB dateA.

(** The callback of [timeline.map]; [formatInlineMarkdown] reads [replace]
    of its argument, which throws unless the description is a string or
    falsy. *)
Definition renderItem (item : TimelineItem) : Js jsstring :=
  yearRange ← yearRange (start_date item) (end_date item);
  let formattedDescription := orValue (description item) (VStr []) in
  formattedDescription ← asString formattedDescription;
  let formattedDescription := formatInlineMarkdown formattedDescription in
  let formattedDescription := replace break_re paragraph_tmpl formattedDescription in
  let logoHTML := logoHTML (url item) (logo item) (organization item) in
  ret (timelineHTML yearRange logoHTML formattedDescription).

(** [loadTimeline]; [response] is the outcome of loading
    [timeline.yaml]. *)
Definition loadTimeline (response : completion (option (list TimelineItem))) : Js unit :=
  tryCatch
    (timeline ← loadYaml "content/timeline/timeline.yaml" response;
     listContainer ← getElementById "timeline-list";
     match listContainer, timeline with
     | Some _, Some timeline =>
         let timeline := sort byStartDate timeline in
         timelineItems ← mapJs timeline renderItem;
         setInnerHTML "timeline-list" (join [] timelineItems)
     | _, _ => ret tt
     end)
    (fun error => console_error "Error loading timeline:").

End Main.

End Timeline.

(** *** [loadTimeline] of [timeline.js] *)

Module TimelineJs.
Import Timeline.

Record TimelineItem := {
  startDate : value;
  endDate : value;
  description : value;
  url : value;
  logo : value;
  organization : value
}.

Section Standalone.
Context `{Host}.

Definition byStartDate (a b : TimelineItem) : option Z :=
  let dateA := newDate (startDate a) in
  let dateB := newDate (startDate b) in
  minus dateB dateA.

(** The callback of [timeline.forEach] up to the markup of the entry. *)
Definition renderItem (item : TimelineItem) : Js jsstring :=
  yearRange ← yearRange (startDate item) (endDate item);
  let formattedDescription := orValue (description item) (VStr []) in
  formattedDescription ← asString formattedDescription;
  let formattedDescription := replace link_re link_tmpl formattedDescription in
  let formattedDescription := replace bold_re strong_tmpl formattedDescription in
  let formattedDescription := replace italic_re em_tmpl formattedDescription in
  let formattedDescription := replace break_re paragraph_tmpl formattedDescription in
  let logoHTML := logoHTML (url item) (logo item) (organization item) in
  ret (timelineHTML yearRange logoHTML formattedDescription).

(** [loadTimeline]; [response] is the outcome of the fetch and of parsing
    its body as JSON. *)
Definition loadTimeline (response : completion (list TimelineItem)) : Js unit :=
  tryCatch
    (timeline ← settle response;
     listContainer ← getElementById "timeline-list";
     match listContainer with
     | None => ret tt
     | Some _ =>
         let timeline := sort byStartDate timeline in
         forEach timeline (fun item =>
           timelineHTML ← renderItem item;
           appendInnerHTML "timeline-list" timelineHTML)
     end)
    (fun error => console_error "Error loading timeline:").

End Standalone.

End TimelineJs.

(** ** Media, publications, blog list and social links *)

Module Loaders.

(** [formatInlineMarkdown(field)]: reading [replace] of [undefined] throws. *)
Definition formatField (v : option jsstring) : Js jsstring :=
  match v with
  | Some text => ret (formatInlineMarkdown text)
  | None => throw (js "TypeError")
  end.

(** *** [loadMedia] *)

Record MediaItem := {
  video_id : option jsstring;
  timestamp : option nat;
  media_title : option jsstring;
  media_description : option jsstring
}.

Definition videoUrl (item : MediaItem) : jsstring :=
  match timestamp item with
  | Some (S n) =>
      concat [js "https://www.youtube.com/embed/"; show (video_id item); js "?start=";
              natToString (S n)]
  | _ => concat [js "https://www.youtube.com/embed/"; show (video_id item)]
  end.

Definition mediaCard (item : MediaItem) : Js jsstring :=
  let videoUrl := videoUrl item in
  formattedTitle ← formatField (media_title item);
  formattedDescription ← formatField (media_description item);
  ret (concat [
    nl;
    js "            <div class="; dq; js "media-item"; dq; js ">"; nl;
    js "                <div class="; dq; js "media-thumbnail"; dq; js ">"; nl;
    js "                    <iframe "; nl;
    js "                        src="; dq; videoUrl; dq; js " "; nl;
    js "                        title="; dq; show (media_title item); dq; nl;
    js "                        allow="; dq;
    js "accelerometer; autoplay; clipboard-write; encrypted-media; gyroscope; picture-in-picture";
    dq; js " "; nl;
    js "                        allowfullscreen>"; nl;
    js "                    </iframe>"; nl;
    js "                </div>"; nl;
    js "                <div class="; dq; js "media-info"; dq; js ">"; nl;
    js "                    <h3>"; formattedTitle; js "</h3>"; nl;
    js "                    <p>"; formattedDescription; js "</p>"; nl;
    js "                </div>"; nl;
    js "            </div>"; nl;
    js "            "]).

(** [loadMedia]; [response] is the outcome of loading [media.yaml]. *)
Definition loadMedia `{Host} (response : completion (option (list MediaItem))) : Js unit :=
  tryCatch
    (mediaItems ← loadYaml "content/media/media.yaml" response;
     container ← getElementById "media-list";
     match container, mediaItems with
     | Some _, Some mediaItems =>
         mediaCards ← mapJs mediaItems mediaCard;
         setInnerHTML "media-list" (join [] mediaCards)
     | _, _ => ret tt
     end)
    (fun error => console_error "Error loading media:").

(** *** [loadPublications] *)

Record Publication := {
  pub_title : option jsstring;
  authors : option jsstring;
  venue : option jsstring;
  conference : option jsstring;
  paper : option jsstring;
  link : option jsstring;
  code : option jsstring;
  poster : option jsstring;
  slides : option jsstring;
  video : option jsstring;
  demo : option jsstring;
  image : option jsstring
}.

(** [/\bF\. Fehr\b/g] *)
Definition author_re : regexp :=
  {| pattern := cat [WordB; lit "F"; Chr (CChar 46); lit " Fehr"; WordB];
     ngroups := 0;
     fl := {| global := true; ignoreCase := false; multiline := false |} |}.

Definition buttons (pub : Publication) : list (string * option jsstring) :=
  [ ("Paper", orElse (paper pub) (link pub));
    ("Code", code pub);
    ("Poster", poster pub);
    ("Slides", slides pub);
    ("Video", video pub);
    ("Demo", demo pub) ]%string.

Definition buttonHTML (btn : string * option jsstring) : jsstring :=
  concat [
    js "<a href="; dq; show (snd btn); dq; js " class="; dq; js "pub-button"; dq;
    js " target="; dq; js "_blank"; dq; js " onclick="; dq;
    js "event.stopPropagation()"; dq; js ">"; js (fst btn); js "</a>"].

Definition buttonsHTML (pub : Publication) : jsstring :=
  let availableButtons := List.filter (fun btn => truthy (snd btn)) (buttons pub) in
  if (0 <? length availableButtons)%nat then
    concat [js "<div class="; dq; js "pub-buttons"; dq; js ">";
            join [] (List.map buttonHTML availableButtons);
            js "</div>"]
  else [].

Definition publicationCard (pub : Publication) : Js jsstring :=
  let buttonsHTML := buttonsHTML pub in
  formattedAuthors ←
    match authors pub with
    | Some a => ret (replace author_re (js "<strong>F. Fehr</strong>") a)
    | None => throw (js "TypeError")
    end;
  ret (concat [
    nl;
    js "            <div class="; dq; js "publication"; dq; js " onclick="; dq;
    js "window.open('"; show (orElse (paper pub) (link pub)); js "', '_blank')"; dq;
    js ">"; nl;
    js "                <div class="; dq; js "pub-image"; dq; js ">"; nl;
    js "                    <img src="; dq; show (image pub); dq; js " alt="; dq;
    show (pub_title pub); dq; js ">"; nl;
    js "                </div>"; nl;
    js "                <div class="; dq; js "pub-description"; dq; js ">"; nl;
    js "                    <h2>"; show (pub_title pub); js "</h2>"; nl;
    js "                    <p>"; formattedAuthors; js "</p>"; nl;
    js "                    <p>"; show (venue pub); js "</p>"; nl;
    js "                    <p><b class='pub-conference'>"; show (conference pub);
    js "</b></p>"; nl;
    js "                    "; buttonsHTML; nl;
    js "                </div>"; nl;
    js "            </div>"; nl;
    js "            "]).

(** [loadPublications]; [response] is the outcome of loading
    [publications.yaml]. *)
Definition loadPublications `{Host} (response : completion (option (list Publication)))
  : Js unit :=
  tryCatch
    (publications ← loadYaml "content/publications/publications.yaml" response;
     listContainer ← getElementById "publications-list";
     match listContainer, publications with
     | Some _, Some publications =>
         publicationCards ← mapJs publications publicationCard;
         setInnerHTML "publications-list" (join [] publicationCards)
     | _, _ => ret tt
     end)
    (fun error => console_error "Error loading publications:").

(** *** [loadBlogs] *)

Record Blog := {
  blog_id : option jsstring;
  blog_title : option jsstring;
  date : option jsstring;
  excerpt : option jsstring;
  thumbnail : option jsstring
}.

(** [formatDate] with its default options. *)
Definition formatDate `{Host} (dateString : option jsstring) : jsstring :=
  toLocaleDateString (newDate (ofText dateString)).

Definition blogCard `{Host} (blog : Blog) : jsstring :=
  let formattedDate := formatDate (date blog) in
  concat [
    nl;
    js "            <a href="; dq; js "blogs.html?id="; show (blog_id blog); dq;
    js " style="; dq; js "text-decoration:none;"; dq; js ">"; nl;
    js "            <div class="; dq; js "blog-post"; dq; js ">"; nl;
    js "                <div class="; dq; js "blog-image"; dq; js ">"; nl;
    js "                    <img src="; dq; show (thumbnail blog); dq; js " alt="; dq;
    show (blog_title blog); dq; js ">"; nl;
    js "                </div>"; nl;
    js "                <div class="; dq; js "blog-description"; dq; js ">"; nl;
    js "                    <h2>"; show (blog_title blog); js "</h2>"; nl;
    js "                    <p class="; dq; js "blog-date"; dq; js ">"; formattedDate;
    js "</p>"; nl;
    js "                    <p>"; show (excerpt blog); js "</p>"; nl;
    js "                </div>"; nl;
    js "            </div>"; nl;
    js "            </a>"; nl;
    js "            "].

(** [loadBlogs]; [response] is the outcome of loading [blogs.yaml]. *)
Definition loadBlogs `{Host} (response : completion (option (list Blog))) : Js unit :=
  tryCatch
    (blogs ← loadYaml "content/blogs/blogs.yaml" response;
     listContainer ← getElementById "blog-list";
     match listContainer, blogs with
     | Some _, Some blogs =>
         let blogCards := List.map blogCard blogs in
         setInnerHTML "blog-list" (join [] blogCards)
     | _, _ => ret tt
     end)
    (fun error => console_error "Error loading blogs:").

(** *** [loadSocialLinks] *)

Record Contact := {
  contact_url : option jsstring;
  contact_name : option jsstring;
  icon : option jsstring;
  is_image : bool
}.

(** The part of the parsed configuration that the section loaders read. *)
Record Config := { contacts : option (list Contact) }.

Definition socialLink `{Host} (contact : Contact) : node :=
  let innerHTML :=
    if is_image contact then
      concat [js "<img src="; dq; show (icon contact); dq; js " alt="; dq;
              show (contact_name contact); dq; js " class="; dq;
              js "social-icon-img"; dq; js ">"]
    else
      concat [js "<span class="; dq; js "social-icon"; dq; js ">";
              show (icon contact); js "</span>"] in
  Elem "A"
    (<["title" := show (contact_name contact)]>
       (<["className" := js "social-link"]>
          (<["target" := js "_blank"]>
             (<["href" := show (contact_url contact)]> ∅))))
    (parseHTML innerHTML).

(** [loadSocialLinks]; [config] is what [loadConfig] resolved to. *)
Definition loadSocialLinks `{Host} (config : option Config) : Js unit :=
  tryCatch
    (match config with
     | None => ret tt
     | Some config =>
         let contacts := contacts config in
         socialsContainer ← getElementById "profile-socials";
         match socialsContainer, contacts with
         | Some _, Some contacts =>
             forEach contacts (fun contact =>
               appendChild "profile-socials" (socialLink contact))
         | _, _ => ret tt
         end
     end)
    (fun error => console_error "Error loading social links:").

End Loaders.

(** ** The configuration cache *)

Module ConfigCache.
Import Loaders.

(** What [jsyaml.load] returns for the configuration file and what the
    module variable [siteConfig] holds: [null], [undefined] (an empty
    document parses to it) or the parsed configuration. *)
Inductive loaded :=
| Null
| Undefined
| Parsed (config : Config).

Section Cache.

(** [jsyaml.load]: the parsed document or an exception. *)
Variable yamlLoad : jsstring -> completion loaded.

(** The module variable [siteConfig], and what a run does with it: the
    calls of [loadConfig] suspended at their fetch, the number of fetches
    issued, the values assigned to the variable in order, the values the
    calls returned in order, and the errors logged. *)
Record state := {
  siteConfig : loaded;
  suspended : nat;
  fetches : nat;
  assigned : list loaded;
  returned : list loaded;
  logged : nat
}.

Definition initial : state :=
  {| siteConfig := Null; suspended := 0; fetches := 0; assigned := [];
     returned := []; logged := 0 |}.

(** A call of [loadConfig] up to its first [await]: with a configuration
    in the cache it returns it, otherwise it issues the fetch and
    suspends. *)
Definition loadConfig_enter (st : state) : state :=
  match siteConfig st with
  | Parsed config =>
      {| siteConfig := siteConfig st; suspended := suspended st;
         fetches := fetches st; assigned := assigned st;
         returned := returned st ++ [Parsed config]; logged := logged st |}
  | Null | Undefined =>
      {| siteConfig := siteConfig st; suspended := S (suspended st);
         fetches := S (fetches st); assigned := assigned st;
         returned := returned st; logged := logged st |}
  end.

(** A suspended call resumes with the outcome of its fetch: the text of
    the response, or a failure.  The two awaits of the call, for the
    response and for its text, are one suspension: the call does not touch
    the cache between them.  What the parser returns is assigned and
    returned as it is; after a failure the call logs and returns [null]. *)
Definition loadConfig_resume (response : completion jsstring) (st : state) : state :=
  match suspended st with
  | O => st
  | S n =>
      match response with
      | Normal yamlText =>
          match yamlLoad yamlText with
          | Normal v =>
              {| siteConfig := v; suspended := n; fetches := fetches st;
                 assigned := assigned st ++ [v];
                 returned := returned st ++ [v]; logged := logged st |}
          | Throw _ =>
              {| siteConfig := siteConfig st; suspended := n; fetches := fetches st;
                 assigned := assigned st;
                 returned := returned st ++ [Null]; logged := S (logged st) |}
          end
      | Throw _ =>
          {| siteConfig := siteConfig st; suspended := n; fetches := fetches st;
             assigned := assigned st;
             returned := returned st ++ [Null]; logged := S (logged st) |}
      end
  end.

(** The events of a run: a script calls [loadConfig], or a fetch settles
    and its call resumes. *)
Inductive event :=
| Call
| Settle (response : completion jsstring).

Definition handle (st : state) (e : event) : state :=
  match e with
  | Call => loadConfig_enter st
  | Settle response => loadConfig_resume response st
  end.

Definition run (events : list event) (st : state) : state :=
  fold_left handle events st.

End Cache.

End ConfigCache.

(** ** Table of contents *)

Module Toc.

Definition isHeading (n : node) : bool :=
  match n with
  | Elem t _ _ => String.eqb t "H2" || String.eqb t "H3"
  | Text _ => false
  end.

(** The [h2] and [h3] elements of a subtree in document order. *)
Fixpoint headingsOf (n : node) : list node :=
  match n with
  | Text _ => []
  | Elem _ _ cs => (if isHeading n then [n] else []) ++ flat_map headingsOf cs
  end.

(** [root.querySelectorAll('h2, h3')]: the matching descendants. *)
Definition querySelectorAll (root : node) : list node :=
  flat_map headingsOf (childrenOf root).

(** [node.textContent] *)
Fixpoint textContent (n : node) : jsstring :=
  match n with
  | Text d => d
  | Elem _ _ cs => concat (List.map textContent cs)
  end.

Definition sectionId (index : nat) : jsstring := js "section-" ++ natToString index.

(** The assignments [heading.id = id] of the loop: the heading with index
    [i] in document order receives [section-i].  The result is the subtree
    with the ids set and the index of the next heading. *)
Fixpoint assignIds (n : node) (index : nat) : node * nat :=
  match n with
  | Text _ => (n, index)
  | Elem t p cs =>
      let here := isHeading n in
      let p' := if here then <["id" := sectionId index]> p else p in
      let index' := if here then S index else index in
      let fix children (l : list node) (i : nat) : list node * nat :=
        match l with
        | [] => ([], i)
        | c :: l' =>
            let (c', j) := assignIds c i in
            let (l'', k) := children l' j in
            (c' :: l'', k)
        end in
      let (cs', j) := children cs index' in
      (Elem t p' cs', j)
  end.

Fixpoint assignIdsList (l : list node) (i : nat) : list node * nat :=
  match l with
  | [] => ([], i)
  | c :: l' =>
      let (c', j) := assignIds c i in
      let (l'', k) := assignIdsList l' j in
      (c' :: l'', k)
  end.

Definition tagNameOf (n : node) : string :=
  match n with
  | Elem t _ _ => t
  | Text _ => ""
  end.

(** The list item built for the heading with the given index. *)
Definition tocItem (index : nat) (heading : node) : node :=
  let id := sectionId index in
  let h3 := String.eqb (tagNameOf heading) "H3" in
  let link :=
    Elem "A"
      ((if h3 then <["style.fontSize" := js "13px"]> else (fun p => p))
         (<["href" := js "#" ++ id]> ∅))
      [Text (textContent heading)] in
  Elem "LI"
    ((if h3 then <["style.paddingLeft" := js "12px"]> else (fun p => p)) ∅)
    [link].

(** [generateTableOfContents], up to the registration of the scroll
    listener.  The ids of all headings are set before the items are
    appended; the loop of the source alternates the two, on different
    elements. *)
Definition generateTableOfContents : Js unit :=
  blogBody ← getElementById "blog-body";
  tocList ← getElementById "toc-list";
  blogToc ← getElementById "blog-toc";
  match blogBody, tocList with
  | Some body, Some _ =>
      let headings := querySelectorAll body in
      if (length headings =? 0)%nat then
        match blogToc with
        | Some _ => update "blog-toc" (fun n => setProp n "style.display" (js "none"))
        | None => ret tt
        end
      else
        update "blog-body"
          (fun n => withChildren n (fst (assignIdsList (childrenOf n) 0)));;
        forEach (imap (fun index heading => (index, heading)) headings)
          (fun '(index, heading) => appendChild "toc-list" (tocItem index heading))
  | _, _ => ret tt
  end.

End Toc.

(** ** The profile text *)

Module Simple.

(** [/\n\n+/g] *)
Definition paragraph_re : regexp :=
  {| pattern := cat [Chr (CChar 10); Plus true (CChar 10)];
     ngroups := 0; fl := g |}.

(** [/^/] *)
Definition start_re : regexp := {| pattern := Bol; ngroups := 0; fl := noflags |}.

(** [/$/] *)
Definition end_re : regexp := {| pattern := Eol; ngroups := 0; fl := noflags |}.

(** [convertSimpleMarkdownToHtml] *)
Definition convertSimpleMarkdownToHtml (markdown : jsstring) : jsstring :=
  replace end_re (js "</p>")
    (replace start_re (js "<p>")
       (replace paragraph_re (js "</p><p>")
          (replace link_re link_tmpl
             (replace bold_re strong_tmpl markdown)))).

End Simple.

(** ** Site metadata, layout and profile *)

Module Site.
Import Simple.

(** The part of the parsed configuration that the metadata and layout
    loaders read.  A scalar is a string, [None] is [undefined]. *)
Record Role := { role_title : option jsstring; affiliation : option jsstring }.

Record SiteInfo := {
  name : option jsstring;
  page_title : option jsstring;
  nationality_flags : option jsstring;
  role : option Role;
  footer_name : option jsstring;
  profile : option jsstring
}.

Record NavItem := { nav_href : option jsstring; nav_label : option jsstring }.

Record Header := { navigation : option (list NavItem) }.

Record SectionInfo := { title : option jsstring }.

Record Sections := {
  publications : option SectionInfo;
  blog : option SectionInfo;
  media : option SectionInfo
}.

Record Footer := {
  tagline : option jsstring;
  year : option jsstring;
  license_text : option jsstring;
  license_url : option jsstring
}.

Record Layout := {
  header : option Header;
  sections : option Sections;
  footer : option Footer
}.

Record SiteConfig := { site : option SiteInfo; layout : option Layout }.

(** [element.textContent = text] on the element with the given id: the
    children are replaced by one text node, by nothing if the text is
    empty. *)
Definition setTextContent (id : string) (text : jsstring) : Js unit :=
  update id (fun n => withChildren n (match text with [] => [] | _ :: _ => [Text text] end)).

(** [if (element && value) { element.textContent = value; }] *)
Definition setTextIf (element : option node) (id : string) (value : option jsstring)
  : Js unit :=
  match element with
  | Some _ => if truthy value then setTextContent id (show value) else ret tt
  | None => ret tt
  end.

(** [loadSiteMetadata]; [config] is what [loadConfig] resolved to. *)
Definition loadSiteMetadata (config : option SiteConfig) : Js unit :=
  tryCatch
    (match config with
     | None => ret tt
     | Some config =>
         siteNameElement ← getElementById "site-name";
         setTextIf siteNameElement "site-name" (site config ≫= name);;
         pageTitleElement ← getElementById "page-title";
         setTextIf pageTitleElement "page-title" (site config ≫= page_title);;
         nationalityFlagsElement ← getElementById "nationality-flags";
         setTextIf nationalityFlagsElement "nationality-flags"
           (site config ≫= nationality_flags);;
         roleTitleElement ← getElementById "role-title";
         roleAffiliationElement ← getElementById "role-affiliation";
         setTextIf roleTitleElement "role-title" ((site config ≫= role) ≫= role_title);;
         setTextIf roleAffiliationElement "role-affiliation"
           ((site config ≫= role) ≫= affiliation);;
         footerNameElement ← getElementById "footer-name";
         setTextIf footerNameElement "footer-name" (site config ≫= footer_name)
     end)
    (fun error => console_error "Error loading site metadata:").

(** [loadBlogSiteMetadata] *)
Definition loadBlogSiteMetadata (config : option SiteConfig) : Js unit :=
  tryCatch
    (match config with
     | None => ret tt
     | Some config =>
         siteNameElement ← getElementById "site-name";
         footerNameElement ← getElementById "footer-name";
         setTextIf siteNameElement "site-name" (site config ≫= name);;
         setTextIf footerNameElement "footer-name" (site config ≫= footer_name)
     end)
    (fun error => console_error "Error loading site metadata:").

(** [root.querySelector('#' + id)]: the first descendant, in document
    order, whose [id] is the given one. *)
Fixpoint findById (id : jsstring) (n : node) : option node :=
  match n with
  | Text _ => None
  | Elem _ p cs =>
      if decide (p !! "id"%string = Some id) then Some n
      else
        (fix first (l : list node) : option node :=
           match l with
           | [] => None
           | c :: l' =>
               match findById id c with
               | Some found => Some found
               | None => first l'
               end
           end) cs
  end.

Fixpoint findByIdList (id : jsstring) (l : list node) : option node :=
  match l with
  | [] => None
  | c :: l' =>
      match findById id c with
      | Some found => Some found
      | None => findByIdList id l'
      end
  end.

Definition querySelectorId (id : jsstring) (root : node) : option node :=
  findByIdList id (childrenOf root).

(** The link created for an entry of the navigation. *)
Definition navLink `{Host} (navItem : NavItem) : node :=
  Elem "A" (<["href"%string := show (nav_href navItem)]> ∅)
    (parseHTML (show (nav_label navItem))).

(** [updateSectionTitle] *)
Definition updateSectionTitle `{Host} (elementId : string) (title : option jsstring)
  : Js unit :=
  element ← getElementById elementId;
  match element with
  | Some _ => if truthy title then setInnerHTML elementId (show title) else ret tt
  | None => ret tt
  end.

(** The update of the license link in the footer. *)
Definition setLicense (element : option node) (footer : option Footer) : Js unit :=
  match element with
  | Some _ =>
      if truthy (footer ≫= license_text) then
        let licenseUrl := orElse (footer ≫= license_url) (Some (js "#")) in
        update "footer-license" (fun n => setProp n "href" (show licenseUrl));;
        setTextContent "footer-license" (show (footer ≫= license_text))
      else ret tt
  | None => ret tt
  end.

(** [loadLayoutConfiguration] *)
Definition loadLayoutConfiguration `{Host} (config : option SiteConfig) : Js unit :=
  tryCatch
    (match config with
     | None => ret tt
     | Some config =>
         navLinksElement ← getElementById "nav-links";
         match navLinksElement, (layout config ≫= header) ≫= navigation with
         | Some nav, Some navigation =>
             let themeButton := querySelectorId (js "theme-toggle") nav in
             setInnerHTML "nav-links" [];;
             forEach navigation (fun navItem =>
               appendChild "nav-links" (navLink navItem));;
             match themeButton with
             | Some button => appendChild "nav-links" button
             | None => ret tt
             end
         | _, _ => ret tt
         end;;
         updateSectionTitle "publications-heading"
           (((layout config ≫= sections) ≫= publications) ≫= title);;
         updateSectionTitle "blog-heading"
           (((layout config ≫= sections) ≫= blog) ≫= title);;
         updateSectionTitle "media-heading"
           (((layout config ≫= sections) ≫= media) ≫= title);;
         footerTaglineElement ← getElementById "footer-tagline";
         footerYearElement ← getElementById "footer-year";
         footerLicenseElement ← getElementById "footer-license";
         setTextIf footerTaglineElement "footer-tagline"
           ((layout config ≫= footer) ≫= tagline);;
         setTextIf footerYearElement "footer-year" ((layout config ≫= footer) ≫= year);;
         setLicense footerLicenseElement (layout config ≫= footer)
     end)
    (fun error => console_error "Error loading layout configuration:").

(** [loadBlogLayoutConfiguration] *)
Definition loadBlogLayoutConfiguration (config : option SiteConfig) : Js unit :=
  tryCatch
    (match config with
     | None => ret tt
     | Some config =>
         footerYearElement ← getElementById "footer-year";
         footerTaglineElement ← getElementById "footer-tagline";
         footerLicenseElement ← getElementById "footer-license";
         setTextIf footerYearElement "footer-year" ((layout config ≫= footer) ≫= year);;
         setTextIf footerTaglineElement "footer-tagline"
           ((layout config ≫= footer) ≫= tagline);;
         setLicense footerLicenseElement (layout config ≫= footer)
     end)
    (fun error => console_error "Error loading layout configuration:").


End Site.

(** ** Theme toggle *)

Module Theme.
Import Site.

(** What the theme toggle reads and writes besides the page: the
    [data-theme] attribute of the root element, the local storage, the
    answer of the media query [(prefers-color-scheme: dark)], and the number
    of click listeners registered on the button. *)
Record browser := {
  page : world;
  dataTheme : option jsstring;
  localStorage : gmap string jsstring;
  prefersDark : bool;
  clickListeners : nat
}.

(** The icons of the button: U+2600 U+FE0F and U+1F319 as code units. *)
Definition sun : jsstring := [9728; 65039].
Definition moon : jsstring := [55356; 57113].

Definition setIcon (icon : jsstring) (w : world) : world :=
  snd (setTextContent "theme-toggle" icon w).

(** The click listener of the button. *)
Definition onClick (b : browser) : browser :=
  let currentTheme := dataTheme b in
  let newTheme :=
    if decide (currentTheme = Some (js "dark")) then js "light" else js "dark" in
  {| page := setIcon (if decide (newTheme = js "dark") then sun else moon) (page b);
     dataTheme := Some newTheme;
     localStorage := <["theme"%string := newTheme]> (localStorage b);
     prefersDark := prefersDark b;
     clickListeners := clickListeners b |}.

(** [initializeThemeToggle] *)
Definition initializeThemeToggle (b : browser) : browser :=
  match doc (page b) !! "theme-toggle"%string with
  | None => b
  | Some _ =>
      let savedTheme :=
        orElse (localStorage b !! "theme"%string)
          (Some (if prefersDark b then js "dark" else js "light")) in
      if decide (savedTheme = Some (js "dark")) then
        {| page := setIcon sun (page b);
           dataTheme := Some (js "dark");
           localStorage := localStorage b;
           prefersDark := prefersDark b;
           clickListeners := S (clickListeners b) |}
      else
        {| page := setIcon moon (page b);
           dataTheme := Some (js "light");
           localStorage := localStorage b;
           prefersDark := prefersDark b;
           clickListeners := S (clickListeners b) |}
  end.

(** A click on the button runs the registered listeners. *)
Definition click (b : browser) : browser := Nat.iter (clickListeners b) onClick b.

End Theme.

(** ** The blog post page *)

Module BlogPost.
Import Site Loaders Toc.

(** An entry of [blogs.yaml] as [loadBlogPost] reads it. *)
Record BlogEntry := {
  post_id : option jsstring;
  post_title : option jsstring;
  post_date : option jsstring;
  content_file : option jsstring;
  markdown_file : option jsstring
}.

(** [String.prototype.includes] *)
Fixpoint includes (s p : jsstring) : bool :=
  startsWith s p ||
  match s with
  | [] => false
  | _ :: s' => includes s' p
  end.

(** The callback of [images.forEach]: a relative path that does not
    contain [content/blogs/] receives it as a prefix. *)
Definition fixImage (img : node) : node :=
  match img with
  | Elem _ p _ =>
      let src := p !! "src"%string in
      if truthy src && negb (startsWith (show src) (js "http"))
         && negb (startsWith (show src) (js "/"))
         && negb (includes (show src) (js "content/blogs/"))
      then setProp img "src" (js "content/blogs/" ++ show src)
      else img
  | Text _ => img
  end.

(** The loop over [querySelectorAll('img')] on a subtree. *)
Fixpoint fixImages (n : node) : node :=
  match n with
  | Text _ => n
  | Elem t p cs =>
      let n' := Elem t p (List.map fixImages cs) in
      if String.eqb t "IMG" then fixImage n' else n'
  end.

(** [blogs?.find(b => b.id === blogId)] *)
Definition find (blogs : option (list BlogEntry)) (blogId : jsstring) : option BlogEntry :=
  match blogs with
  | Some blogs => List.find (fun b => bool_decide (post_id b = Some blogId)) blogs
  | None => None
  end.

(** [if (element) element.textContent = text], where [undefined] is
    written as the empty text. *)
Definition setTextOf (element : option node) (id : string) (text : option jsstring)
  : Js unit :=
  match element with
  | Some _ => setTextContent id (default [] text)
  | None => ret tt
  end.

(** [if (blogBodyElement) blogBodyElement.innerHTML = markup] *)
Definition setBody `{Host} (blogBodyElement : option node) (markup : jsstring) : Js unit :=
  match blogBodyElement with
  | Some _ => setInnerHTML "blog-body" markup
  | None => ret tt
  end.

Section Post.
Context `{Host}.

(** The outcome of fetching a content file and parsing it as JSON, as its
    field [content] ([None] where the field is missing), and the outcome of
    fetching a Markdown file and reading its text. *)
Variable fetchJson : jsstring -> completion (option jsstring).
Variable fetchText : jsstring -> completion jsstring.

(** The markup of the post, or what loading it throws. *)
Definition loadContent (blog : BlogEntry) : completion jsstring :=
  if truthy (content_file blog) then
    match fetchJson (show (content_file blog)) with
    | Normal (Some content) => Normal (parseMarkdown content)
    | Normal None => Throw (js "TypeError")
    | Throw e => Throw e
    end
  else if truthy (markdown_file blog) then
    match fetchText (show (markdown_file blog)) with
    | Normal markdownText => Normal (parseMarkdown markdownText)
    | Throw e => Throw e
    end
  else Throw (js "Error: No content file specified").

(** [loadBlogPost]; [blogId] is the query parameter [id], [response]
    the outcome of loading [blogs.yaml]. *)
Definition loadBlogPost (blogId : option jsstring)
    (response : completion (option (list BlogEntry))) : Js unit :=
  tryCatch
    (blogBodyElement ← getElementById "blog-body";
     if negb (truthy blogId) then
       setBody blogBodyElement (js "<p>No blog post specified.</p>")
     else
       blogs ← loadYaml "content/blogs/blogs.yaml" response;
       match find blogs (show blogId) with
       | None => setBody blogBodyElement (js "<p>Blog post not found.</p>")
       | Some blog =>
           titleElement ← getElementById "blog-title";
           dateElement ← getElementById "blog-date";
           pageTitleElement ← getElementById "page-title";
           setTextOf titleElement "blog-title" (post_title blog);;
           setTextOf pageTitleElement "page-title" (post_title blog);;
           setTextOf dateElement "blog-date" (Some (formatDate (post_date blog)));;
           htmlContent ← settle (loadContent blog);
           match blogBodyElement with
           | Some _ =>
               setInnerHTML "blog-body" htmlContent;;
               update "blog-body"
                 (fun n => withChildren n (List.map fixImages (childrenOf n)))
           | None => ret tt
           end;;
           generateTableOfContents
       end)
    (fun error =>
       console_error "Error loading blog post:";;
       blogBodyElement ← getElementById "blog-body";
       setBody blogBodyElement (js "<p>Error loading blog post.</p>")).

End Post.

End BlogPost.

(** ** The scroll listener of the outline *)

Module Scroll.
Import Toc.

(** ASCII whitespace, which separates the tokens of a class list. *)
Definition isAsciiWhitespace (c : char) : bool :=
  (c =? 9) || (c =? 10) || (c =? 12) || (c =? 13) || (c =? 32).

(** A string split on ASCII whitespace; [cur] is the token collected so
    far, latest code unit first. *)
Fixpoint splitTokens (cur s : jsstring) : list jsstring :=
  match s with
  | [] => match cur with [] => [] | _ :: _ => [rev cur] end
  | c :: s' =>
      if isAsciiWhitespace c then
        match cur with
        | [] => splitTokens [] s'
        | _ :: _ => rev cur :: splitTokens [] s'
        end
      else splitTokens (c :: cur) s'
  end.

(** The tokens as an ordered set: the first occurrence of each. *)
Definition orderedSet (l : list jsstring) : list jsstring :=
  fold_left (fun acc token => if bool_decide (token ∈ acc) then acc else acc ++ [token]) l [].

(** The token set of [element.classList]; the class attribute is the
    property [className]. *)
Definition classList (n : node) : list jsstring :=
  match n with
  | Elem _ p _ =>
      match p !! "className"%string with
      | Some value => orderedSet (splitTokens [] value)
      | None => []
      end
  | Text _ => []
  end.

(** The update steps of a class list: without the attribute and without
    tokens nothing is written, otherwise the attribute receives the tokens
    joined by spaces. *)
Definition updateClass (n : node) (tokens : list jsstring) : node :=
  match n with
  | Elem _ p _ =>
      match p !! "className"%string, tokens with
      | None, [] => n
      | _, _ => setProp n "className" (join (js " ") tokens)
      end
  | Text _ => n
  end.

(** [element.classList.remove(token)] *)
Definition classList_remove (token : jsstring) (n : node) : node :=
  updateClass n (List.filter (fun t => negb (bool_decide (t = token))) (classList n)).

(** [element.classList.add(token)] *)
Definition classList_add (token : jsstring) (n : node) : node :=
  updateClass n
    (if bool_decide (token ∈ classList n) then classList n else classList n ++ [token]).

(** [element.getAttribute('href')] *)
Definition hrefAttribute (n : node) : option jsstring :=
  match n with
  | Elem _ p _ => p !! "href"%string
  | Text _ => None
  end.

(** The callback of the loop over the links. *)
Definition markLink (current : jsstring) (link : node) : node :=
  let link := classList_remove (js "active") link in
  if decide (hrefAttribute link = Some (js "#" ++ current))
  then classList_add (js "active") link
  else link.

(** The loop over [tocList.querySelectorAll('a')] on a subtree. *)
Fixpoint markLinks (current : jsstring) (n : node) : node :=
  match n with
  | Text _ => n
  | Elem t p cs =>
      let n' := Elem t p (List.map (markLinks current) cs) in
      if String.eqb t "A" then markLink current n' else n'
  end.

(** The loop over the headings: [current] becomes the identifier of the
    last heading whose top edge is at most 100 pixels below the top of the
    viewport.  A heading is given by its identifier and the top of its
    bounding rectangle. *)
Definition currentSection (headings : list (jsstring * QArith_base.Q)) : jsstring :=
  fold_left
    (fun current heading =>
       if QArith_base.Qle_bool (snd heading) (QArith_base.inject_Z 100)
       then fst heading else current)
    headings [].

(** The scroll listener: the variable [activeLink] before and after, and
    the page. *)
Definition onScroll (headings : list (jsstring * QArith_base.Q))
    (activeLink : option jsstring) (w : world) : option jsstring * world :=
  let current := currentSection headings in
  if truthy (Some current) && negb (bool_decide (Some current = activeLink)) then
    (Some current,
     {| doc :=
          alter (fun tocList =>
                   withChildren tocList (List.map (markLinks current) (childrenOf tocList)))
            "toc-list"%string (doc w);
        console := console w |})
  else (activeLink, w).

End Scroll.

(** ** Notions used in the statements *)

Module MatcherDefs.

(** [st'] lies [m] code units behind [st] in the same input. *)
Definition advances (st st' : mstate) : Prop :=
  exists m, rest st = m ++ rest st' /\ pre st' = rev m ++ pre st.

Definition infix (v w : jsstring) : Prop := exists a b, w = a ++ v ++ b.

Definition caps_in (w : jsstring) (cs : list (option jsstring)) : Prop :=
  Forall (fun c => match c with Some v => infix v w | None => True end) cs.

Definition whole (st : mstate) : jsstring := rev (pre st) ++ rest st.

(** What a state reached by a successful sub-match satisfies. *)
Definition reached (st st' : mstate) : Prop :=
  advances st st' /\
  length (caps st') = length (caps st) /\
  (caps_in (whole st) (caps st) -> caps_in (whole st) (caps st')).

(** The state [t] code units behind [st], with [s] left to read. *)
Definition advance (st : mstate) (t s : jsstring) : mstate :=
  {| pre := rev t ++ pre st; rest := s; caps := caps st |}.

End MatcherDefs.

Module TextDefs.

(** No two consecutive newlines anywhere in the text. *)
Definition NoBlankLine (s : jsstring) : Prop := forall a b, s <> a ++ 10 :: 10 :: b.

Definition starts10 (s : jsstring) : bool :=
  match s with c :: _ => c =? 10 | [] => false end.

Definition ends10 (s : jsstring) : bool := starts10 (rev s).

(** The decision procedure for [NoBlankLine]. *)
Fixpoint blankFree (s : jsstring) : bool :=
  match s with
  | [] => true
  | c :: s' => negb ((c =? 10) && starts10 s') && blankFree s'
  end.

(** A replacement text is safe when its expansion is never empty, neither
    starts nor ends with a newline, and has no blank line if the captures
    have none. *)
Definition safe_tmpl (n : nat) (tmpl : jsstring) : Prop :=
  forall m b a cs, length cs = n ->
    Forall (fun c => match c with Some v => blankFree v = true | None => True end) cs ->
    let o := GetSubstitution m b a cs tmpl in
    o <> [] /\ starts10 o = false /\ ends10 o = false /\ blankFree o = true.

(** The test of [wrapBlock] on the trimmed block. *)
Definition isBlockStart (block : jsstring) : bool :=
  startsWith block (js "<h") || startsWith block (js "<figure") ||
  startsWith block (js "<ul") || startsWith block (js "<ol") ||
  startsWith block (js "</").

(** Code units that start no inline or heading pattern: none of [#], [*],
    [[] and [_]. *)
Definition inertChar (c : char) : bool :=
  negb ((c =? 35) || (c =? 42) || (c =? 91) || (c =? 95)).

Definition inert (s : jsstring) : bool := forallb inertChar s.

(** The anchor that the link substitution writes. *)
Definition anchor (u t : jsstring) : jsstring :=
  js "<a href=" ++ dq ++ u ++ dq ++ js " target=" ++ dq ++ js "_blank" ++ dq ++ js ">"
  ++ t ++ js "</a>".

(** The prefixes that [wrapBlock] tests. *)
Definition blockPrefixes : list jsstring :=
  [js "<h"; js "<figure"; js "<ul"; js "<ol"; js "</"].

(** The block-level tags as the specification names them: a heading tag
    ([<h1] to [<h6]), [<figure], a list ([<ul], [<ol]) or a closing tag. *)
Definition specBlockLevel (block : jsstring) : bool :=
  match block with
  | 60 :: 104 :: d :: _ => (49 <=? d) && (d <=? 54)
  | _ => false
  end
  || startsWith block (js "<figure") || startsWith block (js "<ul")
  || startsWith block (js "<ol") || startsWith block (js "</").

(** Neither the first nor the last code unit is white space. *)
Definition trimmed (s : jsstring) : Prop :=
  match s with c :: _ => isSpace c = false | [] => True end /\
  match rev s with c :: _ => isSpace c = false | [] => True end.

(** The closing delimiter, [---] and a newline, stands at the end of the
    frontmatter and nowhere before. *)
Definition closesAtEnd (fm : jsstring) : Prop :=
  forall a b, fm = a ++ b -> b <> [] ->
    startsWith (b ++ js "---" ++ nl) (js "---" ++ nl) = false.

End TextDefs.

Module SortDefs.

Section Keys.
Context {A : Type} (key : A -> Z).




End Keys.

End SortDefs.

Module TimelineDefs.
Import Timeline.

Section Keys.
Context `{Host}.





End Keys.


(** A value that the callback of the loaders can take for an end date or
    a description: a string, or a value that counts as false. *)
Definition textual (v : value) : Prop :=
  (exists s, v = VStr s) \/ ToBoolean v = false.

Definition renders (item : TimelineItem) : Prop :=
  textual (end_date item) /\ textual (description item).

Definition rendersJs (item : TimelineJs.TimelineItem) : Prop :=
  textual (TimelineJs.endDate item) /\ textual (TimelineJs.description item).

(** The element of the markup of an entry that shows the year range. *)
Definition yearElement (range : jsstring) : jsstring :=
  js "<div class=" ++ dq ++ js "timeline-year" ++ dq ++ js ">" ++ range ++ js "</div>".

(** The four digits of a year from 0 to 9999. *)
Definition year4 (y : Z) : jsstring :=
  List.map (fun p => 48 + Z.to_N (y / p mod 10)) [1000; 100; 10; 1]%Z.

(** The line that [loadYaml] logs when loading fails. *)
Definition yamlFailure {A} (path : string) (response : completion A) : list jsstring :=
  match response with
  | Normal _ => []
  | Throw _ => [js ("Error loading YAML from " ++ path ++ ":")]
  end.

(** Hosts for examples.  A text outside the date-only forms is an invalid
    date, a date prints as its time value, a code unit from 128 on is its
    own lower case, and markup is kept as one text node.  The first host is
    in the time zone UTC, the second one five hours west of it. *)
Definition textNode (markup : jsstring) : list node :=
  match markup with
  | [] => []
  | _ :: _ => [Text markup]
  end.

Definition flatText (nodes : list node) : jsstring :=
  concat (List.map (fun n => match n with Text d => d | Elem _ _ _ => [] end) nodes).

Definition utcHost : Host :=
  {| parseDateOther := fun _ => None;
     LocalTZA := fun _ => 0%Z;
     dateToString := zToString;
     toLocaleDateString := showNum;
     lowerOther := fun c => [c];
     parseHTML := textNode;
     serialize := flatText;
     parseHTML_empty := eq_refl |}.

Definition westHost : Host :=
  {| parseDateOther := fun _ => None;
     LocalTZA := fun _ => (-18000000)%Z;
     dateToString := zToString;
     toLocaleDateString := showNum;
     lowerOther := fun c => [c];
     parseHTML := textNode;
     serialize := flatText;
     parseHTML_empty := eq_refl |}.

(** An entry with a start date and an end date only, of [timeline.yaml]
    and of [timeline.json]. *)
Definition entry (start : string) (finish : value) : TimelineItem :=
  {| start_date := VStr (js start); end_date := finish; description := VUndefined;
     url := VUndefined; logo := VUndefined; organization := VUndefined |}.

Definition entryJs (start : string) (finish : value) : TimelineJs.TimelineItem :=
  {| TimelineJs.startDate := VStr (js start); TimelineJs.endDate := finish;
     TimelineJs.description := VUndefined; TimelineJs.url := VUndefined;
     TimelineJs.logo := VUndefined; TimelineJs.organization := VUndefined |}.

(** A page that has only the blog list, and one that has only the list of
    the timeline. *)
Definition blogOnly : world :=
  {| doc := {["blog-list"%string := Elem "DIV" ∅ []]}; console := [] |}.

Definition timelineOnly : world :=
  {| doc := {["timeline-list"%string := Elem "DIV" ∅ []]}; console := [] |}.

(** The page after a loader of [js/main.js] that finds its target absent:
    what [loadYaml] logged when loading failed is all that the run leaves. *)
Definition skipped {A} (path : string) (response : completion A) (w : world) : world :=
  {| doc := doc w; console := console w ++ yamlFailure path response |}.

End TimelineDefs.


Module TocDefs.
Import Toc.

(** The [id] property of a node. *)
Definition idOf (n : node) : option jsstring :=
  match n with
  | Elem _ p _ => p !! "id"%string
  | Text _ => None
  end.

(** The [href] of the link inside an item of the outline. *)
Definition hrefOf (item : node) : option jsstring :=
  match item with
  | Elem _ _ [Elem _ p _] => p !! "href"%string
  | _ => None
  end.

(** The identifiers [section-i] for [i] from [first] on. *)
Definition sectionIds (first count : nat) : list jsstring :=
  List.map sectionId (seq first count).

(** What the assignment of identifiers does to a subtree: the index moves
    on by the number of headings, the headings receive the identifiers from
    the index on, and tags and text stay. *)
Definition assigned (n : node) : Prop :=
  forall i,
    snd (assignIds n i) = (i + length (headingsOf n))%nat /\
    List.map idOf (headingsOf (fst (assignIds n i)))
    = List.map Some (sectionIds i (length (headingsOf n))) /\
    List.map tagNameOf (headingsOf (fst (assignIds n i)))
    = List.map tagNameOf (headingsOf n) /\
    textContent (fst (assignIds n i)) = textContent n.

(** A body with one [h2] and two [h3] around a paragraph. *)
Definition samplePage : world :=
  {| doc :=
       <["blog-body"%string :=
           Elem "DIV" ∅
             [Elem "H2" ∅ [Text (js "Intro")]; Elem "P" ∅ [Text (js "text")];
              Elem "H3" ∅ [Text (js "First")]; Elem "H3" ∅ [Text (js "Second")]]]>
         (<["toc-list"%string := Elem "UL" ∅ []]> ∅);
     console := [] |}.

(** Induction on a node with the children as induction hypotheses. *)
Section NodeInd.
Variable P : node -> Prop.
Hypothesis HText : forall d, P (Text d).
Hypothesis HElem : forall t p cs, Forall P cs -> P (Elem t p cs).

Fixpoint node_rect' (n : node) : P n :=
  match n with
  | Text d => HText d
  | Elem t p cs =>
      HElem t p cs
        ((fix go (l : list node) : Forall P l :=
            match l with
            | [] => @List.Forall_nil _ P
            | c :: l' => @List.Forall_cons _ P c l' (node_rect' c) (go l')
            end) cs)
  end.

End NodeInd.

End TocDefs.


Module CacheDefs.
Import Loaders ConfigCache.

(** Every fetch that delivers a text delivers [text]. *)
Definition sameText (text : jsstring) (events : list event) : Prop :=
  Forall (fun e => match e with
                   | Settle (Normal t) => t = text
                   | _ => True
                   end) events.

(** A parser for examples: every text is the configuration without
    contacts. *)
Definition plainYaml (text : jsstring) : completion loaded :=
  Normal (Parsed {| contacts := None |}).

(** The calls of [initializeMainPage]: [loadLayoutConfiguration],
    [loadSiteMetadata], [loadProfileContent] and [loadSocialLinks] call
    [loadConfig] one after the other before any fetch settles. *)
Definition mainPageRun : list event :=
  [Call; Call; Call; Call;
   Settle (Normal []); Settle (Normal []); Settle (Normal []); Settle (Normal [])].

End CacheDefs.


(** ** Notions used in the further statements *)

Module SimpleDefs.
Import TextDefs.

(** A paragraph of plain text: not empty, no blank line, no newline at
    either end, and neither [*] nor [[]. *)
Definition plainParagraph (p : jsstring) : Prop :=
  p <> [] /\ blankFree p = true /\ starts10 p = false /\ ends10 p = false /\
  ~ In 42 p /\ ~ In 91 p.

(** A text of paragraphs: the first one, and the others each behind a run
    of two newlines and [extra] more. *)
Definition paragraphs (first : jsstring) (others : list (nat * jsstring)) : jsstring :=
  first ++ concat (List.map (fun '(extra, p) => repeat 10 (S (S extra)) ++ p) others).

End SimpleDefs.

Module SiteDefs.
Import Site.

(** An element with its text content set. *)
Definition textOf (text : jsstring) (n : node) : node :=
  withChildren n (match text with [] => [] | _ :: _ => [Text text] end).

(** The page after [if (element && value) element.textContent = value]. *)
Definition withText (entry : string * option jsstring) (m : gmap string node)
  : gmap string node :=
  if truthy (snd entry) then alter (textOf (show (snd entry))) (fst entry) m else m.

(** The elements that [loadSiteMetadata] fills and the values it reads for
    them. *)
Definition siteFields (config : SiteConfig) : list (string * option jsstring) :=
  [ ("site-name", site config ≫= name);
    ("page-title", site config ≫= page_title);
    ("nationality-flags", site config ≫= nationality_flags);
    ("role-title", (site config ≫= role) ≫= role_title);
    ("role-affiliation", (site config ≫= role) ≫= affiliation);
    ("footer-name", site config ≫= footer_name) ]%string.

(** Those of [loadBlogSiteMetadata]. *)
Definition blogSiteFields (config : SiteConfig) : list (string * option jsstring) :=
  [ ("site-name", site config ≫= name);
    ("footer-name", site config ≫= footer_name) ]%string.

(** The page after [if (element && title) element.innerHTML = title]. *)
Definition withHTML `{Host} (entry : string * option jsstring) (m : gmap string node)
  : gmap string node :=
  if truthy (snd entry)
  then alter (fun n => withChildren n (parseHTML (show (snd entry)))) (fst entry) m
  else m.

(** The license link with its target and its text set. *)
Definition licensed (footer : option Footer) (n : node) : node :=
  textOf (show (footer ≫= license_text))
    (setProp n "href" (show (orElse (footer ≫= license_url) (Some (js "#"))))).

Definition withLicense (footer : option Footer) (m : gmap string node)
  : gmap string node :=
  if truthy (footer ≫= license_text)
  then alter (licensed footer) "footer-license"%string m
  else m.

(** The children of the navigation bar once it is rebuilt: the links,
    and the theme button if the bar had one. *)
Definition navChildren `{Host} (nav : node) (items : list NavItem) : list node :=
  List.map navLink items ++ option_list (querySelectorId (js "theme-toggle") nav).

Definition withNav `{Host} (navigation : option (list NavItem)) (m : gmap string node)
  : gmap string node :=
  match m !! "nav-links"%string, navigation with
  | Some nav, Some items => <["nav-links"%string := withChildren nav (navChildren nav items)]> m
  | _, _ => m
  end.

(** The elements of the footer that both layout loaders fill. *)
Definition footerIds : list string := ["footer-year"; "footer-tagline"; "footer-license"]%string.

End SiteDefs.

Module SiteSamples.
Import Site TimelineDefs.

(** A configuration with a name, a role without affiliation, a footer
    without license, and two navigation entries. *)
Definition sampleConfig : SiteConfig :=
  {| site := Some {| name := Some (js "Fabio"); page_title := None;
                     nationality_flags := Some [];
                     role := Some {| role_title := Some (js "Researcher");
                                     affiliation := None |};
                     footer_name := Some (js "F. Fehr"); profile := None |};
     layout := Some {| header := Some {| navigation :=
                                   Some [ {| nav_href := Some (js "#blog");
                                             nav_label := Some (js "Blog") |};
                                          {| nav_href := Some (js "#media");
                                             nav_label := Some (js "Media") |} ] |};
                       sections := None;
                       footer := Some {| tagline := Some (js "Built by hand");
                                         year := Some (js "2025");
                                         license_text := None;
                                         license_url := None |} |} |}.

(** The theme button of the navigation bar. *)
Definition themeButton : node :=
  Elem "BUTTON" {["id"%string := js "theme-toggle"]} [Text (js "moon")].

(** A page with a header, a navigation bar and a footer. *)
Definition homePage : world :=
  {| doc :=
       <["site-name"%string := Elem "SPAN" ∅ [Text (js "Name")]]>
         (<["nav-links"%string :=
              Elem "NAV" ∅ [Elem "A" ∅ [Text (js "Home")]; themeButton]]>
            (<["footer-year"%string := Elem "SPAN" ∅ []]>
               (<["role-affiliation"%string := Elem "SPAN" ∅ [Text (js "Somewhere")]]> ∅)));
     console := [] |}.

End SiteSamples.

Module ThemeDefs.
Import Theme.

(** The theme that [initializeThemeToggle] applies. *)
Definition startTheme (b : browser) : jsstring :=
  if decide (orElse (localStorage b !! "theme"%string)
               (Some (if prefersDark b then js "dark" else js "light"))
             = Some (js "dark"))
  then js "dark" else js "light".

Definition otherTheme (theme : jsstring) : jsstring :=
  if decide (theme = js "dark") then js "light" else js "dark".

Definition iconOf (theme : jsstring) : jsstring :=
  if decide (theme = js "dark") then sun else moon.

(** The theme after [n] clicks. *)
Definition themeAfter (n : nat) (start : jsstring) : jsstring :=
  if Nat.even n then start else otherTheme start.

(** The next visit of a page with the same local storage. *)
Definition revisit (w : world) (prefers : bool) (b : browser) : browser :=
  {| page := w; dataTheme := None; localStorage := localStorage b;
     prefersDark := prefers; clickListeners := 0 |}.

(** A page with the button, visited for the first time by a browser that
    prefers the dark scheme. *)
Definition firstVisit : browser :=
  {| page := {| doc := {["theme-toggle"%string := Elem "BUTTON" ∅ []]}; console := [] |};
     dataTheme := None; localStorage := ∅; prefersDark := true; clickListeners := 0 |}.

End ThemeDefs.

Module BlogDefs.
Import Site SiteDefs Loaders Toc BlogPost.

(** The page after the title, the page title and the date of a post are
    written. *)
Definition withHeader `{Host} (blog : BlogEntry) (m : gmap string node) : gmap string node :=
  alter (textOf (formatDate (post_date blog))) "blog-date"%string
    (alter (textOf (default [] (post_title blog))) "page-title"%string
       (alter (textOf (default [] (post_title blog))) "blog-title"%string m)).

(** The body of the post with the given markup and the image paths fixed. *)
Definition rendered `{Host} (body : node) (markup : jsstring) : node :=
  withChildren body (List.map fixImages (parseHTML markup)).

(** A parser of markup for examples: elements with quoted attributes,
    text, and the void elements; a closing tag closes the innermost open
    element when it has that name, and what is open at the end is closed
    there. *)
Inductive token :=
| TChars (data : jsstring)
| TOpen (tag : string) (attributes : gmap string jsstring)
| TClose (tag : string).

Definition asciiName (s : jsstring) : string :=
  string_of_list_ascii (List.map ascii_of_N s).

Definition upperName (s : jsstring) : string :=
  asciiName (List.map (fun c => if (97 <=? c) && (c <=? 122) then c - 32 else c) s).

(** The property that holds the value of an attribute. *)
Definition propertyOf (name : jsstring) : string :=
  if decide (name = js "class") then "className"%string else asciiName name.

Fixpoint takeWhile (p : char -> bool) (s : jsstring) : jsstring :=
  match s with
  | c :: s' => if p c then c :: takeWhile p s' else []
  | [] => []
  end.

Fixpoint dropWhile (p : char -> bool) (s : jsstring) : jsstring :=
  match s with
  | c :: s' => if p c then dropWhile p s' else s
  | [] => []
  end.

Definition inName (c : char) : bool :=
  negb (Scroll.isAsciiWhitespace c || (c =? 62) || (c =? 61) || (c =? 47)).

Fixpoint attributesOf (fuel : nat) (s : jsstring) : gmap string jsstring :=
  match fuel with
  | O => ∅
  | S fuel =>
      match dropWhile (fun c => negb (inName c)) s with
      | [] => ∅
      | c :: s' =>
          let name := takeWhile inName (c :: s') in
          match dropWhile inName (c :: s') with
          | 61 :: 34 :: rest =>
              <[propertyOf name := takeWhile (fun c => negb (c =? 34)) rest]>
                (attributesOf fuel (skipn 1 (dropWhile (fun c => negb (c =? 34)) rest)))
          | rest => <[propertyOf name := []]> (attributesOf fuel rest)
          end
      end
  end.

Fixpoint tokensOf (fuel : nat) (s : jsstring) : list token :=
  match fuel with
  | O => []
  | S fuel =>
      match s with
      | [] => []
      | 60 :: 47 :: s' =>
          TClose (upperName (takeWhile inName s'))
          :: tokensOf fuel (skipn 1 (dropWhile (fun c => negb (c =? 62)) s'))
      | 60 :: s' =>
          let inTag := takeWhile (fun c => negb (c =? 62)) s' in
          TOpen (upperName (takeWhile inName inTag))
            (attributesOf (length inTag) (dropWhile inName inTag))
          :: tokensOf fuel (skipn 1 (dropWhile (fun c => negb (c =? 62)) s'))
      | _ =>
          TChars (takeWhile (fun c => negb (c =? 60)) s)
          :: tokensOf fuel (dropWhile (fun c => negb (c =? 60)) s)
      end
  end.

Definition isVoid (tag : string) : bool :=
  bool_decide (tag ∈ ["IMG"; "BR"; "HR"; "INPUT"; "META"; "LINK"]%string).

(** The open elements, innermost first, each with its children so far,
    latest first. *)
Definition frame : Type := string * gmap string jsstring * list node.

Definition addChild (n : node) (stack : list frame) (top : list node)
  : list frame * list node :=
  match stack with
  | (t, p, cs) :: stack' => ((t, p, n :: cs) :: stack', top)
  | [] => ([], n :: top)
  end.

Definition closeAll (stack : list frame) (top : list node) : list node :=
  match fold_left
          (fun (inner : option node) '(t, p, cs) =>
             Some (Elem t p (rev (match inner with Some n => n :: cs | None => cs end))))
          stack None with
  | Some n => rev (n :: top)
  | None => rev top
  end.

Fixpoint build (ts : list token) (stack : list frame) (top : list node) : list node :=
  match ts with
  | [] => closeAll stack top
  | TChars d :: ts' =>
      let '(stack', top') := addChild (Text d) stack top in build ts' stack' top'
  | TOpen t p :: ts' =>
      if isVoid t then
        let '(stack', top') := addChild (Elem t p []) stack top in build ts' stack' top'
      else build ts' ((t, p, []) :: stack) top
  | TClose t :: ts' =>
      match stack with
      | (t', p, cs) :: stack' =>
          if String.eqb t t' then
            let '(stack'', top') := addChild (Elem t' p (rev cs)) stack' top in
            build ts' stack'' top'
          else build ts' stack top
      | [] => build ts' stack top
      end
  end.

Definition parseFragment (markup : jsstring) : list node :=
  build (tokensOf (length markup) markup) [] [].

(** A host for examples that parses markup. *)
Definition pageHost : Host :=
  {| parseDateOther := fun _ => None;
     LocalTZA := fun _ => 0%Z;
     dateToString := zToString;
     toLocaleDateString := showNum;
     lowerOther := fun c => [c];
     parseHTML := parseFragment;
     serialize := TimelineDefs.flatText;
     parseHTML_empty := eq_refl |}.

(** A post with a content file, and a server that has this file only: a
    heading, and a figure with an image. *)
Definition samplePost : BlogEntry :=
  {| post_id := Some (js "berlin"); post_title := Some (js "Berlin");
     post_date := Some (js "2025"); content_file := Some (js "berlin.json");
     markdown_file := None |}.

Definition sampleContent : jsstring :=
  js "## Wall" ++ nl ++ nl ++ js "<figure><img src=" ++ dq ++ js "images/wall.jpeg" ++ dq
  ++ js "></figure>".

Definition sampleJson (url : jsstring) : completion (option jsstring) :=
  if decide (url = js "berlin.json") then Normal (Some sampleContent)
  else Throw (js "TypeError").

Definition noText (url : jsstring) : completion jsstring := Throw (js "TypeError").

(** A post page with a body, a title and an outline. *)
Definition postPage : world :=
  {| doc := <["blog-body"%string := Elem "DIV" ∅ []]>
              (<["blog-title"%string := Elem "H1" ∅ []]>
                 (<["toc-list"%string := Elem "UL" ∅ []]> ∅));
     console := [] |}.

(** An image with a relative path inside a figure. *)
Definition sampleFigure : node :=
  Elem "FIGURE" ∅ [Elem "IMG" {["src"%string := js "images/berlin/wall.jpeg"]} []].

End BlogDefs.

Module LoaderDefs.
Import Timeline Loaders.

(** An entry of [timeline.json] as the entry of [timeline.yaml] with the
    same values. *)
Definition toYaml (item : TimelineJs.TimelineItem) : TimelineItem :=
  {| start_date := TimelineJs.startDate item;
     end_date := TimelineJs.endDate item;
     description := TimelineJs.description item;
     url := TimelineJs.url item;
     logo := TimelineJs.logo item;
     organization := TimelineJs.organization item |}.

(** The fields whose absence makes the rendering of an item throw. *)
Definition mediaComplete (item : MediaItem) : Prop :=
  is_Some (media_title item) /\ is_Some (media_description item).

Definition hasAuthors (pub : Publication) : Prop := is_Some (authors pub).

(** [cards] are the cards that the items render to. *)
Definition rendersTo {A} (card : A -> Js jsstring) (items : list A) (cards : list jsstring)
  : Prop :=
  Forall2 (fun item markup => forall w, card item w = (Normal markup, w)) items cards.

(** A media item, complete or without its title. *)
Definition clip (title : option jsstring) : MediaItem :=
  {| video_id := Some (js "abc"); timestamp := None; media_title := title;
     media_description := Some (js "A talk") |}.

(** A publication, with or without its authors. *)
Definition article (names : option jsstring) : Publication :=
  {| pub_title := Some (js "A study"); authors := names; venue := None; conference := None;
     paper := None; link := None; code := None; poster := None; slides := None;
     video := None; demo := None; image := None |}.

(** A page that has only the list of publications. *)
Definition publicationsOnly : world :=
  {| doc := {["publications-list"%string := Elem "DIV" ∅ []]}; console := [] |}.

(** A page that has only the media list. *)
Definition mediaOnly : world :=
  {| doc := {["media-list"%string := Elem "DIV" ∅ [Text (js "old")]]}; console := [] |}.

(** A page that has only the social links, with one link already. *)
Definition socialsOnly : world :=
  {| doc := {["profile-socials"%string := Elem "DIV" ∅ [Text (js "old")]]}; console := [] |}.

Definition mail : Contact :=
  {| contact_url := Some (js "mailto:a@b.c"); contact_name := Some (js "Mail");
     icon := Some (js "@"); is_image := false |}.

End LoaderDefs.

Module ScrollDefs.
Import Toc TocDefs Scroll.

(** The [a] elements of a subtree in document order. *)
Fixpoint anchorsOf (n : node) : list node :=
  match n with
  | Text _ => []
  | Elem t _ cs => (if String.eqb t "A" then [n] else []) ++ flat_map anchorsOf cs
  end.

(** [root.querySelectorAll('a')] *)
Definition anchors (root : node) : list node := flat_map anchorsOf (childrenOf root).

(** The link is highlighted. *)
Definition isActive (link : node) : bool := bool_decide (js "active" ∈ classList link).

(** The top edge of the heading is at most 100 pixels below the top of the
    viewport. *)
Definition passed (heading : jsstring * QArith_base.Q) : bool :=
  QArith_base.Qle_bool (snd heading) (QArith_base.inject_Z 100).

(** A token of a class list: not empty and without ASCII whitespace. *)
Definition isToken (t : jsstring) : Prop :=
  t <> [] /\ Forall (fun c => isAsciiWhitespace c = false) t.

(** A page whose outline has two entries, the second one highlighted, and
    the headings of its body with the first one above the line and the
    second one below. *)
Definition sampleOutline : node :=
  Elem "UL" ∅
    [ Elem "LI" ∅ [Elem "A" {["href"%string := js "#section-0"]} [Text (js "Intro")]];
      Elem "LI" ∅
        [Elem "A" (<["className"%string := js "active"]> {["href"%string := js "#section-1"]})
           [Text (js "First")]] ].

Definition outlinePage : world :=
  {| doc := {["toc-list"%string := sampleOutline]}; console := [] |}.

Definition sampleHeadings : list (jsstring * QArith_base.Q) :=
  [ (js "section-0", QArith_base.inject_Z 20);
    (js "section-1", QArith_base.inject_Z 300) ].

End ScrollDefs.

Module RetryDefs.
Import Loaders ConfigCache.

(** The number of calls of [loadConfig] in a run. *)
Definition calls (events : list event) : nat :=
  length (List.filter (fun e => match e with Call => true | Settle _ => false end) events).

Section Parser.
Variable yamlLoad : jsstring -> completion loaded.




End Parser.


End RetryDefs.

Module HeadingDefs.
Import TextDefs.

(** A text without line terminator. *)
Definition oneLine (t : jsstring) : Prop := Forall (fun c => isLineTerminator c = false) t.

(** A heading line of Markdown: [level] times [#], a space, the text. *)
Definition headingLine (level : nat) (t : jsstring) : jsstring := repeat 35 level ++ 32 :: t.

(** The heading element of the given level. *)
Definition headingElement (level : nat) (t : jsstring) : jsstring :=
  js "<h" ++ natToString level ++ js ">" ++ t ++ js "</h" ++ natToString level ++ js ">".

(** The decision procedure for [closesAtEnd]. *)
Fixpoint closesAtEndb (fm : jsstring) : bool :=
  match fm with
  | [] => true
  | _ :: fm' =>
      negb (startsWith (fm ++ js "---" ++ nl) (js "---" ++ nl)) && closesAtEndb fm'
  end.

End HeadingDefs.

Module DescriptionDefs.
Import Timeline.

(** What the pattern [\n\n] with the global flag makes of a run of
    newlines: one break for every two, and the odd one left. *)
Definition breaks (run : nat) : jsstring :=
  concat (repeat paragraph_tmpl (run / 2)) ++ repeat 10 (run mod 2).

(** A timeline entry with a description only. *)
Definition described (text : jsstring) : TimelineItem :=
  {| start_date := VStr (js "2024"); end_date := VUndefined; description := VStr text;
     url := VUndefined; logo := VUndefined; organization := VUndefined |}.

End DescriptionDefs.

(** ** Properties of the matcher *)

Module MatcherFacts.
Import MatcherDefs.

Lemma advances_refl st : advances st st.
Proof. exists []. split; reflexivity. Qed.

Lemma advances_trans st1 st2 st3 :
  advances st1 st2 -> advances st2 st3 -> advances st1 st3.
Proof.
  intros [m1 [H1 H1']] [m2 [H2 H2']]. exists (m1 ++ m2). split.
  - rewrite H1, H2, app_assoc. reflexivity.
  - rewrite H2', H1', rev_app_distr, app_assoc. reflexivity.
Qed.

Lemma advances_step st c s :
  rest st = c :: s -> advances st (step st c s).
Proof. intros H. exists [c]. split; simpl; [exact H | reflexivity]. Qed.

Lemma advances_whole st st' : advances st st' -> whole st' = whole st.
Proof.
  intros [m [H1 H2]]. unfold whole. rewrite H1, H2, rev_app_distr, rev_involutive.
  rewrite <- app_assoc. reflexivity.
Qed.

Lemma advances_consumed st st' m :
  rest st = m ++ rest st' -> consumed st st' = m.
Proof.
  intros H. unfold consumed. rewrite H, length_app.
  replace (length m + length (rest st') - length (rest st'))%nat with (length m) by lia.
  rewrite firstn_app, firstn_all, Nat.sub_diag. simpl. apply app_nil_r.
Qed.

Lemma consumed_infix st st' : infix (consumed st st') (whole st).
Proof.
  unfold consumed, whole.
  exists (rev (pre st)), (skipn (length (rest st) - length (rest st')) (rest st)).
  rewrite firstn_skipn. reflexivity.
Qed.

Lemma caps_in_set w i v cs :
  infix v w -> caps_in w cs -> caps_in w (<[i := Some v]> cs).
Proof.
  intros Hv Hcs. unfold caps_in in *. apply Forall_insert; assumption.
Qed.

Lemma reached_refl st : reached st st.
Proof. split; [apply advances_refl | split; [reflexivity | tauto]]. Qed.

Lemma reached_trans st1 st2 st3 :
  reached st1 st2 -> reached st2 st3 -> reached st1 st3.
Proof.
  intros (A1 & L1 & C1) (A2 & L2 & C2). split; [| split].
  - eapply advances_trans; eassumption.
  - congruence.
  - intros H. rewrite (advances_whole _ _ A1) in C2. auto.
Qed.

Lemma reached_step st c s : rest st = c :: s -> reached st (step st c s).
Proof.
  intros H. split; [apply advances_step, H | split; [reflexivity | tauto]].
Qed.

Lemma star_greedy_sound p s : forall st k res,
  rest st = s -> star_greedy p st s k = Some res ->
  exists st', reached st st' /\ k st' = Some res.
Proof.
  induction s as [|c s IH]; intros st k res Hs H; simpl in H.
  - exists st. split; [apply reached_refl | exact H].
  - destruct (p c).
    + destruct (star_greedy p (step st c s) s k) eqn:E.
      * inversion H; subst. apply IH in E; [| reflexivity].
        destruct E as (st' & R & K). exists st'. split; [| exact K].
        eapply reached_trans; [apply reached_step, Hs | exact R].
      * exists st. split; [apply reached_refl | exact H].
    + exists st. split; [apply reached_refl | exact H].
Qed.

Lemma star_lazy_sound p s : forall st k res,
  rest st = s -> star_lazy p st s k = Some res ->
  exists st', reached st st' /\ k st' = Some res.
Proof.
  induction s as [|c s IH]; intros st k res Hs H; simpl in H.
  - destruct (k st) eqn:E; [| discriminate].
    exists st. split; [apply reached_refl | congruence].
  - destruct (k st) eqn:E.
    + exists st. split; [apply reached_refl | congruence].
    + destruct (p c); [| discriminate].
      apply IH in H; [| reflexivity].
      destruct H as (st' & R & K). exists st'. split; [| exact K].
      eapply reached_trans; [apply reached_step, Hs | exact R].
Qed.

Lemma star_sound g p st k res :
  star g p st k = Some res -> exists st', reached st st' /\ k st' = Some res.
Proof.
  unfold star. destruct g; [apply star_greedy_sound | apply star_lazy_sound]; reflexivity.
Qed.

(** Every success of the matcher passes through a state that the
    continuation accepts and that lies behind the start in the same input,
    with captures taken from that input. *)
Lemma rmatch_sound f r : forall st k res,
  rmatch f r st k = Some res ->
  exists st', reached st st' /\ k st' = Some res.
Proof.
  induction r as [| cs | | | | g cs | g cs | i r IH | r1 IH1 r2 IH2];
    intros st k res H; simpl in H.
  - exists st. split; [apply reached_refl | exact H].
  - destruct (rest st) as [|c s] eqn:E; [discriminate |].
    destruct (cset_match f cs c); [| discriminate].
    exists (step st c s). split; [apply reached_step, E | exact H].
  - destruct (at_bol f st); [| discriminate].
    exists st. split; [apply reached_refl | exact H].
  - destruct (at_eol f st); [| discriminate].
    exists st. split; [apply reached_refl | exact H].
  - destruct (at_wordb st); [| discriminate].
    exists st. split; [apply reached_refl | exact H].
  - apply star_sound in H. exact H.
  - destruct (rest st) as [|c s] eqn:E; [discriminate |].
    destruct (cset_match f cs c); [| discriminate].
    apply star_sound in H. destruct H as (st' & R & K).
    exists st'. split; [| exact K].
    eapply reached_trans; [apply reached_step, E | exact R].
  - apply IH in H. destruct H as (st' & (A & L & C) & K).
    exists (set_cap i (consumed st st') st'). split; [| exact K].
    split; [| split].
    + destruct A as (m & A1 & A2). exists m. simpl. split; assumption.
    + simpl. rewrite length_insert. exact L.
    + intros Hc. simpl. apply caps_in_set; [apply consumed_infix | auto].
  - apply IH1 in H. destruct H as (st1 & R1 & K1).
    apply IH2 in K1. destruct K1 as (st2 & R2 & K2).
    exists st2. split; [eapply reached_trans; eassumption | exact K2].
Qed.

Lemma caps_in_repeat w n : caps_in w (repeat None n).
Proof. unfold caps_in. induction n; simpl; constructor; auto. Qed.

(** A match at a position: the matched text is a prefix of the input from
    there, and the captures are as many as the groups and come from the
    input. *)
Lemma exec_at_sound re before s m cs :
  exec_at re before s = Some (m, cs) ->
  (exists s', s = m ++ s') /\
  length cs = ngroups re /\
  caps_in (rev before ++ s) cs.
Proof.
  unfold exec_at. intros H.
  destruct (rmatch _ _ _ _) as [st1|] eqn:E; [| discriminate].
  inversion H; subst; clear H.
  apply rmatch_sound in E. destruct E as (st' & (A & L & C) & K).
  inversion K; subst; clear K. split; [| split].
  - destruct A as (m & A1 & A2). simpl in A1.
    exists (rest st1). rewrite (advances_consumed _ _ m); [exact A1 | exact A1].
  - rewrite L. simpl. apply repeat_length.
  - apply C. simpl. apply caps_in_repeat.
Qed.

Lemma advance_step st c t s s0 :
  advance (step st c s0) t s = advance st (c :: t) s.
Proof. unfold advance, step. simpl. rewrite <- app_assoc. reflexivity. Qed.

Lemma advance_nil st : advance st [] (rest st) = st.
Proof. destruct st. reflexivity. Qed.

(** A greedy repetition over a run [t] that the atom accepts, followed by a
    code unit it rejects (or by the end), hands the state behind the run to
    the continuation first. *)
Lemma star_greedy_run p t : forall st s k,
  rest st = t ++ s ->
  Forall (fun c => p c = true) t ->
  match s with c :: _ => p c = false | [] => True end ->
  is_Some (k (advance st t s)) ->
  star_greedy p st (t ++ s) k = k (advance st t s).
Proof.
  induction t as [|c t IH]; intros st s k Hr Ht Hs Hk.
  - simpl in *. rewrite <- Hr, advance_nil in *.
    destruct (rest st) as [|d s']; simpl; [reflexivity |].
    subst s. rewrite Hs. reflexivity.
  - inversion Ht as [|? ? Hc Ht']; subst. simpl. rewrite Hc.
    rewrite <- advance_step with (s0 := t ++ s) in Hk |- *.
    rewrite IH; try assumption; try reflexivity.
    destruct Hk as [r Hk]. rewrite Hk. reflexivity.
Qed.

Lemma plus_greedy_run f cs t st s k :
  t <> [] ->
  rest st = t ++ s ->
  Forall (fun c => cset_match f cs c = true) t ->
  match s with c :: _ => cset_match f cs c = false | [] => True end ->
  is_Some (k (advance st t s)) ->
  rmatch f (Plus true cs) st k = k (advance st t s).
Proof.
  intros Hne Hr Ht Hs Hk. destruct t as [|c t]; [congruence |].
  simpl. rewrite Hr. simpl. inversion Ht as [|? ? Hc Ht']; subst. rewrite Hc.
  unfold star. simpl.
  rewrite <- advance_step with (s0 := t ++ s) in Hk |- *.
  apply star_greedy_run; try assumption. reflexivity.
Qed.

Lemma noneOf_run f x t :
  ignoreCase f = false -> ~ In x t ->
  Forall (fun c => cset_match f (CClass true [IChar x]) c = true) t.
Proof.
  intros Hf Hin. apply List.Forall_forall. intros c Hc. simpl.
  unfold canonicalize. rewrite Hf.
  destruct (N.eqb_spec x c); [subst; contradiction | reflexivity].
Qed.

Lemma rmatch_Seq f r1 r2 st k :
  rmatch f (Seq r1 r2) st k = rmatch f r1 st (fun st' => rmatch f r2 st' k).
Proof. reflexivity. Qed.

Lemma rmatch_Group f i r st k :
  rmatch f (Group i r) st k
  = rmatch f r st (fun st' => k (set_cap i (consumed st st') st')).
Proof. reflexivity. Qed.

Lemma rmatch_Chr f a p c s cs k :
  canonicalize f a = canonicalize f c ->
  rmatch f (Chr (CChar a)) {| pre := p; rest := c :: s; caps := cs |} k
  = k {| pre := c :: p; rest := s; caps := cs |}.
Proof. intros H. simpl. rewrite H, N.eqb_refl. reflexivity. Qed.

Lemma consumed_advance st t s :
  rest st = t ++ s -> consumed st (advance st t s) = t.
Proof. intros H. apply advances_consumed. exact H. Qed.

End MatcherFacts.

(** ** Properties of replace and split *)

Module ReplaceFacts.
Import MatcherDefs MatcherFacts.

Lemma replace_loop_skip re tmpl m : forall before s,
  replace_loop re tmpl before (length m) (m ++ s)
  = replace_loop re tmpl (rev m ++ before) 0 s.
Proof.
  induction m as [|c m IH]; intros before s; simpl.
  - destruct s; reflexivity.
  - rewrite IH, <- app_assoc. reflexivity.
Qed.

(** A non-empty match at the position is replaced and the loop goes on
    behind it. *)
Lemma replace_loop_match re tmpl before m s cs :
  m <> [] ->
  exec_at re before (m ++ s) = Some (m, cs) ->
  replace_loop re tmpl before 0 (m ++ s)
  = GetSubstitution m before s cs tmpl ++ replace_loop re tmpl (rev m ++ before) 0 s.
Proof.
  intros Hm H. destruct m as [|c m]; [congruence |].
  change (replace_loop re tmpl before 0 ((c :: m) ++ s)) with
    (match exec_at re before ((c :: m) ++ s) with
     | Some (m0, cs0) =>
         GetSubstitution m0 before (skipn (length m0) ((c :: m) ++ s)) cs0 tmpl ++
         match length m0 with
         | O => c :: replace_loop re tmpl (c :: before) 0 (m ++ s)
         | S n => replace_loop re tmpl (c :: before) n (m ++ s)
         end
     | None => c :: replace_loop re tmpl (c :: before) 0 (m ++ s)
     end).
  rewrite H. rewrite drop_app_length. f_equal.
  cbn [length]. rewrite replace_loop_skip. simpl. rewrite <- app_assoc. reflexivity.
Qed.

Lemma replace_loop_pass re tmpl before c s :
  exec_at re before (c :: s) = None ->
  replace_loop re tmpl before 0 (c :: s) = c :: replace_loop re tmpl (c :: before) 0 s.
Proof. intros H. simpl. rewrite H. reflexivity. Qed.

Lemma replace_loop_nil re tmpl before :
  exec_at re before [] = None -> replace_loop re tmpl before 0 [] = [].
Proof. intros H. simpl. rewrite H. reflexivity. Qed.

(** Where the pattern matches nowhere, the text is returned as it is. *)
Lemma replace_loop_id re tmpl : forall s before,
  test_from re before s = false -> replace_loop re tmpl before 0 s = s.
Proof.
  induction s as [|c s IH]; intros before H; simpl in H.
  - destruct (exec_at re before []) eqn:E; [discriminate |].
    apply replace_loop_nil, E.
  - destruct (exec_at re before (c :: s)) eqn:E; [discriminate |].
    rewrite replace_loop_pass by exact E. rewrite IH by exact H. reflexivity.
Qed.

Lemma replace_first_id re tmpl : forall s before,
  test_from re before s = false -> replace_first re tmpl before s = s.
Proof.
  induction s as [|c s IH]; intros before H; simpl in *.
  - destruct (exec_at re before []); [discriminate | reflexivity].
  - destruct (exec_at re before (c :: s)); [discriminate |].
    rewrite IH by exact H. reflexivity.
Qed.

Lemma replace_id re tmpl s : test re s = false -> replace re tmpl s = s.
Proof.
  intros H. unfold replace.
  destruct (global (fl re)); [apply replace_loop_id | apply replace_first_id]; exact H.
Qed.

(** A pattern that fails wherever the code unit at the position is not
    [c0] matches nowhere in a text without [c0]. *)
Lemma test_from_absent re c0 :
  (forall before s, head s <> Some c0 -> exec_at re before s = None) ->
  forall s before, ~ In c0 s -> test_from re before s = false.
Proof.
  intros Hre. induction s as [|c s IH]; intros before Hin; simpl.
  - rewrite Hre; [reflexivity | discriminate].
  - rewrite Hre.
    + apply IH. intros H. apply Hin. right. exact H.
    + simpl. intros H. inversion H; subst. apply Hin. left. reflexivity.
Qed.

(** Code units that cannot start a match are copied. *)
Lemma replace_loop_prefix re tmpl c0 :
  (forall before s, head s <> Some c0 -> exec_at re before s = None) ->
  forall p before s, ~ In c0 p ->
  replace_loop re tmpl before 0 (p ++ s) = p ++ replace_loop re tmpl (rev p ++ before) 0 s.
Proof.
  intros Hre. induction p as [|c p IH]; intros before s Hin.
  - reflexivity.
  - simpl app. rewrite replace_loop_pass.
    + rewrite IH; [| intros ?; apply Hin; right; assumption].
      simpl. rewrite <- app_assoc. reflexivity.
    + apply Hre. simpl. intros E. inversion E. apply Hin. left. congruence.
Qed.

Lemma test_from_prefix re c0 :
  (forall before s, head s <> Some c0 -> exec_at re before s = None) ->
  forall p before s, ~ In c0 p ->
  test_from re before (p ++ s) = test_from re (rev p ++ before) s.
Proof.
  intros Hre. induction p as [|c p IH]; intros before s Hin.
  - reflexivity.
  - simpl app. simpl test_from. rewrite Hre.
    + rewrite IH; [| intros ?; apply Hin; right; assumption].
      simpl. rewrite <- app_assoc. reflexivity.
    + simpl. intros E. inversion E. apply Hin. left. congruence.
Qed.

(** The replacement texts of the source, expanded. *)
Lemma subst_strong m b a c :
  GetSubstitution m b a [c] strong_tmpl = js "<strong>" ++ default [] c ++ js "</strong>".
Proof. reflexivity. Qed.

Lemma subst_em m b a c :
  GetSubstitution m b a [c] em_tmpl = js "<em>" ++ default [] c ++ js "</em>".
Proof. reflexivity. Qed.

Lemma subst_link m b a c d :
  GetSubstitution m b a [c; d] link_tmpl
  = js "<a href=" ++ dq ++ default [] d ++ dq ++ js " target=" ++ dq ++ js "_blank" ++ dq
    ++ js ">" ++ default [] c ++ js "</a>".
Proof. reflexivity. Qed.

End ReplaceFacts.

(** ** Blank lines *)

Module BlankFacts.
Import MatcherDefs MatcherFacts ReplaceFacts TextDefs.

Lemma starts10_app a b : starts10 (a ++ b) = match a with [] => starts10 b | _ => starts10 a end.
Proof. destruct a; reflexivity. Qed.

Lemma ends10_cons c a : ends10 (c :: a) = match a with [] => c =? 10 | _ => ends10 a end.
Proof.
  unfold ends10. simpl. destruct a as [|d a]; [reflexivity |].
  rewrite starts10_app. destruct (rev (d :: a)) eqn:E; [| reflexivity].
  apply (f_equal (@length _)) in E. rewrite length_rev in E. discriminate.
Qed.

Lemma blankFree_app a b :
  blankFree (a ++ b) = blankFree a && blankFree b && negb (ends10 a && starts10 b).
Proof.
  induction a as [|c a IH]; simpl.
  - unfold ends10. simpl. rewrite andb_true_r. reflexivity.
  - rewrite IH, starts10_app, ends10_cons. destruct a as [|d a]; simpl.
    + unfold ends10; simpl. destruct (c =? 10), (starts10 b), (blankFree b); reflexivity.
    + destruct ((c =? 10) && (d =? 10)); simpl; [reflexivity |].
      reflexivity.
Qed.

Lemma blankFree_spec s : blankFree s = true <-> NoBlankLine s.
Proof.
  split.
  - intros H a b E. subst s. rewrite blankFree_app in H.
    change (blankFree (10 :: 10 :: b)) with false in H.
    rewrite andb_false_r in H. discriminate.
  - induction s as [|c s IH]; intros H; [reflexivity |]. simpl.
    apply andb_true_intro. split.
    + destruct (N.eqb_spec c 10); [| reflexivity]. subst.
      destruct s as [|d s]; [reflexivity |]. simpl.
      destruct (N.eqb_spec d 10); [| reflexivity]. subst.
      exfalso. apply (H [] s). reflexivity.
    + apply IH. intros a b E. apply (H (c :: a) b). rewrite E. reflexivity.
Qed.

Lemma blankFree_infix v w : infix v w -> blankFree w = true -> blankFree v = true.
Proof.
  intros (a & b & E) H. subst w. rewrite !blankFree_app in H.
  rewrite !andb_true_iff in H. tauto.
Qed.

Lemma blankFree_cons c s :
  blankFree (c :: s) = negb ((c =? 10) && starts10 s) && blankFree s.
Proof. reflexivity. Qed.

Lemma blankFree_tail c s : blankFree (c :: s) = true -> blankFree s = true.
Proof. simpl. rewrite andb_true_iff. tauto. Qed.

Lemma blankFree_skipn n s : blankFree s = true -> blankFree (skipn n s) = true.
Proof.
  intros H. apply (blankFree_infix _ s); [| exact H].
  exists (firstn n s), []. rewrite app_nil_r, firstn_skipn. reflexivity.
Qed.

Lemma caps_blankFree w cs :
  blankFree w = true -> caps_in w cs ->
  Forall (fun c => match c with Some v => blankFree v = true | None => True end) cs.
Proof.
  intros Hw H. unfold caps_in in H. eapply Forall_impl; [exact H |].
  intros [v|] Hv; [| exact I]. eapply blankFree_infix; eassumption.
Qed.

Lemma replace_loop_blankFree re tmpl :
  safe_tmpl (ngroups re) tmpl ->
  forall s before skip c,
    blankFree (rev before ++ s) = true ->
    blankFree (c :: skipn skip s) = true ->
    blankFree (c :: replace_loop re tmpl before skip s) = true.
Proof.
  intros Hsafe. induction s as [|c1 s IH]; intros before skip c HW Hc.
  - destruct skip; simpl replace_loop; [| simpl; rewrite andb_false_r; reflexivity].
    destruct (exec_at re before []) as [[m cs]|] eqn:E.
    + apply exec_at_sound in E. destruct E as (_ & L & C).
      destruct (Hsafe m before (skipn (length m) []) cs L (caps_blankFree _ _ HW C))
        as (Hne & Hs & He & Hb).
      rewrite app_nil_r. rewrite blankFree_cons, Hs, Hb, andb_false_r. reflexivity.
    + simpl. rewrite andb_false_r. reflexivity.
  - assert (HW' : blankFree (rev (c1 :: before) ++ s) = true).
    { simpl. rewrite <- app_assoc. exact HW. }
    assert (Hs1 : blankFree (c1 :: s) = true).
    { apply (blankFree_infix _ (rev before ++ c1 :: s)); [| exact HW].
      exists (rev before), []. rewrite app_nil_r. reflexivity. }
    destruct skip as [|n].
    + simpl skipn in Hc. simpl replace_loop.
      destruct (exec_at re before (c1 :: s)) as [[m cs]|] eqn:E.
      * apply exec_at_sound in E. destruct E as (_ & L & C).
        destruct (Hsafe m before (skipn (length m) (c1 :: s)) cs L (caps_blankFree _ _ HW C))
          as (Hne & Hs & He & Hb).
        set (o := GetSubstitution m before (skipn (length m) (c1 :: s)) cs tmpl) in *.
        assert (Ht : forall tail, blankFree tail = true -> blankFree (c :: o ++ tail) = true).
        { intros tail Htail. change (c :: o ++ tail) with ((c :: o) ++ tail).
          rewrite blankFree_app, Htail, blankFree_cons, Hs, Hb, ends10_cons.
          destruct o; [congruence |]. rewrite He, andb_false_r. reflexivity. }
        apply Ht. destruct (length m) as [|n].
        -- apply (IH _ 0%nat c1 HW'). exact Hs1.
        -- apply (blankFree_tail 0). apply (IH _ n 0 HW').
           rewrite blankFree_cons. simpl. apply blankFree_skipn.
           apply (blankFree_tail c1), Hs1.
      * rewrite blankFree_cons in Hc |- *. simpl starts10 in *.
        apply andb_true_iff in Hc. destruct Hc as [Hc1 Hc2].
        rewrite Hc1. simpl. apply (IH _ 0%nat c1 HW'). exact Hs1.
    + simpl. apply IH; [exact HW' | exact Hc].
Qed.

End BlankFacts.

(** ** First code unit of the patterns of the source *)

Module PatternFacts.
Import MatcherDefs MatcherFacts ReplaceFacts.

Ltac head_case s H :=
  unfold exec_at;
  destruct s as [|? ?]; [reflexivity |];
  cbn -[N.eqb star];
  match goal with
  | |- context [?a =? ?c] =>
      destruct (N.eqb_spec a c); [subst; exfalso; apply H; reflexivity | reflexivity]
  end.

Lemma link_head before s : head s <> Some 91 -> exec_at link_re before s = None.
Proof. intros H. head_case s H. Qed.

Lemma bold_head before s : head s <> Some 42 -> exec_at bold_re before s = None.
Proof. intros H. head_case s H. Qed.

Lemma italic_head before s : head s <> Some 42 -> exec_at italic_re before s = None.
Proof. intros H. head_case s H. Qed.

Lemma underscore_head before s : head s <> Some 95 -> exec_at underscore_re before s = None.
Proof. intros H. head_case s H. Qed.

Lemma blank_head before s : head s <> Some 10 -> exec_at blank_re before s = None.
Proof. intros H. head_case s H. Qed.

Ltac chr := repeat (rewrite rmatch_Seq); rewrite rmatch_Chr by reflexivity; cbv beta.

(** A delimited run: the pattern between two fixed delimiters takes the
    whole run when the run has no closing delimiter inside. *)
Ltac delimited t post Hne Hin :=
  rewrite rmatch_Seq, rmatch_Group;
  rewrite (plus_greedy_run g _ t _ post); try assumption; try reflexivity;
  [ rewrite consumed_advance by reflexivity; unfold advance, set_cap;
    cbn [pre rest caps]
  | apply noneOf_run; [reflexivity | assumption]
  | rewrite consumed_advance by reflexivity; unfold advance, set_cap;
    cbn [pre rest caps] ].

Lemma exec_bold t before post : t <> [] -> ~ In 42 t ->
  exec_at bold_re before (42 :: 42 :: t ++ 42 :: 42 :: post)
  = Some (42 :: 42 :: t ++ [42; 42], [Some t]).
Proof.
  intros Hne Hin. unfold exec_at.
  cbn [pattern fl ngroups bold_re cat repeat].
  do 2 chr. delimited t (42 :: 42 :: post) Hne Hin.
  - do 2 chr. f_equal. f_equal.
    apply advances_consumed. cbn. rewrite <- app_assoc. reflexivity.
  - do 2 chr. eexists. reflexivity.
Qed.

Lemma exec_underscore t before post : t <> [] -> ~ In 95 t ->
  exec_at underscore_re before (95 :: 95 :: t ++ 95 :: 95 :: post)
  = Some (95 :: 95 :: t ++ [95; 95], [Some t]).
Proof.
  intros Hne Hin. unfold exec_at.
  cbn [pattern fl ngroups underscore_re cat repeat].
  do 2 chr. delimited t (95 :: 95 :: post) Hne Hin.
  - do 2 chr. f_equal. f_equal.
    apply advances_consumed. cbn. rewrite <- app_assoc. reflexivity.
  - do 2 chr. eexists. reflexivity.
Qed.

Lemma exec_italic t before post : t <> [] -> ~ In 42 t ->
  exec_at italic_re before (42 :: t ++ 42 :: post)
  = Some (42 :: t ++ [42], [Some t]).
Proof.
  intros Hne Hin. unfold exec_at.
  cbn [pattern fl ngroups italic_re cat repeat].
  chr. delimited t (42 :: post) Hne Hin.
  - rewrite rmatch_Chr by reflexivity. f_equal. f_equal.
    apply advances_consumed. cbn. rewrite <- app_assoc. reflexivity.
  - rewrite rmatch_Chr by reflexivity. eexists. reflexivity.
Qed.

Lemma exec_link t u before post :
  t <> [] -> ~ In 93 t -> u <> [] -> ~ In 41 u ->
  exec_at link_re before (91 :: t ++ 93 :: 40 :: u ++ 41 :: post)
  = Some (91 :: t ++ 93 :: 40 :: u ++ [41], [Some t; Some u]).
Proof.
  intros Hne Hin Hne' Hin'. unfold exec_at.
  cbn [pattern fl ngroups link_re cat repeat].
  chr. delimited t (93 :: 40 :: u ++ 41 :: post) Hne Hin.
  - do 2 chr. delimited u (41 :: post) Hne' Hin'.
    + rewrite rmatch_Chr by reflexivity. f_equal. f_equal.
      apply advances_consumed. cbn. rewrite <- !app_assoc. cbn.
      rewrite <- app_assoc. reflexivity.
    + rewrite rmatch_Chr by reflexivity. eexists. reflexivity.
  - do 2 chr. delimited u (41 :: post) Hne' Hin'.
    + rewrite rmatch_Chr by reflexivity. eexists. reflexivity.
    + rewrite rmatch_Chr by reflexivity. eexists. reflexivity.
Qed.

End PatternFacts.

(** ** The block formatter *)

Module MarkdownFacts.
Import MatcherDefs MatcherFacts ReplaceFacts TextDefs BlankFacts PatternFacts.

Lemma ends10_app a b : b <> [] -> ends10 (a ++ b) = ends10 b.
Proof.
  intros Hb. unfold ends10. rewrite rev_app_distr, starts10_app.
  destruct (rev b) eqn:E; [| reflexivity].
  apply (f_equal (@length _)) in E. rewrite length_rev in E.
  destruct b; [congruence | discriminate].
Qed.

(** A capture between two literal pieces that do not touch it with a
    newline. *)
Lemma wrap_safe l r v :
  l <> [] -> r <> [] ->
  starts10 l = false -> ends10 l = false -> starts10 r = false -> ends10 r = false ->
  blankFree l = true -> blankFree r = true -> blankFree v = true ->
  let o := l ++ v ++ r in
  o <> [] /\ starts10 o = false /\ ends10 o = false /\ blankFree o = true.
Proof.
  intros Hl Hr Sl El Sr Er Bl Br Bv. cbn zeta. repeat split.
  - destruct l; [congruence | discriminate].
  - rewrite starts10_app. destruct l; [congruence | exact Sl].
  - rewrite !ends10_app; [exact Er | exact Hr |].
    destruct v, r; try discriminate; congruence.
  - rewrite !blankFree_app, Bl, Bv, Br, El, Sr, starts10_app. simpl.
    rewrite andb_false_r. reflexivity.
Qed.

Lemma default_blankFree (c : option jsstring) :
  match c with Some v => blankFree v = true | None => True end ->
  blankFree (default [] c) = true.
Proof. destruct c; simpl; auto. Qed.

Ltac one_cap cs L F :=
  destruct cs as [|c1 [|? ?]]; try discriminate L;
  inversion F as [|? ? F1 ?]; subst.

Lemma strong_safe : safe_tmpl 1 strong_tmpl.
Proof.
  intros m b a cs L F. one_cap cs L F. rewrite subst_strong.
  apply wrap_safe; try reflexivity; try discriminate. apply default_blankFree, F1.
Qed.

Lemma em_safe : safe_tmpl 1 em_tmpl.
Proof.
  intros m b a cs L F. one_cap cs L F. rewrite subst_em.
  apply wrap_safe; try reflexivity; try discriminate. apply default_blankFree, F1.
Qed.

Lemma h3_safe : safe_tmpl 1 (js "<h3>$1</h3>").
Proof.
  intros m b a cs L F. one_cap cs L F.
  change (GetSubstitution m b a [c1] _) with (js "<h3>" ++ default [] c1 ++ js "</h3>").
  apply wrap_safe; try reflexivity; try discriminate. apply default_blankFree, F1.
Qed.

Lemma h2_safe : safe_tmpl 1 (js "<h2>$1</h2>").
Proof.
  intros m b a cs L F. one_cap cs L F.
  change (GetSubstitution m b a [c1] _) with (js "<h2>" ++ default [] c1 ++ js "</h2>").
  apply wrap_safe; try reflexivity; try discriminate. apply default_blankFree, F1.
Qed.

Lemma h1_safe : safe_tmpl 1 (js "<h1>$1</h1>").
Proof.
  intros m b a cs L F. one_cap cs L F.
  change (GetSubstitution m b a [c1] _) with (js "<h1>" ++ default [] c1 ++ js "</h1>").
  apply wrap_safe; try reflexivity; try discriminate. apply default_blankFree, F1.
Qed.

Lemma link_safe : safe_tmpl 2 link_tmpl.
Proof.
  intros m b a cs L F.
  destruct cs as [|c1 [|c2 [|? ?]]]; try discriminate L.
  inversion F as [|? ? F1 F']; subst. inversion F' as [|? ? F2 ?]; subst.
  rewrite subst_link.
  change (js "<a href=" ++ dq ++ default [] c2 ++ dq ++ js " target=" ++ dq ++
          js "_blank" ++ dq ++ js ">" ++ default [] c1 ++ js "</a>")
    with ((js "<a href=" ++ dq) ++ default [] c2 ++
          ((dq ++ js " target=" ++ dq ++ js "_blank" ++ dq ++ js ">") ++
           default [] c1 ++ js "</a>")).
  destruct (wrap_safe (dq ++ js " target=" ++ dq ++ js "_blank" ++ dq ++ js ">")
              (js "</a>") (default [] c1)) as (I1 & I2 & I3 & I4);
    try reflexivity; try discriminate; [apply default_blankFree, F1 |].
  apply wrap_safe; try reflexivity; try discriminate; try assumption.
  apply default_blankFree, F2.
Qed.

Lemma replace_blankFree re tmpl s :
  global (fl re) = true -> safe_tmpl (ngroups re) tmpl ->
  blankFree s = true -> blankFree (replace re tmpl s) = true.
Proof.
  intros Hg Hsafe Hs. unfold replace. rewrite Hg.
  apply (blankFree_tail 0). apply replace_loop_blankFree; [exact Hsafe | exact Hs |].
  exact Hs.
Qed.

Lemma convertInline_blankFree s : blankFree s = true -> blankFree (convertInline s) = true.
Proof.
  intros H. unfold convertInline.
  apply replace_blankFree; [reflexivity | apply em_safe |].
  apply replace_blankFree; [reflexivity | apply strong_safe |].
  apply replace_blankFree; [reflexivity | apply strong_safe |].
  apply replace_blankFree; [reflexivity | apply link_safe |].
  apply replace_blankFree; [reflexivity | apply h1_safe |].
  apply replace_blankFree; [reflexivity | apply h2_safe |].
  apply replace_blankFree; [reflexivity | apply h3_safe |].
  exact H.
Qed.

Lemma exec_blank_none before c s :
  negb ((c =? 10) && starts10 s) = true -> exec_at blank_re before (c :: s) = None.
Proof.
  intros H. destruct (N.eqb_spec c 10) as [-> | Hc].
  - unfold exec_at. cbn [pattern fl ngroups blank_re cat repeat].
    rewrite rmatch_Seq, rmatch_Chr by reflexivity.
    destruct s as [|d s]; [reflexivity |]. cbn -[N.eqb star_greedy]. simpl in H.
    rewrite N.eqb_sym. destruct (d =? 10); [discriminate | reflexivity].
  - apply blank_head. simpl. congruence.
Qed.

Lemma split_loop_blankFree : forall s before cur,
  blankFree s = true ->
  split_loop blank_re before cur 0 s = [rev cur ++ s].
Proof.
  induction s as [|c s IH]; intros before cur H.
  - simpl. rewrite app_nil_r. reflexivity.
  - simpl in H. apply andb_true_iff in H. destruct H as [H1 H2].
    simpl. rewrite exec_blank_none by exact H1.
    rewrite IH by exact H2. simpl. rewrite <- app_assoc. reflexivity.
Qed.

(** A text without blank line is one block. *)
Lemma split_blankFree s : blankFree s = true -> split blank_re s = [s].
Proof.
  intros H. destruct s as [|c s]; [reflexivity |].
  unfold split. apply split_loop_blankFree. exact H.
Qed.

Lemma frontmatter_later before s :
  before <> [] -> exec_at frontmatter_re before s = None.
Proof.
  intros H. unfold exec_at. destruct before as [|c b]; [congruence |]. reflexivity.
Qed.

Lemma test_frontmatter_later : forall s before,
  before <> [] -> test_from frontmatter_re before s = false.
Proof.
  induction s as [|c s IH]; intros before H; simpl;
    rewrite frontmatter_later by exact H; [reflexivity |].
  apply IH. discriminate.
Qed.

(** Without a match at the start, nothing is stripped. *)
Lemma stripFrontmatter_id md :
  exec_at frontmatter_re [] md = None -> stripFrontmatter md = md.
Proof.
  intros H. unfold stripFrontmatter. apply replace_id. unfold test.
  destruct md as [|c s].
  - change (test_from frontmatter_re [] []) with
      (match exec_at frontmatter_re [] [] with Some _ => true | None => false end).
    rewrite H. reflexivity.
  - change (test_from frontmatter_re [] (c :: s)) with
      (match exec_at frontmatter_re [] (c :: s) with
       | Some _ => true
       | None => test_from frontmatter_re [c] s
       end).
    rewrite H. apply test_frontmatter_later. discriminate.
Qed.

Lemma wrapBlock_cases block :
  let b := trim block in
  (b = [] -> wrapBlock block = []) /\
  (isBlockStart b = true -> wrapBlock block = b) /\
  (b <> [] -> isBlockStart b = false -> wrapBlock block = js "<p>" ++ b ++ js "</p>").
Proof.
  cbn zeta. unfold wrapBlock. fold (isBlockStart (trim block)).
  destruct (trim block) as [|c b] eqn:E.
  - repeat split; try reflexivity; intros; try discriminate; congruence.
  - split; [discriminate | split; intros].
    + rewrite H. reflexivity.
    + rewrite H0. reflexivity.
Qed.

Lemma parseMarkdown_one_block md :
  NoBlankLine md -> exec_at frontmatter_re [] md = None ->
  split blank_re (convertInline md) = [convertInline md] /\
  parseMarkdown md = wrapBlock (convertInline md).
Proof.
  intros Hb Hf. apply blankFree_spec in Hb.
  assert (S : split blank_re (convertInline md) = [convertInline md]).
  { apply split_blankFree, convertInline_blankFree, Hb. }
  split; [exact S |].
  unfold parseMarkdown. rewrite stripFrontmatter_id by exact Hf.
  rewrite S. reflexivity.
Qed.

Lemma canon_gim_hash c : (canonicalize gim 35 =? canonicalize gim c) = (35 =? c).
Proof.
  unfold canonicalize. cbn [ignoreCase gim].
  change ((97 <=? 35) && (35 <=? 122)) with false. cbv iota.
  destruct ((97 <=? c) && (c <=? 122)) eqn:E; [| reflexivity].
  apply andb_true_iff in E. destruct E as [E1 E2].
  apply N.leb_le in E1, E2.
  destruct (N.eqb_spec 35 (c - 32)); destruct (N.eqb_spec 35 c); try reflexivity; lia.
Qed.

Lemma heading_head hashes before s :
  hashes = "###"%string \/ hashes = "##"%string \/ hashes = "#"%string ->
  head s <> Some 35 -> exec_at (heading_re hashes) before s = None.
Proof.
  intros Hh H. unfold exec_at.
  assert (E : forall k st, rest st = s ->
            rmatch gim (Chr (CChar 35)) st k = None).
  { intros k st Hr. cbn [rmatch]. rewrite Hr. destruct s as [|c s']; [reflexivity |].
    change (cset_match gim (CChar 35) c) with (canonicalize gim 35 =? canonicalize gim c).
    rewrite canon_gim_hash. destruct (N.eqb_spec 35 c); [| reflexivity].
    subst. exfalso. apply H. reflexivity. }
  destruct Hh as [-> | [-> | ->]];
    match goal with
    | |- context [pattern ?re] =>
        let p := eval vm_compute in (pattern re) in change (pattern re) with p
    end;
    cbn [fl heading_re]; rewrite rmatch_Seq;
    change (rmatch gim Bol ?st ?k) with (if at_bol gim st then k st else None);
    (destruct (at_bol _ _); [| reflexivity]);
    rewrite !rmatch_Seq, E; reflexivity.
Qed.

Lemma split_loop_prefix re c0 :
  (forall before s, head s <> Some c0 -> exec_at re before s = None) ->
  forall p before cur s, ~ In c0 p ->
  split_loop re before cur 0 (p ++ s) = 
    match s with
    | [] => [rev cur ++ p]
    | _ => split_loop re (rev p ++ before) (rev p ++ cur) 0 s
    end.
Proof.
  intros Hre. induction p as [|c p IH]; intros before cur s Hin.
  - simpl. destruct s; [rewrite app_nil_r |]; reflexivity.
  - simpl app. cbn [split_loop]. rewrite Hre.
    + rewrite IH by (intros ?; apply Hin; right; assumption).
      destruct s; simpl; rewrite <- ?app_assoc; reflexivity.
    + simpl. intros E. inversion E. apply Hin. left. congruence.
Qed.

Lemma split_loop_head re : forall s before cur,
  exists b bs, split_loop re before cur 0 s = (rev cur ++ b) :: bs.
Proof.
  induction s as [|c s IH]; intros before cur.
  - exists [], []. simpl. rewrite app_nil_r. reflexivity.
  - cbn [split_loop]. destruct (exec_at re before (c :: s)) as [[m cs]|].
    + destruct (length m).
      * destruct cur as [|d cur].
        -- destruct (IH (c :: before) [c]) as (b & bs & E). rewrite E.
           exists (c :: b), bs. reflexivity.
        -- exists [], (split_loop re (c :: before) [c] 0 s). rewrite app_nil_r. reflexivity.
      * exists [], (split_loop re (c :: before) [] n s). rewrite app_nil_r. reflexivity.
    + destruct (IH (c :: before) (c :: cur)) as (b & bs & E). rewrite E.
      exists (c :: b), bs. simpl. rewrite <- app_assoc. reflexivity.
Qed.

(** The first block of a text keeps a prefix without newline. *)
Lemma split_keeps_prefix p s :
  p <> [] -> ~ In 10 p -> exists b bs, split blank_re (p ++ s) = (p ++ b) :: bs.
Proof.
  intros Hp Hin. unfold split. destruct (p ++ s) eqn:E.
  - destruct p; [congruence | discriminate].
  - rewrite <- E. rewrite (split_loop_prefix blank_re 10) by (exact blank_head || exact Hin).
    destruct s as [|d s].
    + exists [], []. rewrite app_nil_r. reflexivity.
    + destruct (split_loop_head blank_re (d :: s) (rev p ++ []) (rev p ++ [])) as (b & bs & Eb).
      exists b, bs. rewrite Eb. rewrite app_nil_r, rev_involutive. reflexivity.
Qed.

Lemma trimStart_keep c s : isSpace c = false -> trimStart (c :: s) = c :: s.
Proof. intros H. simpl. rewrite H. reflexivity. Qed.

Lemma trimStart_stop a c r :
  isSpace c = false -> exists a', trimStart (a ++ c :: r) = a' ++ c :: r.
Proof.
  intros H. induction a as [|d a IH]; simpl.
  - exists []. rewrite H. reflexivity.
  - destruct (isSpace d); [exact IH |]. exists (d :: a). reflexivity.
Qed.

(** Trimming keeps a prefix that neither starts nor ends with white space. *)
Lemma trim_keeps_prefix p b :
  match p with c :: _ => isSpace c = false | [] => False end ->
  match rev p with c :: _ => isSpace c = false | [] => False end ->
  exists b', trim (p ++ b) = p ++ b'.
Proof.
  intros Hh Hl. unfold trim, trimEnd. destruct p as [|c p]; [contradiction |].
  simpl app. rewrite trimStart_keep by exact Hh.
  change (c :: p ++ b) with ((c :: p) ++ b). rewrite rev_app_distr.
  destruct (rev (c :: p)) as [|d q] eqn:E; [contradiction |].
  destruct (trimStart_stop (rev b) d q Hl) as (a' & Ea). rewrite Ea.
  exists (rev a'). rewrite rev_app_distr. rewrite <- E, rev_involutive. reflexivity.
Qed.

Lemma startsWith_app s q b : startsWith s q = true -> startsWith (s ++ b) q = true.
Proof.
  revert s. induction q as [|a q IH]; intros s H; [reflexivity |].
  destruct s as [|c s]; [discriminate |]. simpl in *.
  apply andb_true_iff in H. destruct H as [H1 H2]. rewrite H1. simpl. apply IH, H2.
Qed.

Lemma inert_absent s c0 :
  inert s = true -> inertChar c0 = false -> ~ In c0 s.
Proof.
  intros H H0 Hin. unfold inert in H. rewrite forallb_forall in H.
  apply H in Hin. congruence.
Qed.

Lemma frontmatter_head before s :
  head s <> Some 45 -> exec_at frontmatter_re before s = None.
Proof.
  intros H. unfold exec_at.
  match goal with
  | |- context [pattern ?re] =>
      let p := eval vm_compute in (pattern re) in change (pattern re) with p
  end.
  cbn [fl frontmatter_re]. rewrite rmatch_Seq.
  change (rmatch noflags Bol ?st ?k) with (if at_bol noflags st then k st else None).
  destruct (at_bol _ _); [| reflexivity].
  rewrite !rmatch_Seq. cbn [rmatch rest].
  destruct s as [|c s]; [reflexivity |].
  change (cset_match noflags (CChar 45) c) with (45 =? c).
  destruct (N.eqb_spec 45 c); [| reflexivity].
  subst. exfalso. apply H. reflexivity.
Qed.

Lemma replace_keeps_prefix re tmpl c0 p s :
  global (fl re) = true ->
  (forall before s, head s <> Some c0 -> exec_at re before s = None) ->
  ~ In c0 p ->
  exists s', replace re tmpl (p ++ s) = p ++ s'.
Proof.
  intros Hg Hre Hin. unfold replace. rewrite Hg.
  rewrite (replace_loop_prefix re tmpl c0 Hre p [] s Hin). eexists. reflexivity.
Qed.

(** The inline substitutions keep a prefix without [#], [*], [[] and [_]. *)
Lemma convertInline_keeps_prefix p s :
  inert p = true -> exists s', convertInline (p ++ s) = p ++ s'.
Proof.
  intros Hp. unfold convertInline.
  destruct (replace_keeps_prefix (heading_re "###") (js "<h3>$1</h3>") 35 p s)
    as (s1 & ->); [reflexivity | intros; apply heading_head; auto | eapply inert_absent; eauto |].
  destruct (replace_keeps_prefix (heading_re "##") (js "<h2>$1</h2>") 35 p s1)
    as (s2 & ->); [reflexivity | intros; apply heading_head; auto | eapply inert_absent; eauto |].
  destruct (replace_keeps_prefix (heading_re "#") (js "<h1>$1</h1>") 35 p s2)
    as (s3 & ->); [reflexivity | intros; apply heading_head; auto | eapply inert_absent; eauto |].
  destruct (replace_keeps_prefix link_re link_tmpl 91 p s3)
    as (s4 & ->); [reflexivity | apply link_head | eapply inert_absent; eauto |].
  destruct (replace_keeps_prefix bold_re strong_tmpl 42 p s4)
    as (s5 & ->); [reflexivity | apply bold_head | eapply inert_absent; eauto |].
  destruct (replace_keeps_prefix underscore_re strong_tmpl 95 p s5)
    as (s6 & ->); [reflexivity | apply underscore_head | eapply inert_absent; eauto |].
  destruct (replace_keeps_prefix italic_re em_tmpl 42 p s6)
    as (s7 & ->); [reflexivity | apply italic_head | eapply inert_absent; eauto |].
  exists s7. reflexivity.
Qed.

Lemma join_head sep x l : exists r, join sep (x :: l) = x ++ r.
Proof.
  destruct l as [|y l]; simpl.
  - exists []. rewrite app_nil_r. reflexivity.
  - eexists. reflexivity.
Qed.

Lemma isBlockStart_app p b : isBlockStart p = true -> isBlockStart (p ++ b) = true.
Proof.
  unfold isBlockStart. rewrite !orb_true_iff.
  intros H. repeat destruct H as [H | H]; rewrite (startsWith_app _ _ _ H); tauto.
Qed.

Lemma wrapBlock_start block :
  isBlockStart (trim block) = true -> wrapBlock block = trim block.
Proof.
  intros H. unfold wrapBlock. fold (isBlockStart (trim block)). rewrite H.
  destruct (trim block); reflexivity.
Qed.

(** A text that begins with a tag prefix of the test keeps it in front of
    the output: its first block is not wrapped. *)
Lemma parseMarkdown_keeps_prefix p s :
  inert p = true -> ~ In 10 p -> head p <> Some 45 ->
  match p with c :: _ => isSpace c = false | [] => False end ->
  match rev p with c :: _ => isSpace c = false | [] => False end ->
  isBlockStart p = true ->
  exists r, parseMarkdown (p ++ s) = p ++ r.
Proof.
  intros Hi Hn Hd Hh Hl Hb. unfold parseMarkdown.
  rewrite stripFrontmatter_id.
  2:{ apply frontmatter_head. destruct p; [contradiction | exact Hd]. }
  destruct (convertInline_keeps_prefix p s Hi) as (s' & ->).
  destruct (split_keeps_prefix p s') as (b & bs & ->); [destruct p; [contradiction | discriminate] | exact Hn |].
  cbn [List.map].
  destruct (trim_keeps_prefix p b Hh Hl) as (b' & Et).
  rewrite wrapBlock_start; rewrite Et; [| apply isBlockStart_app, Hb].
  destruct (join_head nl (p ++ b') (List.map wrapBlock bs)) as (r & ->).
  exists (b' ++ r). rewrite app_assoc. reflexivity.
Qed.

Lemma parseMarkdown_h2 s : exists r, parseMarkdown (js "<h2>" ++ s) = js "<h2>" ++ r.
Proof.
  apply parseMarkdown_keeps_prefix; try reflexivity; try discriminate.
  simpl. intuition lia.
Qed.

Lemma trim_id s :
  match s with c :: _ => isSpace c = false | [] => True end ->
  match rev s with c :: _ => isSpace c = false | [] => True end ->
  trim s = s.
Proof.
  intros Hh Hl. unfold trim, trimEnd.
  assert (E : trimStart s = s) by (destruct s; [reflexivity | apply trimStart_keep, Hh]).
  rewrite E. destruct (rev s) as [|d q] eqn:R.
  - simpl. rewrite <- (rev_involutive s), R. reflexivity.
  - rewrite trimStart_keep by exact Hl. rewrite <- R. apply rev_involutive.
Qed.

Lemma replace_absent re tmpl c0 s :
  (forall before s, head s <> Some c0 -> exec_at re before s = None) ->
  ~ In c0 s -> replace re tmpl s = s.
Proof.
  intros Hre Hin. apply replace_id. apply (test_from_absent re c0 Hre). exact Hin.
Qed.

Lemma replace_underscore t :
  t <> [] -> ~ In 95 t ->
  replace underscore_re strong_tmpl (js "__" ++ t ++ js "__") = js "<strong>" ++ t ++ js "</strong>".
Proof.
  intros Hne Hin. unfold replace. cbn [global fl underscore_re g].
  change (js "__" ++ t ++ js "__") with (95 :: 95 :: t ++ [95; 95]).
  rewrite <- (app_nil_r (95 :: 95 :: t ++ [95; 95])).
  rewrite (replace_loop_match _ _ _ _ _ [Some t]).
  - rewrite subst_strong. rewrite replace_loop_nil by reflexivity.
    rewrite app_nil_r. reflexivity.
  - discriminate.
  - rewrite app_nil_r. apply exec_underscore; assumption.
Qed.

Lemma parseMarkdown_underscore t :
  t <> [] -> inert t = true -> NoBlankLine t ->
  parseMarkdown (js "__" ++ t ++ js "__") = js "<p><strong>" ++ t ++ js "</strong></p>".
Proof.
  intros Hne Hi Hb.
  assert (A : forall c0, inertChar c0 = false -> c0 <> 95 -> ~ In c0 (js "__" ++ t ++ js "__")).
  { intros c0 H0 H95 Hin.
    change (js "__" ++ t ++ js "__") with ([95; 95] ++ t ++ [95; 95]) in Hin.
    rewrite !in_app_iff in Hin. destruct Hin as [E | [E | E]].
    - destruct E as [E | [E | []]]; congruence.
    - revert E. apply inert_absent; assumption.
    - destruct E as [E | [E | []]]; congruence. }
  assert (B : forall c0, inertChar c0 = false -> ~ In c0 (js "<strong>" ++ t ++ js "</strong>")).
  { intros c0 H0 Hin. rewrite !in_app_iff in Hin. destruct Hin as [E | [E | E]].
    - vm_compute in E. repeat (destruct E as [E | E]; [subst; discriminate |]). exact E.
    - revert E. apply inert_absent; assumption.
    - vm_compute in E. repeat (destruct E as [E | E]; [subst; discriminate |]). exact E. }
  unfold parseMarkdown. rewrite stripFrontmatter_id by (apply frontmatter_head; discriminate).
  assert (C : convertInline (js "__" ++ t ++ js "__") = js "<strong>" ++ t ++ js "</strong>").
  { unfold convertInline.
    rewrite (replace_absent (heading_re "###") _ 35)
      by first [solve [intros; apply heading_head; auto] | apply A; [reflexivity | discriminate]].
    rewrite (replace_absent (heading_re "##") _ 35)
      by first [solve [intros; apply heading_head; auto] | apply A; [reflexivity | discriminate]].
    rewrite (replace_absent (heading_re "#") _ 35)
      by first [solve [intros; apply heading_head; auto] | apply A; [reflexivity | discriminate]].
    rewrite (replace_absent link_re _ 91)
      by first [apply link_head | apply A; [reflexivity | discriminate]].
    rewrite (replace_absent bold_re _ 42)
      by first [apply bold_head | apply A; [reflexivity | discriminate]].
    rewrite replace_underscore by first [assumption | apply inert_absent; [assumption | reflexivity]].
    apply (replace_absent italic_re _ 42); [apply italic_head | apply B; reflexivity]. }
  rewrite C. rewrite split_blankFree.
  2:{ apply wrap_safe; try reflexivity; try discriminate. apply blankFree_spec, Hb. }
  cbn [List.map join]. unfold wrapBlock.
  rewrite trim_id.
  - change (js "<p><strong>" ++ t ++ js "</strong></p>")
      with (js "<p>" ++ js "<strong>" ++ t ++ js "</strong>" ++ js "</p>").
    rewrite (app_assoc t), (app_assoc (js "<strong>")), <- (app_assoc _ t). reflexivity.
  - reflexivity.
  - change (js "<strong>" ++ t ++ js "</strong>") with (js "<strong>" ++ t ++ js "</strong" ++ [62]).
    rewrite !app_assoc, rev_app_distr. reflexivity.
Qed.

End MarkdownFacts.

(** ** Frontmatter *)

Module FrontmatterFacts.
Import MatcherDefs MatcherFacts ReplaceFacts TextDefs BlankFacts PatternFacts MarkdownFacts.

(** A lazy repetition stops at the first position where the continuation
    succeeds. *)
Lemma star_lazy_first p t : forall st s k,
  rest st = t ++ s ->
  Forall (fun c => p c = true) t ->
  (forall a b, t = a ++ b -> b <> [] -> k (advance st a (b ++ s)) = None) ->
  is_Some (k (advance st t s)) ->
  star_lazy p st (t ++ s) k = k (advance st t s).
Proof.
  induction t as [|c t IH]; intros st s k Hr Ht Hk Hs.
  - simpl in *. rewrite <- Hr, advance_nil in *.
    destruct Hs as [r Hs]. destruct (rest st) as [|d s']; simpl; rewrite Hs; reflexivity.
  - inversion Ht as [|? ? Hc Ht']; subst. simpl.
    assert (E0 : k st = None).
    { specialize (Hk [] (c :: t) eq_refl). rewrite <- Hr, advance_nil in Hk.
      apply Hk. discriminate. }
    rewrite E0, Hc.
    rewrite <- advance_step with (s0 := t ++ s) in Hs |- *.
    apply IH; try assumption; try reflexivity.
    intros a b E Hb. rewrite advance_step. apply (Hk (c :: a) b); [rewrite E; reflexivity | exact Hb].
Qed.

Lemma any_matches f c : cset_match f (CClass false [ISpace; INotSpace]) c = true.
Proof. simpl. destruct (isSpace c); reflexivity. Qed.

Lemma close_fails st k :
  startsWith (rest st) (js "---" ++ nl) = false ->
  rmatch noflags (Seq (Seq (Chr (CChar 45)) (Seq (Chr (CChar 45)) (Seq (Chr (CChar 45)) Eps)))
                     (Chr (CChar 10))) st k = None.
Proof.
  intros H. destruct st as [pr rs cs]. cbn [rest] in H.
  change (js "---" ++ nl) with [45; 45; 45; 10] in H.
  cbn -[N.eqb].
  destruct rs as [|c1 rs]; [reflexivity |].
  cbn -[N.eqb] in H |- *. destruct (45 =? c1); [| reflexivity].
  destruct rs as [|c2 rs]; [reflexivity |].
  cbn -[N.eqb] in H |- *. destruct (45 =? c2); [| reflexivity].
  destruct rs as [|c3 rs]; [reflexivity |].
  cbn -[N.eqb] in H |- *. destruct (45 =? c3); [| reflexivity].
  destruct rs as [|c4 rs]; [reflexivity |].
  cbn -[N.eqb] in H |- *. destruct (10 =? c4); [cbn in H; discriminate H | reflexivity].
Qed.

Lemma startsWith_app_long s q b :
  (length q <= length s)%nat -> startsWith (s ++ b) q = startsWith s q.
Proof.
  revert s. induction q as [|a q IH]; intros s H; [reflexivity |].
  destruct s as [|c s]; [simpl in H; lia |]. simpl in *.
  rewrite IH by lia. reflexivity.
Qed.

(** A frontmatter block whose closing delimiter is the first [---] before
    a newline is matched whole. *)
Lemma exec_frontmatter fm body :
  closesAtEnd fm ->
  exec_at frontmatter_re [] (js "---" ++ fm ++ js "---" ++ nl ++ body)
  = Some (js "---" ++ fm ++ js "---" ++ nl, []).
Proof.
  intros Hc. unfold exec_at.
  match goal with
  | |- context [pattern ?re] =>
      let p := eval vm_compute in (pattern re) in change (pattern re) with p
  end.
  cbn [fl frontmatter_re ngroups repeat].
  rewrite rmatch_Seq.
  change (rmatch noflags Bol ?st ?k) with (if at_bol noflags st then k st else None).
  cbn [at_bol pre].
  change (js "---" ++ fm ++ js "---" ++ nl ++ body)
    with (45 :: 45 :: 45 :: fm ++ 45 :: 45 :: 45 :: 10 :: body).
  do 3 chr. change (rmatch noflags Eps ?st ?k) with (k st). cbv beta.
  rewrite rmatch_Seq.
  change (rmatch noflags (Star false ?cs) ?st ?k)
    with (star_lazy (cset_match noflags cs) st (rest st) k).
  cbn [rest].
  rewrite (star_lazy_first _ fm _ (45 :: 45 :: 45 :: 10 :: body)).
  - unfold advance. cbn [pre rest caps]. do 3 chr.
    change (rmatch noflags Eps ?st ?k) with (k st). cbv beta.
    rewrite rmatch_Chr by reflexivity.
    f_equal. f_equal. apply advances_consumed. cbn [rest].
    cbn. rewrite <- app_assoc. reflexivity.
  - reflexivity.
  - apply List.Forall_forall. intros c _. apply any_matches.
  - intros a b E Hb. apply close_fails. unfold advance. cbn [rest].
    specialize (Hc a b E Hb).
    change (b ++ 45 :: 45 :: 45 :: 10 :: body) with (b ++ (js "---" ++ nl) ++ body).
    rewrite app_assoc. rewrite startsWith_app_long; [exact Hc |].
    rewrite !length_app. lia.
  - unfold advance. cbn [pre rest caps]. do 3 chr.
    change (rmatch noflags Eps ?st ?k) with (k st). cbv beta.
    rewrite rmatch_Chr by reflexivity. eexists. reflexivity.
Qed.

(** Such a block is stripped, and the output is the conversion of the
    body alone. *)
Lemma parseMarkdown_strips fm body :
  closesAtEnd fm ->
  parseMarkdown (js "---" ++ fm ++ js "---" ++ nl ++ body)
  = join nl (List.map wrapBlock (split blank_re (convertInline body))).
Proof.
  intros Hc. unfold parseMarkdown. f_equal. f_equal. f_equal. f_equal.
  unfold stripFrontmatter, replace. cbn [global fl frontmatter_re noflags].
  assert (E := exec_frontmatter fm body Hc).
  change (js "---" ++ fm ++ js "---" ++ nl ++ body)
    with (45 :: 45 :: 45 :: fm ++ 45 :: 45 :: 45 :: 10 :: body) in E |- *.
  cbn [replace_first]. rewrite E. cbn [GetSubstitution app].
  change (js "---" ++ fm ++ js "---" ++ nl) with (45 :: 45 :: 45 :: fm ++ [45; 45; 45; 10]).
  replace (45 :: 45 :: 45 :: fm ++ 45 :: 45 :: 45 :: 10 :: body)
    with ((45 :: 45 :: 45 :: fm ++ [45; 45; 45; 10]) ++ body)
    by (cbn; rewrite <- app_assoc; reflexivity).
  apply drop_app_length.
Qed.

End FrontmatterFacts.

(** ** The inline formatter *)

Module InlineFacts.
Import MatcherDefs MatcherFacts ReplaceFacts TextDefs BlankFacts PatternFacts MarkdownFacts.

Lemma replace_whole re tmpl m cs :
  global (fl re) = true -> m <> [] ->
  exec_at re [] m = Some (m, cs) -> exec_at re (rev m) [] = None ->
  replace re tmpl m = GetSubstitution m [] [] cs tmpl.
Proof.
  intros Hg Hm He Hn. unfold replace. rewrite Hg.
  rewrite <- (app_nil_r m) at 1.
  rewrite (replace_loop_match _ _ _ _ _ cs); [| exact Hm | rewrite app_nil_r; exact He].
  rewrite app_nil_r, replace_loop_nil by exact Hn. apply app_nil_r.
Qed.

Lemma format_plain text :
  test link_re text = false -> test bold_re text = false -> test italic_re text = false ->
  formatInlineMarkdown text = text.
Proof.
  intros Hl Hb Hi. unfold formatInlineMarkdown.
  rewrite (replace_id link_re) by exact Hl.
  rewrite (replace_id bold_re) by exact Hb.
  apply replace_id, Hi.
Qed.

Lemma format_unmarked text :
  ~ In 42 text -> ~ In 91 text -> formatInlineMarkdown text = text.
Proof.
  intros H42 H91. apply format_plain.
  - apply (test_from_absent link_re 91); [apply link_head | exact H91].
  - apply (test_from_absent bold_re 42); [apply bold_head | exact H42].
  - apply (test_from_absent italic_re 42); [apply italic_head | exact H42].
Qed.

Lemma format_bold t : t <> [] -> ~ In 42 t -> ~ In 91 t ->
  formatInlineMarkdown (js "**" ++ t ++ js "**") = js "<strong>" ++ t ++ js "</strong>".
Proof.
  intros Hne H42 H91. unfold formatInlineMarkdown.
  rewrite (replace_absent link_re _ 91); [| apply link_head |].
  2:{ change (js "**" ++ t ++ js "**") with ([42; 42] ++ t ++ [42; 42]).
      rewrite !in_app_iff. intros [E | [E | E]]; try contradiction;
        destruct E as [E | [E | []]]; discriminate. }
  change (js "**" ++ t ++ js "**") with (42 :: 42 :: t ++ [42; 42]).
  rewrite (replace_whole bold_re _ _ [Some t]);
    [| reflexivity | discriminate | apply (exec_bold t [] []); assumption | reflexivity].
  rewrite subst_strong. apply (replace_absent italic_re _ 42); [apply italic_head |].
  rewrite !in_app_iff. intros [E | [E | E]]; try contradiction;
    vm_compute in E; repeat (destruct E as [E | E]; [discriminate |]); exact E.
Qed.

Lemma bold_not_italic t before :
  t <> [] -> ~ In 42 t -> test_from bold_re before (42 :: t ++ [42]) = false.
Proof.
  intros Hne Hin. cbn [test_from].
  assert (E0 : exec_at bold_re before (42 :: t ++ [42]) = None).
  { unfold exec_at. cbn [pattern fl ngroups bold_re cat repeat]. chr.
    destruct t as [|c t]; [congruence |].
    rewrite rmatch_Seq. cbn [rmatch rest app].
    change (cset_match g (CChar 42) c) with (42 =? c).
    destruct (N.eqb_spec 42 c); [| reflexivity].
    subst. exfalso. apply Hin. left. reflexivity. }
  rewrite E0. rewrite (test_from_prefix bold_re 42 bold_head t) by exact Hin.
  reflexivity.
Qed.

Lemma format_italic t : t <> [] -> ~ In 42 t -> ~ In 91 t ->
  formatInlineMarkdown (js "*" ++ t ++ js "*") = js "<em>" ++ t ++ js "</em>".
Proof.
  intros Hne H42 H91. unfold formatInlineMarkdown.
  rewrite (replace_absent link_re _ 91); [| apply link_head |].
  2:{ change (js "*" ++ t ++ js "*") with ([42] ++ t ++ [42]).
      rewrite !in_app_iff. intros [E | [E | E]]; try contradiction;
        destruct E as [E | []]; discriminate. }
  rewrite (replace_id bold_re) by (apply bold_not_italic; assumption).
  change (js "*" ++ t ++ js "*") with (42 :: t ++ [42]).
  rewrite (replace_whole italic_re _ _ [Some t]);
    [| reflexivity | discriminate | apply (exec_italic t [] []); assumption | reflexivity].
  apply subst_em.
Qed.

Lemma format_link t u :
  t <> [] -> u <> [] -> ~ In 93 t -> ~ In 41 u -> ~ In 42 t -> ~ In 42 u ->
  formatInlineMarkdown (js "[" ++ t ++ js "](" ++ u ++ js ")") = anchor u t.
Proof.
  intros Ht Hu H93 H41 Ht42 Hu42. unfold formatInlineMarkdown.
  change (js "[" ++ t ++ js "](" ++ u ++ js ")") with (91 :: t ++ 93 :: 40 :: u ++ [41]).
  rewrite (replace_whole link_re _ _ [Some t; Some u]);
    [| reflexivity | discriminate
     | apply (exec_link t u [] []); assumption
     | reflexivity].
  rewrite subst_link. fold (anchor u t).
  assert (A : ~ In 42 (anchor u t)).
  { unfold anchor. rewrite !in_app_iff.
    intros E. repeat (destruct E as [E | E]); try contradiction;
      vm_compute in E; discriminate E. }
  rewrite (replace_absent bold_re _ 42); [| apply bold_head | exact A].
  apply (replace_absent italic_re _ 42); [apply italic_head | exact A].
Qed.

Lemma inert_app a b : inert (a ++ b) = inert a && inert b.
Proof. apply forallb_app. Qed.

(** Inert text passes the heading, link and asterisk substitutions. *)
Lemma convert_before_underscore s :
  ~ In 35 s -> ~ In 91 s -> ~ In 42 s ->
  replace bold_re strong_tmpl
    (replace link_re link_tmpl
       (replace (heading_re "#") (js "<h1>$1</h1>")
          (replace (heading_re "##") (js "<h2>$1</h2>")
             (replace (heading_re "###") (js "<h3>$1</h3>") s)))) = s.
Proof.
  intros H35 H91 H42.
  rewrite (replace_absent (heading_re "###") _ 35)
    by first [solve [intros; apply heading_head; auto] | assumption].
  rewrite (replace_absent (heading_re "##") _ 35)
    by first [solve [intros; apply heading_head; auto] | assumption].
  rewrite (replace_absent (heading_re "#") _ 35)
    by first [solve [intros; apply heading_head; auto] | assumption].
  rewrite (replace_absent link_re _ 91) by first [apply link_head | assumption].
  apply (replace_absent bold_re _ 42); [apply bold_head | assumption].
Qed.

Lemma In_lit c (l : jsstring) a b :
  ~ In c l -> ~ In c a -> ~ In c b -> ~ In c (a ++ l ++ b).
Proof. intros Hl Ha Hb. rewrite !in_app_iff. tauto. Qed.

(** In inert surroundings, [__t__] becomes [<strong>t</strong>]. *)
Lemma convertInline_underscore pre t post :
  t <> [] -> inert pre = true -> inert t = true -> inert post = true ->
  convertInline (pre ++ js "__" ++ t ++ js "__" ++ post)
  = pre ++ js "<strong>" ++ t ++ js "</strong>" ++ post.
Proof.
  intros Hne Hp Ht Hq.
  assert (A : forall c0, inertChar c0 = false -> c0 <> 95 ->
              ~ In c0 (pre ++ js "__" ++ t ++ js "__" ++ post)).
  { intros c0 H0 H95. rewrite !in_app_iff.
    intros [E | [E | [E | [E | E]]]];
      try (revert E; apply inert_absent; assumption);
      vm_compute in E; destruct E as [E | [E | []]]; congruence. }
  assert (B : forall c0, inertChar c0 = false ->
              ~ In c0 (pre ++ js "<strong>" ++ t ++ js "</strong>" ++ post)).
  { intros c0 H0. rewrite !in_app_iff.
    intros [E | [E | [E | [E | E]]]];
      try (revert E; apply inert_absent; assumption);
      vm_compute in E; repeat (destruct E as [E | E]; [subst; discriminate |]); exact E. }
  unfold convertInline.
  rewrite convert_before_underscore by (apply A; [reflexivity | discriminate]).
  assert (U : replace underscore_re strong_tmpl (pre ++ js "__" ++ t ++ js "__" ++ post)
              = pre ++ js "<strong>" ++ t ++ js "</strong>" ++ post).
  { unfold replace. cbn [global fl underscore_re g].
    rewrite (replace_loop_prefix underscore_re _ 95 underscore_head)
      by (apply inert_absent; [assumption | reflexivity]).
    f_equal.
    change (js "__" ++ t ++ js "__" ++ post) with (95 :: 95 :: t ++ 95 :: 95 :: post).
    replace (95 :: 95 :: t ++ 95 :: 95 :: post) with ((95 :: 95 :: t ++ [95; 95]) ++ post)
      by (cbn; rewrite <- app_assoc; reflexivity).
    rewrite (replace_loop_match _ _ _ _ _ [Some t]).
    - rewrite subst_strong. cbn [default]. rewrite <- !app_assoc. do 3 f_equal.
      apply replace_loop_id. apply (test_from_absent underscore_re 95 underscore_head).
      apply inert_absent; [assumption | reflexivity].
    - discriminate.
    - cbn. rewrite <- app_assoc. apply exec_underscore; [assumption |].
      apply inert_absent; [assumption | reflexivity]. }
  rewrite U. apply (replace_absent italic_re _ 42); [apply italic_head | apply B; reflexivity].
Qed.

(** Inert text is left as it is by the inline substitutions. *)
Lemma convertInline_inert s : inert s = true -> convertInline s = s.
Proof.
  intros H. unfold convertInline.
  rewrite convert_before_underscore by (apply inert_absent; [assumption | reflexivity]).
  rewrite (replace_absent underscore_re _ 95)
    by first [apply underscore_head | apply inert_absent; [assumption | reflexivity]].
  apply (replace_absent italic_re _ 42);
    [apply italic_head | apply inert_absent; [assumption | reflexivity]].
Qed.

End InlineFacts.

(** ** Sorting *)

Module SortFacts.
Import SortDefs.

Section Keys.
Context {A : Type} (key : A -> Z) (comparefn : A -> A -> option Z).

Lemma insert_perm x l : Permutation (insert comparefn x l) (x :: l).
Proof.
  induction l as [|y l IH]; simpl; [reflexivity |].
  destruct (SortCompare comparefn x y <=? 0)%Z; [reflexivity |].
  rewrite IH. apply perm_swap.
Qed.

Lemma sort_perm l : Permutation (sort comparefn l) l.
Proof.
  induction l as [|x l IH]; simpl; [reflexivity |].
  rewrite insert_perm. constructor. exact IH.
Qed.

Lemma sort_In x l : In x (sort comparefn l) <-> In x l.
Proof.
  split; apply Permutation_in; [| symmetry]; apply sort_perm.
Qed.







End Keys.

End SortFacts.

(** ** Dates *)

Module DateFacts.
Import TimelineDefs.
Local Open Scope Z_scope.

Lemma DayFromYear_step y : 365 <= DayFromYear (y + 1) - DayFromYear y <= 366.
Proof. unfold DayFromYear. Z.div_mod_to_equations. lia. Qed.

(** [YearFromTime] is the year of the language specification: the year
    that the time value lies in. *)
Lemma YearFromTime_spec t :
  TimeFromYear (YearFromTime t) <= t < TimeFromYear (YearFromTime t + 1).
Proof.
  unfold YearFromTime. cbv zeta.
  set (y := 1970 + t / msPerDay * 400 / 146097).
  destruct (Z.leb_spec (TimeFromYear (y + 1)) t) as [H1 | H1].
  - split; [exact H1 |].
    unfold TimeFromYear, DayFromYear, msPerDay in *. subst y. Z.div_mod_to_equations. lia.
  - destruct (Z.leb_spec (TimeFromYear y) t) as [H2 | H2].
    + split; assumption.
    + split; [| replace (y - 1 + 1) with y by lia; exact H2].
      unfold TimeFromYear, DayFromYear, msPerDay in *. subst y. Z.div_mod_to_equations. lia.
Qed.

Lemma TimeFromYear_mono y y' : y <= y' -> TimeFromYear y <= TimeFromYear y'.
Proof.
  intros L. unfold TimeFromYear, DayFromYear, msPerDay. Z.div_mod_to_equations. lia.
Qed.

Lemma YearFromTime_unique y t :
  TimeFromYear y <= t < TimeFromYear (y + 1) -> YearFromTime t = y.
Proof.
  intros [L U]. pose proof (YearFromTime_spec t) as [L' U'].
  destruct (Z.lt_trichotomy (YearFromTime t) y) as [C | [C | C]]; [| exact C |].
  - pose proof (TimeFromYear_mono (YearFromTime t + 1) y ltac:(lia)). lia.
  - pose proof (TimeFromYear_mono (y + 1) (YearFromTime t) ltac:(lia)). lia.
Qed.

(** Up to a year behind the start of a year the year is that one, up to a
    year before it the year is the one before. *)
Lemma YearFromTime_start y off :
  0 <= off < 365 * msPerDay -> YearFromTime (TimeFromYear y + off) = y.
Proof.
  intros B. apply YearFromTime_unique.
  pose proof (DayFromYear_step y). unfold TimeFromYear, msPerDay in *. lia.
Qed.

Lemma YearFromTime_before y off :
  - (365 * msPerDay) <= off < 0 -> YearFromTime (TimeFromYear y + off) = y - 1.
Proof.
  intros B. apply YearFromTime_unique.
  pose proof (DayFromYear_step (y - 1)). replace (y - 1 + 1) with y in * by lia.
  unfold TimeFromYear, msPerDay in *. lia.
Qed.

(** A year written with four digits is read as the start of that year in
    UTC. *)
Lemma dateOnly_year4 y : 0 <= y <= 9999 -> dateOnly (year4 y) = Some (TimeFromYear y).
Proof.
  intros B. unfold year4. cbn [List.map].
  assert (D : forall d, 0 <= d <= 9 -> digitValue (48 + Z.to_N d)%N = Some d).
  { intros d Hd. unfold digitValue, isDigit.
    assert (E : (48 + Z.to_N d - 48)%N = Z.to_N d) by lia. rewrite E.
    replace ((48 <=? 48 + Z.to_N d)%N) with true by (symmetry; apply N.leb_le; lia).
    replace ((48 + Z.to_N d <=? 57)%N) with true by (symmetry; apply N.leb_le; lia).
    cbn [andb]. rewrite Z2N.id by lia. reflexivity. }
  unfold dateOnly, decimal.
  rewrite !D by (Z.div_mod_to_equations; lia).
  f_equal. f_equal. Z.div_mod_to_equations. lia.
Qed.


End DateFacts.

(** ** Statements with effects *)

Module JsFacts.
Import TimelineDefs LoaderDefs.

Lemma bind_run {A B} (m : Js A) (k : A -> Js B) w a w' :
  m w = (Normal a, w') -> (m ≫= k) w = k a w'.
Proof. intros E. unfold mbind, Js_bind, bind. rewrite E. reflexivity. Qed.

Lemma bind_throw {A B} (m : Js A) (k : A -> Js B) w e w' :
  m w = (Throw e, w') -> (m ≫= k) w = (Throw e, w').
Proof. intros E. unfold mbind, Js_bind, bind. rewrite E. reflexivity. Qed.

Lemma bind_get {B} id (k : option node -> Js B) w :
  (getElementById id ≫= k) w = k (doc w !! id) w.
Proof. reflexivity. Qed.

Lemma mapJs_all {A B} (f : A -> Js B) l ys w :
  Forall2 (fun x y => forall w, f x w = (Normal y, w)) l ys ->
  mapJs l f w = (Normal ys, w).
Proof.
  intros F. revert w. induction F as [|x y l ys Hx _ IH]; intros w; [reflexivity |].
  cbn [mapJs]. rewrite (bind_run _ _ _ _ _ (Hx w)). rewrite (bind_run _ _ _ _ _ (IH w)).
  reflexivity.
Qed.

Lemma mapJs_throw {A B} (f : A -> Js B) l w :
  (forall x, (exists y, forall w, f x w = (Normal y, w)) \/
             (exists e, forall w, f x w = (Throw e, w))) ->
  Exists (fun x => exists e, forall w, f x w = (Throw e, w)) l ->
  exists e, mapJs l f w = (Throw e, w).
Proof.
  intros Hf Hex. induction l as [|x l IH]; [inversion Hex |].
  cbn [mapJs]. destruct (Hf x) as [[y Hy] | [e He]].
  - rewrite (bind_run _ _ _ _ _ (Hy w)).
    inversion Hex as [? ? [e He] | ? ? Hl]; subst.
    + specialize (He w). rewrite Hy in He. discriminate He.
    + destruct (IH Hl) as [e He]. exists e.
      unfold mbind, Js_bind, bind. rewrite He. reflexivity.
  - exists e. unfold mbind, Js_bind, bind. rewrite He. reflexivity.
Qed.

Lemma rendersTo_exists {A} (card : A -> Js jsstring) (P : A -> Prop) items :
  (forall x, P x -> exists y, forall w, card x w = (Normal y, w)) ->
  Forall P items -> exists cards, rendersTo card items cards.
Proof.
  intros Hc F. induction F as [|x l Hx _ [cards IH]].
  - exists []. constructor.
  - destruct (Hc x Hx) as [y Hy]. exists (y :: cards). constructor; assumption.
Qed.

(** [loadYaml] never throws: it hands the data over, or logs the failure
    and returns [null]. *)
Lemma loadYaml_run {A} path (response : completion (option A)) w :
  loadYaml path response w
  = (Normal (match response with Normal v => v | Throw _ => None end),
     {| doc := doc w; console := console w ++ yamlFailure path response |}).
Proof.
  destruct response as [v | e]; destruct w as [d c]; cbn; rewrite ?app_nil_r; reflexivity.
Qed.

Lemma loadYaml_loaded {A} path (v : option A) w : loadYaml path (Normal v) w = (Normal v, w).
Proof. reflexivity. Qed.

(** A body guarded by [try] with a handler that logs completes normally. *)
Lemma tryCatch_log (body : Js unit) msg w :
  fst (tryCatch body (fun _ => console_error msg) w) = Normal tt.
Proof.
  unfold tryCatch. destruct (body w) as [[[] | e] w']; reflexivity.
Qed.

Lemma forEach_run {A} (f : A -> Js unit) (l : list A) :
  (forall x w, fst (f x w) = Normal tt) ->
  forall w, forEach l f w = (Normal tt, fold_left (fun w x => snd (f x w)) l w).
Proof.
  intros Hf. induction l as [|x l IH]; intros w; [reflexivity |].
  cbn [forEach fold_left]. unfold mbind, Js_bind, bind.
  specialize (Hf x w). destruct (f x w) as [r w']. cbn [fst] in Hf. subst r.
  cbn [snd]. apply IH.
Qed.

Lemma join_concat l : join [] l = concat l.
Proof.
  induction l as [|x [|y l] IH]; [reflexivity | simpl; rewrite app_nil_r; reflexivity |].
  change (join [] (x :: y :: l)) with (x ++ [] ++ join [] (y :: l)).
  rewrite IH. reflexivity.
Qed.

Lemma alter_present {A} (f : A -> A) (i : string) (m : gmap string A) x :
  m !! i = Some x -> alter f i m = <[i := f x]> m.
Proof.
  intros E. apply map_eq. intros j. destruct (decide (i = j)) as [<- | Hne].
  - rewrite lookup_alter_eq, lookup_insert_eq, E. reflexivity.
  - rewrite lookup_alter_ne, lookup_insert_ne by exact Hne. reflexivity.
Qed.

(** Assigning [innerHTML] on an element of the page. *)
Lemma setInnerHTML_run `{Host} id markup w el :
  doc w !! id = Some el ->
  setInnerHTML id markup w
  = (Normal tt,
     {| doc := <[id := withChildren el (parseHTML markup)]> (doc w); console := console w |}).
Proof.
  intros E. unfold setInnerHTML, Dom.update. rewrite (alter_present _ _ _ _ E). reflexivity.
Qed.

End JsFacts.

(** ** Timeline and section loaders *)

Module TimelineFacts.
Import MatcherDefs SortDefs SortFacts Timeline TimelineDefs LoaderDefs DateFacts.
Export JsFacts.

Section Facts.
Context `{Host}.






(** The year range of an entry whose end date is a string or counts as
    false, and of one whose end date is anything else. *)
Lemma yearRange_textual start_date end_date :
  textual end_date ->
  exists range, forall w, yearRange start_date end_date w = (Normal range, w).
Proof.
  intros [[s ->] | F]; unfold yearRange.
  - destruct s as [|c s]; cbn [ToBoolean asString];
      [eexists; intros w; reflexivity |].
    destruct (decide (toLowerCase lowerOther (c :: s) = js "present")) as [E | E];
      eexists; intros w;
      (erewrite bind_run; [| erewrite bind_run by reflexivity;
         first [rewrite decide_True by exact E | rewrite decide_False by exact E];
         reflexivity]);
      reflexivity.
  - rewrite F. eexists; intros w; reflexivity.
Qed.

Lemma yearRange_other start_date end_date w :
  ~ textual end_date -> yearRange start_date end_date w = (Throw (js "TypeError"), w).
Proof.
  intros N. unfold yearRange.
  destruct (ToBoolean end_date) eqn:T; [| exfalso; apply N; right; exact T].
  destruct end_date; try reflexivity.
  exfalso. apply N. left. eexists. reflexivity.
Qed.

Lemma textual_dec v : textual v \/ ~ textual v.
Proof.
  destruct (ToBoolean v) eqn:T; [| left; right; exact T].
  destruct v; try (right; intros [[s E] | E]; congruence).
  left. left. eexists. reflexivity.
Qed.

(** The description as the callback formats it. *)
Lemma description_textual (v : value) :
  textual v ->
  exists text, orValue v (VStr []) = VStr text /\
               (ToBoolean v = false -> text = []) /\ (forall s, v = VStr s -> text = s).
Proof.
  intros [[s ->] | F]; unfold orValue.
  - exists s. destruct s; cbn [ToBoolean]; repeat split; congruence.
  - rewrite F. exists []. repeat split. intros s ->. destruct s; [reflexivity | discriminate F].
Qed.

Lemma description_other (v : value) w :
  ~ textual v -> asString (orValue v (VStr [])) w = (Throw (js "TypeError"), w).
Proof.
  intros N. unfold orValue.
  destruct (ToBoolean v) eqn:T; [| exfalso; apply N; right; exact T].
  destruct v; try reflexivity.
  exfalso. apply N. left. eexists. reflexivity.
Qed.

Lemma renderItem_run item range text w :
  yearRange (start_date item) (end_date item) w = (Normal range, w) ->
  orValue (description item) (VStr []) = VStr text ->
  renderItem item w
  = (Normal (timelineHTML range
               (logoHTML (url item) (logo item) (organization item))
               (replace break_re paragraph_tmpl (formatInlineMarkdown text))), w).
Proof.
  intros Ey Ed. unfold renderItem. rewrite (bind_run _ _ _ _ _ Ey). cbv zeta.
  rewrite Ed. reflexivity.
Qed.


(** An entry renders exactly if its end date and its description are
    strings or count as false; otherwise the callback throws. *)
Lemma renderItem_renders item :
  renders item -> exists markup, forall w, renderItem item w = (Normal markup, w).
Proof.
  intros [He Hd]. destruct (yearRange_textual (start_date item) _ He) as [range Hr].
  destruct (description_textual _ Hd) as (text & Et & _).
  eexists. intros w. apply (renderItem_run item range text w (Hr w) Et).
Qed.

Lemma renderItem_throws item :
  ~ renders item -> exists e, forall w, renderItem item w = (Throw e, w).
Proof.
  intros N. exists (js "TypeError"). intros w. unfold renderItem.
  destruct (textual_dec (end_date item)) as [He | He].
  - destruct (yearRange_textual (start_date item) _ He) as [range Hr].
    rewrite (bind_run _ _ _ _ _ (Hr w)). cbv zeta.
    apply bind_throw, description_other. intros Hd. apply N. split; assumption.
  - apply bind_throw, yearRange_other, He.
Qed.

Lemma renderItem_cases item :
  (exists y, forall w, renderItem item w = (Normal y, w)) \/
  (exists e, forall w, renderItem item w = (Throw e, w)).
Proof.
  destruct (textual_dec (end_date item)) as [He | He];
    [destruct (textual_dec (description item)) as [Hd | Hd] |].
  - left. apply renderItem_renders. split; assumption.
  - right. apply renderItem_throws. intros [_ Hd']. exact (Hd Hd').
  - right. apply renderItem_throws. intros [He' _]. exact (He He').
Qed.


(** The markup of an entry holds the element with the year range. *)
Lemma timelineHTML_year range logo text : infix (yearElement range) (timelineHTML range logo text).
Proof.
  unfold infix, timelineHTML, yearElement.
  eexists (nl ++ js "            <div class=" ++ dq ++ js "timeline-item" ++ dq ++ js ">" ++ nl
           ++ js "                <div class=" ++ dq ++ js "timeline-dot" ++ dq
           ++ js "></div>" ++ nl ++ js "                "), _.
  cbn [concat]. rewrite <- !app_assoc. reflexivity.
Qed.

Lemma renderItem_year item markup w :
  renderItem item w = (Normal markup, w) ->
  exists range,
    yearRange (start_date item) (end_date item) w = (Normal range, w) /\
    infix (yearElement range) markup.
Proof.
  intros E. destruct (textual_dec (end_date item)) as [He | He].
  - destruct (yearRange_textual (start_date item) _ He) as [range Hr].
    exists range. split; [apply Hr |].
    destruct (textual_dec (description item)) as [Hd | Hd].
    + destruct (description_textual _ Hd) as (text & Et & _).
      rewrite (renderItem_run item range text w (Hr w) Et) in E.
      injection E as <-. apply timelineHTML_year.
    + unfold renderItem in E. rewrite (bind_run _ _ _ _ _ (Hr w)) in E. cbv zeta in E.
      rewrite (bind_throw _ _ _ _ _ (description_other _ w Hd)) in E. discriminate E.
  - unfold renderItem in E.
    rewrite (bind_throw _ _ _ _ _ (yearRange_other _ _ w He)) in E. discriminate E.
Qed.


(** With the target present, [loadTimeline] writes the markup of the
    entries, sorted, into the target and leaves everything else as it is. *)
Lemma loadTimeline_run timeline markups w el :
  doc w !! "timeline-list"%string = Some el ->
  rendersTo renderItem (sort byStartDate timeline) markups ->
  loadTimeline (Normal (Some timeline)) w
  = (Normal tt,
     {| doc := <["timeline-list"%string := withChildren el (parseHTML (concat markups))]>
                 (doc w);
        console := console w |}).
Proof.
  intros E R. unfold loadTimeline, tryCatch.
  rewrite (bind_run _ _ _ _ _ (loadYaml_loaded _ _ _)), bind_get, E. cbv zeta.
  rewrite (bind_run _ _ _ _ _ (mapJs_all _ _ _ w R)).
  rewrite (setInnerHTML_run _ _ _ _ E), join_concat. reflexivity.
Qed.

(** One entry that does not render, and nothing is written. *)
Lemma loadTimeline_throws timeline w el :
  doc w !! "timeline-list"%string = Some el ->
  Exists (fun item => ~ renders item) timeline ->
  loadTimeline (Normal (Some timeline)) w
  = (Normal tt, {| doc := doc w; console := console w ++ [js "Error loading timeline:"] |}).
Proof.
  intros E X. unfold loadTimeline, tryCatch.
  rewrite (bind_run _ _ _ _ _ (loadYaml_loaded _ _ _)), bind_get, E. cbv zeta.
  destruct (mapJs_throw renderItem (sort byStartDate timeline) w renderItem_cases) as [e He].
  { apply List.Exists_exists in X. destruct X as (item & Hi & Hn).
    apply List.Exists_exists. exists item.
    split; [apply sort_In, Hi | apply renderItem_throws, Hn]. }
  rewrite (bind_throw _ _ _ _ _ He). reflexivity.
Qed.


(** The year of a start date written as a year, in a time zone at or east
    of UTC and in one west of it. *)
Lemma newDate_year4 y : (0 <= y <= 9999)%Z -> newDate (VStr (year4 y)) = Some (TimeFromYear y).
Proof. intros B. unfold newDate, Date_parse. rewrite (dateOnly_year4 y B). reflexivity. Qed.

Lemma getFullYear_east y :
  (0 <= y <= 9999)%Z -> (0 <= LocalTZA (TimeFromYear y) < msPerDay)%Z ->
  getFullYear (newDate (VStr (year4 y))) = Some y.
Proof.
  intros B Z. rewrite (newDate_year4 y B). unfold getFullYear, LocalTime. cbn [option_map].
  rewrite YearFromTime_start; [reflexivity |]. unfold msPerDay in *. lia.
Qed.

Lemma getFullYear_west y :
  (0 <= y <= 9999)%Z -> (- msPerDay < LocalTZA (TimeFromYear y) < 0)%Z ->
  getFullYear (newDate (VStr (year4 y))) = Some (y - 1)%Z.
Proof.
  intros B Z. rewrite (newDate_year4 y B). unfold getFullYear, LocalTime. cbn [option_map].
  rewrite YearFromTime_before; [reflexivity |]. unfold msPerDay in *. lia.
Qed.

End Facts.
End TimelineFacts.

Module LoaderFacts.
Import Timeline TimelineDefs TimelineFacts Loaders LoaderDefs.

Section Facts.
Context `{Host}.


(** The loaders of [js/main.js] with their target absent: what is left of
    the run is the line that [loadYaml] logs when loading fails. *)
Lemma loadTimeline_absent response w :
  doc w !! "timeline-list"%string = None ->
  loadTimeline response w
  = (Normal tt, skipped "content/timeline/timeline.yaml" response w).
Proof.
  intros E. unfold loadTimeline, tryCatch.
  rewrite (bind_run _ _ _ _ _ (loadYaml_run _ _ _)), bind_get. cbn [doc]. rewrite E. reflexivity.
Qed.

Lemma loadTimelineJs_absent response w :
  doc w !! "timeline-list"%string = None ->
  exists w', TimelineJs.loadTimeline response w = (Normal tt, w') /\ doc w' = doc w /\
    (forall timeline, response = Normal timeline -> w' = w).
Proof.
  intros E. unfold TimelineJs.loadTimeline, tryCatch, mbind, Js_bind, bind, getElementById.
  destruct response as [timeline | e].
  - cbn [settle ret]. rewrite E. exists w. repeat split; reflexivity.
  - eexists. split; [reflexivity |]. split; [reflexivity |]. discriminate.
Qed.

Lemma loadMedia_absent response w :
  doc w !! "media-list"%string = None ->
  loadMedia response w = (Normal tt, skipped "content/media/media.yaml" response w).
Proof.
  intros E. unfold loadMedia, tryCatch.
  rewrite (bind_run _ _ _ _ _ (loadYaml_run _ _ _)), bind_get. cbn [doc]. rewrite E. reflexivity.
Qed.

Lemma loadPublications_absent response w :
  doc w !! "publications-list"%string = None ->
  loadPublications response w
  = (Normal tt, skipped "content/publications/publications.yaml" response w).
Proof.
  intros E. unfold loadPublications, tryCatch.
  rewrite (bind_run _ _ _ _ _ (loadYaml_run _ _ _)), bind_get. cbn [doc]. rewrite E. reflexivity.
Qed.

Lemma loadBlogs_absent response w :
  doc w !! "blog-list"%string = None ->
  loadBlogs response w = (Normal tt, skipped "content/blogs/blogs.yaml" response w).
Proof.
  intros E. unfold loadBlogs, tryCatch.
  rewrite (bind_run _ _ _ _ _ (loadYaml_run _ _ _)), bind_get. cbn [doc]. rewrite E. reflexivity.
Qed.

Lemma skipped_loaded {A} path (data : A) w : skipped path (Normal data) w = w.
Proof. destruct w. unfold skipped. cbn. rewrite app_nil_r. reflexivity. Qed.

Lemma loadSocialLinks_absent config w :
  doc w !! "profile-socials"%string = None -> loadSocialLinks config w = (Normal tt, w).
Proof.
  intros E. unfold loadSocialLinks, tryCatch, mbind, Js_bind, bind, getElementById.
  destruct config as [config |]; [| reflexivity]. rewrite E. reflexivity.
Qed.

End Facts.
End LoaderFacts.

(** ** Table of contents *)

Module TocFacts.
Import Toc TocDefs.


Lemma assignIds_Elem t p cs index :
  assignIds (Elem t p cs) index
  = let here := isHeading (Elem t p cs) in
    let (cs', j) := assignIdsList cs (if here then S index else index) in
    (Elem t (if here then <["id"%string := sectionId index]> p else p) cs', j).
Proof. reflexivity. Qed.

Lemma isHeading_tag t p p' cs cs' : isHeading (Elem t p cs) = isHeading (Elem t p' cs').
Proof. reflexivity. Qed.

Lemma sectionIds_app i a b :
  sectionIds i (a + b) = sectionIds i a ++ sectionIds (i + a) b.
Proof. unfold sectionIds. rewrite seq_app, List.map_app. reflexivity. Qed.

Lemma assignIdsList_spec l :
  Forall assigned l ->
  forall i,
    snd (assignIdsList l i) = (i + length (flat_map headingsOf l))%nat /\
    List.map idOf (flat_map headingsOf (fst (assignIdsList l i)))
    = List.map Some (sectionIds i (length (flat_map headingsOf l))) /\
    List.map tagNameOf (flat_map headingsOf (fst (assignIdsList l i)))
    = List.map tagNameOf (flat_map headingsOf l) /\
    List.map textContent (fst (assignIdsList l i)) = List.map textContent l.
Proof.
  induction 1 as [|c l Hc Hl IH]; intros i.
  - cbn. rewrite Nat.add_0_r. repeat split; reflexivity.
  - cbn [assignIdsList flat_map]. destruct (Hc i) as (C1 & C2 & C3 & C4).
    destruct (assignIds c i) as [c' j] eqn:Ec. cbn [fst snd] in *. subst j.
    destruct (IH (i + length (headingsOf c))%nat) as (L1 & L2 & L3 & L4).
    destruct (assignIdsList l (i + length (headingsOf c))) as [l' k] eqn:El.
    cbn [fst snd flat_map] in *. subst k.
    rewrite !length_app, !List.map_app, sectionIds_app, List.map_app, C2, C3, L2, L3.
    cbn [List.map]. rewrite C4, L4.
    repeat split; try reflexivity. lia.
Qed.

Lemma assignIds_spec n : assigned n.
Proof.
  induction n as [d | t p cs IH] using node_rect'; intros i.
  - cbn. rewrite Nat.add_0_r. repeat split; reflexivity.
  - rewrite assignIds_Elem. cbv zeta.
    destruct (assignIdsList_spec cs IH (if isHeading (Elem t p cs) then S i else i))
      as (L1 & L2 & L3 & L4).
    destruct (assignIdsList cs _) as [cs' j] eqn:E. cbn [fst snd] in *. subst j.
    assert (Hc : forall p' cs', isHeading (Elem t p' cs') = isHeading (Elem t p cs))
      by reflexivity.
    destruct (isHeading (Elem t p cs)) eqn:Hh; cbn [headingsOf textContent fst snd];
      rewrite ?Hc, ?Hh.
    + cbn [app length List.map idOf tagNameOf]. rewrite L2, L3, L4, lookup_insert_eq.
      unfold sectionIds. cbn [seq List.map]. fold (sectionIds (S i) (length (flat_map headingsOf cs))).
      repeat split; try reflexivity. lia.
    + cbn [app]. rewrite L2, L3, L4. repeat split; reflexivity.
Qed.


Lemma withChildren_twice n cs cs' :
  withChildren (withChildren n cs) cs' = withChildren n cs'.
Proof. destruct n; reflexivity. Qed.

Lemma append_twice n cs cs' :
  withChildren (withChildren n (childrenOf n ++ cs))
    (childrenOf (withChildren n (childrenOf n ++ cs)) ++ cs')
  = withChildren n (childrenOf n ++ cs ++ cs').
Proof. destruct n; [reflexivity |]. cbn. rewrite <- app_assoc. reflexivity. Qed.

Lemma forEach_append {A} (f : A -> node) (id : string) (l : list A) : forall w n,
  doc w !! id = Some n ->
  forEach l (fun x => appendChild id (f x)) w
  = (Normal tt,
     {| doc := <[id := withChildren n (childrenOf n ++ List.map f l)]> (doc w);
        console := console w |}).
Proof.
  induction l as [|x l IH]; intros w n E.
  - cbn. rewrite app_nil_r. destruct w as [d c]. cbn in *. f_equal. f_equal.
    symmetry. apply insert_id. rewrite E. destruct n; reflexivity.
  - cbn [forEach List.map]. unfold mbind, Js_bind, bind.
    unfold appendChild at 1. unfold update. cbn [doc console].
    rewrite (JsFacts.alter_present _ _ _ _ E).
    rewrite (IH _ (withChildren n (childrenOf n ++ [f x]))) by apply lookup_insert_eq.
    cbn [doc console]. rewrite insert_insert_eq, append_twice. reflexivity.
Qed.

Lemma imap_pairs_from {A B} (f : nat -> A -> B) (l : list A) : forall g : nat -> nat,
  List.map (fun '(i, x) => f i x) (imap (fun i x => (g i, x)) l)
  = imap (fun i x => f (g i) x) l.
Proof.
  induction l as [|x l IH]; intros g; [reflexivity |].
  cbn [imap List.map]. f_equal. apply (IH (fun i => g (S i))).
Qed.

Lemma imap_pairs {A B} (f : nat -> A -> B) (l : list A) :
  List.map (fun '(i, x) => f i x) (imap (fun i x => (i, x)) l) = imap f l.
Proof. apply (imap_pairs_from f l (fun i => i)). Qed.

Lemma hrefOf_tocItem i h : hrefOf (tocItem i h) = Some (js "#" ++ sectionId i).
Proof.
  unfold tocItem, hrefOf. destruct (String.eqb (tagNameOf h) "H3").
  - rewrite lookup_insert_ne by discriminate. apply lookup_insert_eq.
  - apply lookup_insert_eq.
Qed.

Lemma hrefs_tocItems l : forall first,
  List.map hrefOf (imap (fun i h => tocItem (first + i) h) l)
  = List.map (fun id => Some (js "#" ++ id)) (sectionIds first (length l)).
Proof.
  induction l as [|h l IH]; intros first; [reflexivity |].
  cbn [imap List.map length]. unfold sectionIds. cbn [seq List.map].
  rewrite hrefOf_tocItem, Nat.add_0_r. f_equal.
  specialize (IH (S first)). unfold sectionIds in IH. rewrite <- IH.
  f_equal. apply imap_ext. intros i x _. cbn. f_equal. lia.
Qed.

(** [generateTableOfContents] on a page that has the body and the list. *)
Lemma generateTableOfContents_run w body toc :
  doc w !! "blog-body"%string = Some body ->
  doc w !! "toc-list"%string = Some toc ->
  generateTableOfContents w
  = (Normal tt,
     if (length (querySelectorAll body) =? 0)%nat then
       {| doc := alter (fun n => setProp n "style.display" (js "none")) "blog-toc"%string (doc w);
          console := console w |}
     else
       {| doc :=
            <["toc-list"%string :=
                withChildren toc (childrenOf toc ++ imap tocItem (querySelectorAll body))]>
              (<["blog-body"%string :=
                   withChildren body (fst (assignIdsList (childrenOf body) 0))]> (doc w));
          console := console w |}).
Proof.
  intros Eb Et. unfold generateTableOfContents, mbind, Js_bind, bind, getElementById.
  rewrite Eb, Et. destruct (length (querySelectorAll body) =? 0)%nat.
  - destruct (doc w !! "blog-toc"%string) eqn:Ec.
    + reflexivity.
    + unfold ret. f_equal. destruct w as [d c]. cbn in *. f_equal.
      symmetry. apply map_eq. intros j. destruct (decide ("blog-toc"%string = j)) as [<- | Hne].
      * rewrite lookup_alter_eq, Ec. reflexivity.
      * rewrite lookup_alter_ne by exact Hne. reflexivity.
  - unfold update at 1. cbn [doc console].
    rewrite (JsFacts.alter_present _ _ _ _ Eb).
    set (w1 := {| doc := _; console := _ |}).
    assert (E1 : doc w1 !! "toc-list"%string = Some toc).
    { subst w1. cbn [doc]. rewrite lookup_insert_ne by discriminate. exact Et. }
    assert (F : forall l : list (nat * node),
              forEach l (fun '(index, heading) => appendChild "toc-list" (tocItem index heading))
              = forEach l (fun x => appendChild "toc-list" ((fun '(i, h) => tocItem i h) x))).
    { intros l. induction l as [|[i h] l IH]; [reflexivity |]. cbn [forEach]. rewrite IH. reflexivity. }
    rewrite F, (forEach_append _ _ _ _ _ E1), imap_pairs. reflexivity.
Qed.

End TocFacts.


(** ** The configuration cache *)

Module CacheFacts.
Import Loaders ConfigCache CacheDefs.

Section Facts.
Variable yamlLoad : jsstring -> completion loaded.

Lemma enter_cached st config :
  siteConfig st = Parsed config ->
  loadConfig_enter st
  = {| siteConfig := Parsed config; suspended := suspended st; fetches := fetches st;
       assigned := assigned st; returned := returned st ++ [Parsed config];
       logged := logged st |}.
Proof. intros E. unfold loadConfig_enter. rewrite E. reflexivity. Qed.

(** With a configuration in the cache and no load in flight, nothing is
    fetched or assigned any more. *)
Lemma run_settled events : forall st config,
  siteConfig st = Parsed config -> suspended st = 0%nat ->
  siteConfig (run yamlLoad events st) = Parsed config /\
  suspended (run yamlLoad events st) = 0%nat /\
  fetches (run yamlLoad events st) = fetches st /\
  assigned (run yamlLoad events st) = assigned st /\
  exists calls, returned (run yamlLoad events st) = returned st ++ repeat (Parsed config) calls.
Proof.
  induction events as [|e events IH]; intros st config Ec Es.
  - cbn. repeat split; try assumption. exists 0%nat. cbn. rewrite app_nil_r. reflexivity.
  - cbn [run fold_left]. fold (run yamlLoad events (handle yamlLoad st e)).
    destruct e as [| response].
    + cbn [handle]. rewrite (enter_cached st config Ec).
      match goal with |- context [run yamlLoad events ?s] => set (st1 := s) end.
      destruct (IH st1 config) as (I1 & I2 & I3 & I4 & calls & I5);
        [reflexivity | exact Es |].
      rewrite I1, I2, I3, I4, I5. cbn. repeat split; try reflexivity.
      exists (S calls). rewrite <- app_assoc. reflexivity.
    + cbn [handle]. unfold loadConfig_resume. rewrite Es. apply IH; assumption.
Qed.

Lemma run_app events1 events2 st :
  run yamlLoad (events1 ++ events2) st = run yamlLoad events2 (run yamlLoad events1 st).
Proof. apply fold_left_app. Qed.

(** With the same text in every response, every assignment writes the
    same value. *)
Lemma run_sameText text v events : forall st,
  yamlLoad text = Normal v -> sameText text events ->
  Forall (fun x => x = v) (assigned st) ->
  (siteConfig st = Null \/ siteConfig st = v) ->
  Forall (fun x => x = v) (assigned (run yamlLoad events st)) /\
  (siteConfig (run yamlLoad events st) = Null \/ siteConfig (run yamlLoad events st) = v).
Proof.
  induction events as [|e events IH]; intros st Ev Hs Ha Hc; [split; assumption |].
  cbn [run fold_left]. fold (run yamlLoad events (handle yamlLoad st e)).
  inversion Hs as [|? ? He Hs']; subst.
  apply IH; [exact Ev | exact Hs' | |].
  - destruct e as [| [t | err]]; cbn [handle]; unfold loadConfig_enter, loadConfig_resume.
    + destruct (siteConfig st); exact Ha.
    + destruct (suspended st); [exact Ha |]. subst t. rewrite Ev. cbn.
      apply Forall_app. split; [exact Ha | constructor; [reflexivity | constructor]].
    + destruct (suspended st); exact Ha.
  - destruct e as [| [t | err]]; cbn [handle]; unfold loadConfig_enter, loadConfig_resume.
    + destruct (siteConfig st); exact Hc.
    + destruct (suspended st); [exact Hc |]. subst t. rewrite Ev. cbn. right. reflexivity.
    + destruct (suspended st); exact Hc.
Qed.

(** The first load on an empty cache, alone: one fetch, one assignment. *)
Lemma run_first text config :
  yamlLoad text = Normal (Parsed config) ->
  run yamlLoad [Call; Settle (Normal text)] initial
  = {| siteConfig := Parsed config; suspended := 0; fetches := 1;
       assigned := [Parsed config]; returned := [Parsed config]; logged := 0 |}.
Proof. intros E. cbn. unfold loadConfig_resume. cbn. rewrite E. reflexivity. Qed.

End Facts.
End CacheFacts.


(** ** The inline formatter: statements *)

Module InlineClaims.
Import MatcherDefs MatcherFacts ReplaceFacts TextDefs BlankFacts PatternFacts
  MarkdownFacts InlineFacts.

(** C1.  [formatInlineMarkdown] returns, for every text, the result of the
    three substitutions in the order links, bold, italic.  A link [[t](u)]
    becomes the anchor with [href] [u], [target="_blank"] and text [t]; [**t**]
    becomes [<strong>t</strong>]; [*t*] becomes [<em>t</em>]; a text in which
    none of the three patterns matches is returned unchanged; ["**a**"] gives
    ["<strong>a</strong>"] and ["[a](http://b)"] gives the anchor to
    [http://b] with [target="_blank"]. *)
Theorem formatInlineMarkdown_spec :
  (forall text,
     formatInlineMarkdown text
     = replace italic_re (js "<em>$1</em>")
         (replace bold_re (js "<strong>$1</strong>")
            (replace link_re link_tmpl text))) /\
  (forall t u,
     t <> [] -> u <> [] -> ~ In 93 t -> ~ In 41 u -> ~ In 42 t -> ~ In 42 u ->
     formatInlineMarkdown (js "[" ++ t ++ js "](" ++ u ++ js ")") = anchor u t) /\
  (forall t,
     t <> [] -> ~ In 42 t -> ~ In 91 t ->
     formatInlineMarkdown (js "**" ++ t ++ js "**") = js "<strong>" ++ t ++ js "</strong>") /\
  (forall t,
     t <> [] -> ~ In 42 t -> ~ In 91 t ->
     formatInlineMarkdown (js "*" ++ t ++ js "*") = js "<em>" ++ t ++ js "</em>") /\
  (forall text,
     test link_re text = false -> test bold_re text = false ->
     test italic_re text = false ->
     formatInlineMarkdown text = text) /\
  formatInlineMarkdown (js "**a**") = js "<strong>a</strong>" /\
  formatInlineMarkdown (js "[a](http://b)")
  = js "<a href=" ++ dq ++ js "http://b" ++ dq ++ js " target=" ++ dq ++ js "_blank" ++ dq
    ++ js ">a</a>".
Proof.
  split; [reflexivity |].
  split; [exact format_link |].
  split; [exact format_bold |].
  split; [exact format_italic |].
  split; [exact format_plain |].
  split; reflexivity.
Qed.

Lemma formatInlineMarkdown_spec_witness :
  formatInlineMarkdown (js "[docs](http://b)") = anchor (js "http://b") (js "docs") /\
  formatInlineMarkdown (js "**bold**") = js "<strong>bold</strong>" /\
  formatInlineMarkdown (js "*it*") = js "<em>it</em>" /\
  formatInlineMarkdown (js "plain text") = js "plain text".
Proof.
  destruct formatInlineMarkdown_spec as (_ & L & B & I & P & _).
  split; [| split; [| split]].
  - apply (L (js "docs") (js "http://b")); try discriminate;
      vm_compute; intros E; repeat (destruct E as [E | E]; [discriminate E |]); exact E.
  - apply (B (js "bold")); try discriminate;
      vm_compute; intros E; repeat (destruct E as [E | E]; [discriminate E |]); exact E.
  - apply (I (js "it")); try discriminate;
      vm_compute; intros E; repeat (destruct E as [E | E]; [discriminate E |]); exact E.
  - apply (P (js "plain text")); reflexivity.
Defined.

(** C7.  The inline formatter is not idempotent: formatting
    ["[[a](b)](c)"] twice differs from formatting it once. *)
Theorem formatInlineMarkdown_not_idempotent :
  exists x, formatInlineMarkdown (formatInlineMarkdown x) <> formatInlineMarkdown x.
Proof.
  exists (js "[[a](b)](c)"). vm_compute. intros E. discriminate E.
Qed.

End InlineClaims.

(** ** The block formatter: statements *)

Module BlockClaims.
Import MatcherDefs MatcherFacts ReplaceFacts TextDefs BlankFacts PatternFacts
  MarkdownFacts InlineFacts.

(** C2 as stated fails: ["## T"] is not empty, has no blank line and no
    frontmatter, and its rendering is a heading, not a paragraph. *)
Lemma parseMarkdown_heading_not_paragraph :
  js "## T" <> [] /\
  NoBlankLine (js "## T") /\
  exec_at frontmatter_re [] (js "## T") = None /\
  parseMarkdown (js "## T") = js "<h2>T</h2>" /\
  forall body, parseMarkdown (js "## T") <> js "<p>" ++ body ++ js "</p>".
Proof.
  split; [discriminate |].
  split; [apply blankFree_spec; reflexivity |].
  split; [reflexivity |].
  split; [reflexivity |].
  intros body E. vm_compute in E. discriminate E.
Qed.

(** C2, amended.  A text without two consecutive newlines and without
    frontmatter is one block: the text after the heading, link, bold and
    italic substitutions.  The output is that block trimmed, wrapped in
    exactly one [<p>...</p>] unless the trimmed block is empty (the output is
    empty) or begins with [<h], [<figure], [<ul], [<ol] or [</] (the output
    is the block).  A text without [#], [*], [[] and [_], without white space
    at its ends and without such a beginning is wrapped whole. *)
Theorem parseMarkdown_single_block md :
  NoBlankLine md -> exec_at frontmatter_re [] md = None ->
  split blank_re (convertInline md) = [convertInline md] /\
  (trim (convertInline md) = [] -> parseMarkdown md = []) /\
  (isBlockStart (trim (convertInline md)) = true ->
   parseMarkdown md = trim (convertInline md)) /\
  (trim (convertInline md) <> [] -> isBlockStart (trim (convertInline md)) = false ->
   parseMarkdown md = js "<p>" ++ trim (convertInline md) ++ js "</p>") /\
  (md <> [] -> inert md = true -> trimmed md -> isBlockStart md = false ->
   parseMarkdown md = js "<p>" ++ md ++ js "</p>").
Proof.
  intros Hb Hf.
  destruct (parseMarkdown_one_block md Hb Hf) as [S E].
  destruct (wrapBlock_cases (convertInline md)) as (W1 & W2 & W3).
  split; [exact S |]. rewrite E.
  split; [exact W1 |]. split; [exact W2 |]. split; [exact W3 |].
  intros Hne Hi [Hh Hl] Hs.
  rewrite (convertInline_inert md Hi) in W3.
  rewrite (convertInline_inert md Hi).
  rewrite (trim_id md Hh Hl) in W3. apply W3; assumption.
Qed.

Lemma parseMarkdown_single_block_witness :
  parseMarkdown (js "Hello world") = js "<p>Hello world</p>".
Proof.
  assert (Hb : NoBlankLine (js "Hello world")) by (apply blankFree_spec; reflexivity).
  destruct (parseMarkdown_single_block (js "Hello world") Hb eq_refl)
    as (_ & _ & _ & _ & P).
  apply P; [discriminate | reflexivity | split; reflexivity | reflexivity].
Defined.

(** C5 as stated fails: the block ["<happy days"] begins with no tag at
    all, and the block ["<hr>"] with none of the tags that the statement
    lists; both are emitted without a paragraph tag.  A block of white space
    is not empty and is not wrapped either: nothing is emitted for it. *)
Lemma parseMarkdown_other_blocks_not_wrapped :
  specBlockLevel (js "<happy days") = false /\
  parseMarkdown (js "<happy days") = js "<happy days" /\
  (forall body, parseMarkdown (js "<happy days") <> js "<p>" ++ body ++ js "</p>") /\
  specBlockLevel (js "<hr>") = false /\
  parseMarkdown (js "<hr>") = js "<hr>" /\
  split blank_re (js "a" ++ nl ++ nl ++ js " " ++ nl ++ nl ++ js "b")
  = [js "a"; js " "; js "b"] /\
  parseMarkdown (js "a" ++ nl ++ nl ++ js " " ++ nl ++ nl ++ js "b")
  = js "<p>a</p>" ++ nl ++ nl ++ js "<p>b</p>".
Proof.
  split; [reflexivity |]. split; [reflexivity |].
  split; [intros body E; vm_compute in E; discriminate E |].
  repeat split; reflexivity.
Qed.

(** C5, amended.  [parseMarkdown] splits the converted text at the blank
    lines and joins what it emits for the blocks with newlines.  A block is
    trimmed; if nothing is left it is emitted as the empty string; if what is
    left begins with [<h], [<figure], [<ul], [<ol] or [</] it is emitted
    without a paragraph tag; every other block is wrapped in [<p>...</p>].
    A text that begins with one of these five prefixes, such as [<h2>], keeps
    it at the start of the output. *)
Theorem parseMarkdown_blocks :
  (forall md,
     parseMarkdown md
     = join nl (List.map wrapBlock (split blank_re (convertInline (stripFrontmatter md))))) /\
  (forall block,
     (trim block = [] -> wrapBlock block = []) /\
     (isBlockStart (trim block) = true -> wrapBlock block = trim block) /\
     (trim block <> [] -> isBlockStart (trim block) = false ->
      wrapBlock block = js "<p>" ++ trim block ++ js "</p>")) /\
  (forall p s, In p blockPrefixes -> exists r, parseMarkdown (p ++ s) = p ++ r) /\
  (forall s, exists r, parseMarkdown (js "<h2>" ++ s) = js "<h2>" ++ r).
Proof.
  split; [reflexivity |].
  split; [exact wrapBlock_cases |].
  split.
  - intros p s Hp. unfold blockPrefixes in Hp.
    repeat (destruct Hp as [<- | Hp];
            [apply parseMarkdown_keeps_prefix; try reflexivity; try discriminate;
             cbn; intuition lia |]).
    destruct Hp.
  - exact parseMarkdown_h2.
Qed.

Lemma parseMarkdown_blocks_witness :
  wrapBlock (js " ") = [] /\
  wrapBlock (js "<figure>x</figure> ") = js "<figure>x</figure>" /\
  wrapBlock (js " text") = js "<p>text</p>" /\
  exists r, parseMarkdown (js "<ul" ++ js "><li>a</li></ul>") = js "<ul" ++ r.
Proof.
  destruct parseMarkdown_blocks as (_ & W & P & _).
  split; [| split; [| split]].
  - apply (proj1 (W (js " "))). reflexivity.
  - apply (proj1 (proj2 (W (js "<figure>x</figure> ")))). reflexivity.
  - apply (proj2 (proj2 (W (js " text")))); [discriminate | reflexivity].
  - apply (P (js "<ul")). right. right. left. reflexivity.
Defined.

(** C6.  The frontmatter pattern ends at the first [---] that a newline
    follows, wherever it stands in a line: of the frontmatter below only the
    first line is removed and the rest of it is rendered, while the body
    alone renders as one paragraph. *)
Theorem parseMarkdown_frontmatter_cut_short :
  parseMarkdown
    (js "---" ++ nl ++ js "title: Notes ---" ++ nl ++ js "date: 2025-02-25" ++ nl
     ++ js "---" ++ nl ++ js "Body")
  = js "<p>date: 2025-02-25" ++ nl ++ js "---" ++ nl ++ js "Body</p>" /\
  parseMarkdown (js "Body") = js "<p>Body</p>".
Proof. split; reflexivity. Qed.

(** C10 as stated fails: the empty string has no underscore, and [____]
    is not rendered as an empty [<strong>] element; [*a*] has no underscore,
    and what is rendered between the [<strong>] tags is not [*a*]. *)
Lemma parseMarkdown_underscore_not_always :
  ~ In 95 [] /\
  parseMarkdown (js "__" ++ [] ++ js "__") = js "<p>____</p>" /\
  parseMarkdown (js "__" ++ [] ++ js "__") <> js "<p><strong>" ++ [] ++ js "</strong></p>" /\
  ~ In 95 (js "*a*") /\
  parseMarkdown (js "__" ++ js "*a*" ++ js "__") = js "<p><strong><em>a</em></strong></p>" /\
  parseMarkdown (js "__" ++ js "*a*" ++ js "__")
  <> js "<p><strong>" ++ js "*a*" ++ js "</strong></p>".
Proof.
  split; [intros [] |]. split; [reflexivity |].
  split; [vm_compute; intros E; discriminate E |].
  split; [vm_compute; intros E; repeat (destruct E as [E | E]; [discriminate E |]); exact E |].
  split; [reflexivity |].
  vm_compute. intros E. discriminate E.
Qed.

(** C10, amended.  The pattern [__([^_]+)__] of [parseMarkdown] turns
    [__t__] into [<strong>t</strong>] for every non-empty [t] without
    underscore.  Where [t] and the text around it have none of [#], [*], [[]
    and [_], this is what the inline substitutions of [parseMarkdown] make of
    the occurrence, and a document [__t__] without blank line is rendered as
    [<p><strong>t</strong></p>]. *)
Theorem parseMarkdown_underscore_bold :
  (forall t,
     t <> [] -> ~ In 95 t ->
     replace underscore_re (js "<strong>$1</strong>") (js "__" ++ t ++ js "__")
     = js "<strong>" ++ t ++ js "</strong>") /\
  (forall pre t post,
     t <> [] -> inert pre = true -> inert t = true -> inert post = true ->
     convertInline (pre ++ js "__" ++ t ++ js "__" ++ post)
     = pre ++ js "<strong>" ++ t ++ js "</strong>" ++ post) /\
  (forall t,
     t <> [] -> inert t = true -> NoBlankLine t ->
     parseMarkdown (js "__" ++ t ++ js "__") = js "<p><strong>" ++ t ++ js "</strong></p>").
Proof.
  split; [exact replace_underscore |].
  split; [exact convertInline_underscore | exact parseMarkdown_underscore].
Qed.

Lemma parseMarkdown_underscore_bold_witness :
  replace underscore_re (js "<strong>$1</strong>") (js "__" ++ js "a*b" ++ js "__")
  = js "<strong>" ++ js "a*b" ++ js "</strong>" /\
  convertInline (js "so " ++ js "__" ++ js "very" ++ js "__" ++ js " good")
  = js "so " ++ js "<strong>" ++ js "very" ++ js "</strong>" ++ js " good" /\
  parseMarkdown (js "__" ++ js "very good" ++ js "__")
  = js "<p><strong>" ++ js "very good" ++ js "</strong></p>".
Proof.
  destruct parseMarkdown_underscore_bold as (R & C & P).
  split; [| split].
  - apply (R (js "a*b")); [discriminate |].
    vm_compute. intros E. repeat (destruct E as [E | E]; [discriminate E |]). exact E.
  - apply (C (js "so ") (js "very") (js " good")); [discriminate | reflexivity ..].
  - apply (P (js "very good")); [discriminate | reflexivity |].
    apply blankFree_spec. reflexivity.
Defined.

End BlockClaims.

(** ** Timeline and section loaders: statements *)

Module LoaderClaims.
Import MatcherDefs SortDefs SortFacts Timeline TimelineDefs TimelineFacts Loaders LoaderDefs
  LoaderFacts DateFacts.




(** C8.  A section loader whose target element is absent completes
    normally and leaves the page as it is: [loadTimeline], [loadMedia],
    [loadPublications], [loadBlogs] and [loadSocialLinks] of [js/main.js]
    return at once, whatever was loaded, and when loading the content file
    failed, the line that [loadYaml] logged is all that the run leaves;
    [loadTimeline] of [timeline.js] returns at once after a successful fetch
    and otherwise only logs the failure. *)
Theorem loaders_skip_absent_target `{Host} :
  (forall response w,
     doc w !! "timeline-list"%string = None ->
     loadTimeline response w
     = (Normal tt, skipped "content/timeline/timeline.yaml" response w)) /\
  (forall response w,
     doc w !! "media-list"%string = None ->
     loadMedia response w = (Normal tt, skipped "content/media/media.yaml" response w)) /\
  (forall response w,
     doc w !! "publications-list"%string = None ->
     loadPublications response w
     = (Normal tt, skipped "content/publications/publications.yaml" response w)) /\
  (forall response w,
     doc w !! "blog-list"%string = None ->
     loadBlogs response w = (Normal tt, skipped "content/blogs/blogs.yaml" response w)) /\
  (forall A path (data : A) w, skipped path (Normal data) w = w) /\
  (forall config w,
     doc w !! "profile-socials"%string = None ->
     loadSocialLinks config w = (Normal tt, w)) /\
  (forall response w,
     doc w !! "timeline-list"%string = None ->
     exists w',
       TimelineJs.loadTimeline response w = (Normal tt, w') /\ doc w' = doc w /\
       (forall timeline, response = Normal timeline -> w' = w)).
Proof.
  split; [exact loadTimeline_absent |].
  split; [exact loadMedia_absent |].
  split; [exact loadPublications_absent |].
  split; [exact loadBlogs_absent |].
  split; [exact (@skipped_loaded) |].
  split; [exact loadSocialLinks_absent | exact loadTimelineJs_absent].
Qed.


Lemma loaders_skip_absent_target_witness :
  @loadTimeline utcHost (Normal (Some [entry "2020" VUndefined])) blogOnly
  = (Normal tt, blogOnly) /\
  @loadMedia utcHost (Normal (Some [])) blogOnly = (Normal tt, blogOnly) /\
  @loadPublications utcHost (Throw (js "TypeError")) blogOnly
  = (Normal tt,
     {| doc := doc blogOnly;
        console := [js "Error loading YAML from content/publications/publications.yaml:"] |}) /\
  @loadBlogs utcHost (Normal None) timelineOnly = (Normal tt, timelineOnly) /\
  @loadSocialLinks utcHost (Some {| contacts := Some [] |}) blogOnly
  = (Normal tt, blogOnly) /\
  exists w', @TimelineJs.loadTimeline utcHost (Throw (js "TypeError")) blogOnly
             = (Normal tt, w') /\ doc w' = doc blogOnly.
Proof.
  destruct (@loaders_skip_absent_target utcHost) as (T & M & P & B & _ & S & J).
  split; [apply (T (Normal (Some [entry "2020" VUndefined])) blogOnly); reflexivity |].
  split; [apply (M (Normal (Some [])) blogOnly); reflexivity |].
  split; [apply (P (Throw (js "TypeError")) blogOnly); reflexivity |].
  split; [apply (B (Normal None) timelineOnly); reflexivity |].
  split; [apply S; reflexivity |].
  destruct (J (Throw (js "TypeError")) blogOnly eq_refl) as (w' & E & D & _).
  exists w'. split; assumption.
Defined.

End LoaderClaims.

(** ** Table of contents: statements *)

Module TocClaims.
Import Toc TocDefs TocFacts.




End TocClaims.

(** ** The configuration cache: statements *)

Module CacheClaims.
Import Loaders ConfigCache CacheDefs CacheFacts.

(** C9 as stated fails: on the main page four calls of [loadConfig] start
    before the first fetch settles; each fetches, and each assigns the
    cache. *)
Lemma siteConfig_written_four_times :
  fetches (run plainYaml mainPageRun initial) = 4%nat /\
  length (assigned (run plainYaml mainPageRun initial)) = 4%nat.
Proof. split; reflexivity. Qed.

(** C9, amended.  A call of [loadConfig] that finds a configuration in the
    cache returns it without a fetch and without an assignment.  After a
    first load alone the cache holds the parsed configuration, fetched once
    and assigned once, and whatever calls follow return it, fetch nothing
    and assign nothing.  Calls that start before the first load has
    completed each fetch and each assign; when every response carries the
    same text, every assignment writes the same parsed value, so the cache
    holds nothing but the initial [null] and that value. *)
Theorem siteConfig_cache (yamlLoad : jsstring -> completion loaded) :
  (forall st config,
     siteConfig st = Parsed config ->
     loadConfig_enter st
     = {| siteConfig := Parsed config; suspended := suspended st; fetches := fetches st;
          assigned := assigned st; returned := returned st ++ [Parsed config];
          logged := logged st |}) /\
  (forall text config events,
     yamlLoad text = Normal (Parsed config) ->
     let st := run yamlLoad ([Call; Settle (Normal text)] ++ events) initial in
     siteConfig st = Parsed config /\ fetches st = 1%nat /\ assigned st = [Parsed config] /\
     exists calls, returned st = repeat (Parsed config) (S calls)) /\
  (forall text v events,
     yamlLoad text = Normal v -> sameText text events ->
     let st := run yamlLoad events initial in
     Forall (fun x => x = v) (assigned st) /\
     (siteConfig st = Null \/ siteConfig st = v)).
Proof.
  split; [apply enter_cached |]. split.
  - intros text config events E. cbv zeta. rewrite run_app, (run_first yamlLoad text config E).
    match goal with |- context [run yamlLoad events ?s] => set (st1 := s) end.
    destruct (run_settled yamlLoad events st1 config)
      as (S1 & _ & S3 & S4 & calls & S5); [reflexivity | reflexivity |].
    rewrite S1, S3, S4, S5. repeat split; try reflexivity. exists calls. reflexivity.
  - intros text v events E Hs. cbv zeta.
    apply (run_sameText yamlLoad text v events initial E Hs); [constructor | left; reflexivity].
Qed.

Lemma siteConfig_cache_witness :
  siteConfig (run plainYaml ([Call; Settle (Normal [])] ++ [Call; Call]) initial)
  = Parsed {| contacts := None |} /\
  fetches (run plainYaml ([Call; Settle (Normal [])] ++ [Call; Call]) initial) = 1%nat /\
  Forall (fun x => x = Parsed {| contacts := None |})
    (assigned (run plainYaml mainPageRun initial)).
Proof.
  destruct (siteConfig_cache plainYaml) as (_ & F & U).
  destruct (F [] {| contacts := None |} [Call; Call] eq_refl) as (F1 & F2 & _).
  split; [exact F1 |]. split; [exact F2 |].
  apply (U [] (Parsed {| contacts := None |}) mainPageRun eq_refl).
  unfold sameText, mainPageRun. repeat constructor.
Defined.

End CacheClaims.

(** ** Worked examples *)

Module Examples.
Import TextDefs.

(** An excerpt of a post of the site: frontmatter, a figure, a paragraph
    that starts in bold, and a heading. *)
Example parseMarkdown_post_excerpt :
  parseMarkdown
    (js "---" ++ nl ++ js "title: 'Interning at Amazon Berlin 2024'" ++ nl
     ++ js "date: 2025-02-25" ++ nl ++ js "---" ++ nl ++ nl
     ++ js "<figure>" ++ nl ++ js "  <img src=images/berlin/wall.jpeg>" ++ nl
     ++ js "</figure>" ++ nl ++ nl
     ++ js "**TL;DR** My time in [Berlin](https://berlin.de) was *tough*." ++ nl ++ nl
     ++ js "## The grind: Hitting the wall.")
  = js "<figure>" ++ nl ++ js "  <img src=images/berlin/wall.jpeg>" ++ nl
    ++ js "</figure>" ++ nl
    ++ js "<p><strong>TL;DR</strong> My time in " ++ anchor (js "https://berlin.de") (js "Berlin")
    ++ js " was <em>tough</em>.</p>" ++ nl
    ++ js "<h2>The grind: Hitting the wall.</h2>".
Proof. reflexivity. Qed.

(** The three heading levels, each on its own line. *)
Example parseMarkdown_headings :
  parseMarkdown (js "# A" ++ nl ++ nl ++ js "## B" ++ nl ++ nl ++ js "### C")
  = js "<h1>A</h1>" ++ nl ++ js "<h2>B</h2>" ++ nl ++ js "<h3>C</h3>".
Proof. reflexivity. Qed.

(** Bold inside a link label is converted after the link. *)
Example formatInlineMarkdown_nested :
  formatInlineMarkdown (js "[**Torr Vision Group**](https://torrvision.com/)")
  = anchor (js "https://torrvision.com/") (js "<strong>Torr Vision Group</strong>").
Proof. reflexivity. Qed.

(** A run of newlines is one separator, and a trailing one leaves an empty
    last block. *)
Example split_blank_lines :
  split blank_re (js "a" ++ nl ++ nl ++ nl ++ js "b" ++ nl ++ nl) = [js "a"; js "b"; []].
Proof. reflexivity. Qed.

(** The author pattern matches the name only between word boundaries. *)
Example author_bold :
  replace Loaders.author_re (js "<strong>F. Fehr</strong>") (js "A. Bee, F. Fehr, F. Fehrmann")
  = js "A. Bee, <strong>F. Fehr</strong>, F. Fehrmann".
Proof. reflexivity. Qed.

End Examples.

(** ** The profile text: properties *)

Module SimpleFacts.
Import Simple SimpleDefs TextDefs MatcherDefs MatcherFacts ReplaceFacts BlankFacts
  PatternFacts MarkdownFacts InlineFacts.

Lemma replace_start s : replace start_re (js "<p>") s = js "<p>" ++ s.
Proof.
  unfold replace. cbn [fl start_re global noflags].
  assert (E : exec_at start_re [] s = Some ([], [])).
  { unfold exec_at. cbn. unfold consumed. cbn. rewrite Nat.sub_diag. reflexivity. }
  destruct s; cbn [replace_first]; rewrite E; reflexivity.
Qed.

Lemma replace_first_end tmpl : forall s before,
  (forall m b a, GetSubstitution m b a [] tmpl = tmpl) ->
  replace_first end_re tmpl before s = s ++ tmpl.
Proof.
  induction s as [|c s IH]; intros before Ht.
  - cbn. rewrite Ht. apply app_nil_r.
  - cbn [replace_first]. 
    assert (E : exec_at end_re before (c :: s) = None) by reflexivity.
    rewrite E. cbn [app]. f_equal. apply IH, Ht.
Qed.

Lemma replace_end s : replace end_re (js "</p>") s = s ++ js "</p>".
Proof. unfold replace. cbn [fl end_re global noflags]. apply replace_first_end. reflexivity. Qed.

Lemma convertSimple_wrapped md :
  convertSimpleMarkdownToHtml md
  = js "<p>" ++ replace paragraph_re (js "</p><p>")
                  (replace link_re link_tmpl (replace bold_re strong_tmpl md)) ++ js "</p>".
Proof.
  unfold convertSimpleMarkdownToHtml. rewrite replace_end, replace_start.
  rewrite <- app_assoc. reflexivity.
Qed.

Lemma par_none before c s :
  negb ((c =? 10) && starts10 s) = true -> exec_at paragraph_re before (c :: s) = None.
Proof.
  intros H. unfold exec_at. cbn [pattern fl ngroups paragraph_re cat repeat].
  destruct (N.eqb_spec c 10) as [-> | Hc].
  - rewrite rmatch_Seq, rmatch_Chr by reflexivity.
    destruct s as [|d s]; [reflexivity |]. cbn -[N.eqb star_greedy]. simpl in H.
    rewrite N.eqb_sym. destruct (d =? 10); [discriminate | reflexivity].
  - cbn -[N.eqb star]. destruct (N.eqb_spec 10 c); [congruence | reflexivity].
Qed.

(** No paragraph break starts inside a text without blank line that does
    not end with a newline. *)
Lemma par_walk tmpl : forall p before s,
  blankFree p = true -> ends10 p = false ->
  replace_loop paragraph_re tmpl before 0 (p ++ s)
  = p ++ replace_loop paragraph_re tmpl (rev p ++ before) 0 s.
Proof.
  induction p as [|c p IH]; intros before s Hb He; [reflexivity |].
  rewrite blankFree_cons in Hb. apply andb_true_iff in Hb. destruct Hb as [H1 H2].
  rewrite ends10_cons in He.
  cbn [app]. rewrite replace_loop_pass.
  - destruct p as [|d p].
    + reflexivity.
    + rewrite IH by assumption. cbn [rev]. rewrite <- !app_assoc. reflexivity.
  - apply par_none. destruct p as [|d p].
    + rewrite He. reflexivity.
    + exact H1.
Qed.

Lemma par_match before extra s :
  starts10 s = false ->
  exec_at paragraph_re before (repeat 10 (S (S extra)) ++ s)
  = Some (repeat 10 (S (S extra)), []).
Proof.
  intros Hs. unfold exec_at. cbn [pattern fl ngroups paragraph_re cat repeat app].
  rewrite rmatch_Seq, rmatch_Chr by reflexivity.
  rewrite (plus_greedy_run g (CChar 10) (repeat 10 (S extra)) _ s).
  - unfold advance. cbn [pre rest caps]. f_equal. f_equal.
    apply (advances_consumed _ _ (10 :: 10 :: repeat 10 extra)). reflexivity.
  - discriminate.
  - reflexivity.
  - apply List.Forall_forall. intros c Hc. apply repeat_spec in Hc. subst. reflexivity.
  - destruct s as [|c s]; [exact I |]. cbn -[N.eqb] in *. rewrite N.eqb_sym. exact Hs.
  - eexists. reflexivity.
Qed.

Lemma paragraphs_cons p extra q others :
  paragraphs p ((extra, q) :: others) = p ++ repeat 10 (S (S extra)) ++ paragraphs q others.
Proof. unfold paragraphs. cbn [List.map concat]. rewrite <- !app_assoc. reflexivity. Qed.

Lemma starts10_paragraphs q others :
  q <> [] -> starts10 (paragraphs q others) = starts10 q.
Proof.
  intros H. unfold paragraphs. rewrite starts10_app.
  destruct q; [congruence | reflexivity].
Qed.

Lemma par_loop : forall others p before,
  plainParagraph p -> Forall plainParagraph (List.map snd others) ->
  replace_loop paragraph_re (js "</p><p>") before 0 (paragraphs p others)
  = p ++ concat (List.map (fun '(_, q) => js "</p><p>" ++ q) others).
Proof.
  induction others as [|[extra q] others IH]; intros p before Hp Ho.
  - unfold paragraphs. cbn [List.map concat].
    destruct Hp as (_ & Hb & _ & He & _).
    rewrite par_walk by assumption. reflexivity.
  - rewrite paragraphs_cons.
    destruct Hp as (_ & Hb & _ & He & _).
    rewrite par_walk by assumption. f_equal.
    inversion Ho as [|? ? Hq Ho']; subst.
    assert (Hs : starts10 (paragraphs q others) = false).
    { rewrite starts10_paragraphs; apply Hq. }
    rewrite (replace_loop_match paragraph_re (js "</p><p>") (rev p ++ before)
               (repeat 10 (S (S extra))) (paragraphs q others) []);
      [| discriminate | apply par_match, Hs].
    rewrite IH by assumption. reflexivity.
Qed.

Lemma paragraphs_absent c p others :
  c <> 10 -> ~ In c p -> Forall (fun q => ~ In c q) (List.map snd others) ->
  ~ In c (paragraphs p others).
Proof.
  intros Hc Hp. revert p Hp. induction others as [|[extra q] others IH]; intros p Hp Ho.
  - unfold paragraphs. cbn. rewrite app_nil_r. exact Hp.
  - rewrite paragraphs_cons. inversion Ho; subst.
    rewrite !in_app_iff. intros [H | [H | H]].
    + contradiction.
    + apply repeat_spec in H. congruence.
    + revert H. apply IH; assumption.
Qed.

Lemma convertSimple_paragraphs p others :
  plainParagraph p -> Forall plainParagraph (List.map snd others) ->
  convertSimpleMarkdownToHtml (paragraphs p others)
  = js "<p>" ++ p ++ concat (List.map (fun '(_, q) => js "</p><p>" ++ q) others) ++ js "</p>".
Proof.
  intros Hp Ho. rewrite convertSimple_wrapped.
  rewrite (replace_absent bold_re _ 42).
  - rewrite (replace_absent link_re _ 91).
    + unfold replace. cbn [fl paragraph_re global g].
      rewrite par_loop by assumption. rewrite <- app_assoc. reflexivity.
    + apply link_head.
    + apply paragraphs_absent; [discriminate | apply Hp |].
      eapply Forall_impl; [exact Ho |]. intros q Hq. apply Hq.
  - apply bold_head.
  - apply paragraphs_absent; [discriminate | apply Hp |].
    eapply Forall_impl; [exact Ho |]. intros q Hq. apply Hq.
Qed.

End SimpleFacts.

Module SimpleExtras.
Import Simple SimpleDefs SimpleFacts TextDefs.

(** X1.  [convertSimpleMarkdownToHtml] wraps every text: the output is [<p>],
    the text after the bold, link and paragraph substitutions, and [</p>];
    the pattern [$] without flags matches at the end of the text only, so
    that the closing tag is never placed before a newline inside it.  The
    empty text gives the empty paragraph. *)
Theorem convertSimpleMarkdownToHtml_wraps :
  (forall markdown,
     convertSimpleMarkdownToHtml markdown
     = js "<p>"
       ++ replace paragraph_re (js "</p><p>")
            (replace link_re link_tmpl (replace bold_re strong_tmpl markdown))
       ++ js "</p>") /\
  (forall s, replace start_re (js "<p>") s = js "<p>" ++ s) /\
  (forall s, replace end_re (js "</p>") s = s ++ js "</p>") /\
  convertSimpleMarkdownToHtml [] = js "<p></p>".
Proof.
  split; [exact convertSimple_wrapped |].
  split; [exact replace_start |].
  split; [exact replace_end | reflexivity].
Qed.

(** X2.  Paragraph breaks of the profile text: plain paragraphs separated by
    runs of two or more newlines come out as one [<p>] element each, a run
    of any length giving one break; a single newline inside a paragraph is
    kept and breaks nothing. *)
Theorem convertSimpleMarkdownToHtml_paragraphs first others :
  plainParagraph first -> Forall plainParagraph (List.map snd others) ->
  convertSimpleMarkdownToHtml (paragraphs first others)
  = js "<p>" ++ first
    ++ concat (List.map (fun '(_, p) => js "</p><p>" ++ p) others) ++ js "</p>".
Proof. exact (convertSimple_paragraphs first others). Qed.

Lemma convertSimpleMarkdownToHtml_paragraphs_witness :
  convertSimpleMarkdownToHtml
    (js "I am a researcher" ++ nl ++ js "in Oxford." ++ nl ++ nl ++ nl ++ js "Say hello!")
  = js "<p>I am a researcher" ++ nl ++ js "in Oxford.</p><p>Say hello!</p>".
Proof.
  assert (P : forall p, p <> [] -> blankFree p = true -> starts10 p = false ->
              ends10 p = false -> forallb (fun c => negb (c =? 42) && negb (c =? 91)) p = true ->
              plainParagraph p).
  { intros p H1 H2 H3 H4 H5. repeat split; try assumption.
    - intros Hin. apply (proj1 (forallb_forall _ _) H5) in Hin. discriminate Hin.
    - intros Hin. apply (proj1 (forallb_forall _ _) H5) in Hin. discriminate Hin. }
  apply (convertSimpleMarkdownToHtml_paragraphs
           (js "I am a researcher" ++ nl ++ js "in Oxford.") [(1%nat, js "Say hello!")]).
  - apply P; [discriminate | reflexivity ..].
  - constructor; [| constructor]. apply P; [discriminate | reflexivity ..].
Defined.

End SimpleExtras.

(** ** Headings and frontmatter: properties *)

Module HeadingFacts.
Import MatcherDefs MatcherFacts ReplaceFacts TextDefs BlankFacts PatternFacts
  MarkdownFacts FrontmatterFacts InlineFacts HeadingDefs.

Lemma closesAtEndb_spec fm : closesAtEndb fm = true -> closesAtEnd fm.
Proof.
  induction fm as [|c fm IH]; intros H a b E Hb.
  - destruct a, b; try discriminate E. congruence.
  - cbn [closesAtEndb] in H. apply andb_true_iff in H. destruct H as [H1 H2].
    destruct a as [|c' a].
    + cbn in E. subst b. apply negb_true_iff in H1. exact H1.
    + cbn in E. inversion E; subst. apply (IH H2 a b eq_refl Hb).
Qed.

(** Behind a code unit that is no line terminator no heading starts. *)
Lemma heading_later hashes c before s :
  isLineTerminator c = false -> exec_at (heading_re hashes) (c :: before) s = None.
Proof.
  intros Hc. unfold exec_at. cbn [pattern heading_re cat fl].
  rewrite rmatch_Seq.
  change (rmatch gim Bol ?st ?k) with (if at_bol gim st then k st else None).
  cbn [at_bol pre multiline gim andb]. rewrite Hc. reflexivity.
Qed.

Lemma test_heading_later hashes : forall s c before,
  oneLine s -> isLineTerminator c = false ->
  test_from (heading_re hashes) (c :: before) s = false.
Proof.
  induction s as [|d s IH]; intros c before Hs Hc; cbn [test_from];
    rewrite heading_later by exact Hc; [reflexivity |].
  inversion Hs; subst. apply IH; assumption.
Qed.

(** In a text of one line a heading pattern matches at the start or
    nowhere. *)
Lemma replace_heading_none hashes tmpl s :
  oneLine s -> exec_at (heading_re hashes) [] s = None ->
  replace (heading_re hashes) tmpl s = s.
Proof.
  intros Hs E. apply replace_id. unfold test. destruct s as [|c s]; cbn [test_from]; rewrite E.
  - reflexivity.
  - inversion Hs; subst. apply test_heading_later; assumption.
Qed.

Lemma star_greedy_all p t st k :
  rest st = t -> Forall (fun c => p c = true) t ->
  is_Some (k (advance st t [])) ->
  star_greedy p st t k = k (advance st t []).
Proof.
  intros Hr Ht Hk. pose proof (star_greedy_run p t st [] k) as R.
  rewrite app_nil_r in R. apply R; [exact Hr | exact Ht | exact I | exact Hk].
Qed.

Lemma oneLine_dot t : oneLine t -> Forall (fun c => cset_match gim CDot c = true) t.
Proof.
  intros H. eapply Forall_impl; [exact H |]. intros c Hc. cbn. rewrite Hc. reflexivity.
Qed.

(** The rest of a heading pattern behind the space: the text up to the
    end of the line is the capture. *)
Lemma heading_text t st k :
  rest st = t -> oneLine t ->
  is_Some (k (set_cap 1 t (advance st t []))) ->
  rmatch gim (Group 1 (Seq (Star true CDot) Eol)) st k
  = k (set_cap 1 t (advance st t [])).
Proof.
  intros Hr Ht Hk. rewrite rmatch_Group, rmatch_Seq.
  change (rmatch gim (Star true CDot) ?st0 ?k0)
    with (star_greedy (cset_match gim CDot) st0 (rest st0) k0).
  rewrite Hr.
  assert (E : rmatch gim Eol (advance st t [])
                (fun st' => k (set_cap 1 (consumed st st') st'))
              = k (set_cap 1 t (advance st t []))).
  { change (rmatch gim Eol ?st0 ?k0) with (if at_eol gim st0 then k0 st0 else None).
    cbn [at_eol advance rest]. cbv beta.
    rewrite consumed_advance by (rewrite app_nil_r; exact Hr). reflexivity. }
  rewrite star_greedy_all; [exact E | exact Hr | apply oneLine_dot, Ht |].
  rewrite E. exact Hk.
Qed.

Ltac heading_pattern :=
  unfold exec_at;
  match goal with
  | |- context [pattern ?re] =>
      let p := eval vm_compute in (pattern re) in change (pattern re) with p
  end;
  cbn [fl heading_re ngroups repeat];
  rewrite rmatch_Seq;
  change (rmatch gim Bol ?st ?k) with (if at_bol gim st then k st else None);
  cbn [at_bol pre].

Lemma exec_heading level t :
  (1 <= level <= 3)%nat -> oneLine t ->
  exec_at (heading_re (string_of_list_ascii (repeat "#"%char level))) []
    (headingLine level t)
  = Some (headingLine level t, [Some t]).
Proof.
  intros Hl Ht. unfold headingLine.
  assert (L : level = 1%nat \/ level = 2%nat \/ level = 3%nat) by lia.
  destruct L as [-> | [-> | ->]]; cbn [repeat string_of_list_ascii app];
    heading_pattern; repeat chr;
    change (rmatch gim Eps ?st ?k) with (k st); cbv beta;
    chr;
    (rewrite (heading_text t); [| reflexivity | exact Ht | eexists; reflexivity]);
    unfold advance, set_cap; cbn [pre rest caps]; f_equal; f_equal;
    apply advances_consumed; cbn [rest app]; rewrite app_nil_r; reflexivity.
Qed.

(** A heading pattern of another level does not match the line. *)
Lemma exec_heading_other hashes level t :
  hashes = "###"%string \/ hashes = "##"%string \/ hashes = "#"%string ->
  (1 <= level)%nat -> String.length hashes <> level ->
  exec_at (heading_re hashes) [] (headingLine level t) = None.
Proof.
  intros Hh H1 Hn. unfold headingLine.
  destruct level as [|[|[|[|level]]]]; [lia | | | |];
    destruct Hh as [-> | [-> | ->]]; cbn in Hn; try congruence; reflexivity.
Qed.

Lemma oneLine_app a b : oneLine a -> oneLine b -> oneLine (a ++ b).
Proof. intros Ha Hb. apply Forall_app. split; assumption. Qed.

Lemma oneLine_headingLine level t : oneLine t -> oneLine (headingLine level t).
Proof.
  intros Ht. unfold headingLine. apply oneLine_app.
  - apply List.Forall_forall. intros c Hc. apply repeat_spec in Hc. subst. reflexivity.
  - constructor; [reflexivity | exact Ht].
Qed.

Lemma oneLine_headingElement level t :
  (level <= 3)%nat -> oneLine t -> oneLine (headingElement level t).
Proof.
  intros Hl Ht. unfold headingElement.
  destruct level as [|[|[|[|level]]]]; [| | | | lia];
    (apply oneLine_app; [repeat constructor |]);
    (apply oneLine_app; [repeat constructor |]);
    (apply oneLine_app; [repeat constructor |]);
    (apply oneLine_app; [exact Ht |]); repeat constructor.
Qed.

Lemma oneLine_blankFree s : oneLine s -> blankFree s = true.
Proof.
  induction 1 as [|c s Hc _ IH]; [reflexivity |].
  rewrite blankFree_cons, IH.
  destruct (N.eqb_spec c 10) as [-> |]; [discriminate Hc | reflexivity].
Qed.

Lemma oneLine_last s :
  oneLine s -> s <> [] -> exists c b, rev s = c :: b /\ isLineTerminator c = false.
Proof.
  intros Hs Hne. destruct (rev s) as [|c b] eqn:E.
  - exfalso. apply Hne. rewrite <- (rev_involutive s), E. reflexivity.
  - exists c, b. split; [reflexivity |].
    assert (Hin : In c s) by (apply in_rev; rewrite E; left; reflexivity).
    exact (proj1 (List.Forall_forall _ _) Hs c Hin).
Qed.

(** The heading pattern of its level turns the line into the element. *)
Lemma replace_heading level t tmpl :
  (1 <= level <= 3)%nat -> oneLine t ->
  replace (heading_re (string_of_list_ascii (repeat "#"%char level))) tmpl (headingLine level t)
  = GetSubstitution (headingLine level t) [] [] [Some t] tmpl.
Proof.
  intros Hl Ht. apply replace_whole.
  - reflexivity.
  - unfold headingLine. destruct level; [lia | discriminate].
  - apply exec_heading; assumption.
  - destruct (oneLine_last (headingLine level t)) as (c & b & -> & Hc).
    + apply oneLine_headingLine, Ht.
    + unfold headingLine. destruct level; [lia | discriminate].
    + apply heading_later, Hc.
Qed.

Lemma marker_free_element c level t :
  (level <= 3)%nat -> c = 42 \/ c = 91 \/ c = 95 \/ c = 35 \/ c = 45 ->
  ~ In c t -> ~ In c (headingElement level t).
Proof.
  intros Hl Hc Ht. unfold headingElement.
  destruct level as [|[|[|[|level]]]]; [| | | | lia];
    rewrite !in_app_iff; intros [H | [H | [H | [H | [H | [H | H]]]]]];
    try contradiction;
    vm_compute in H; destruct Hc as [-> | [-> | [-> | [-> | ->]]]];
    repeat (destruct H as [H | H]; [discriminate H |]); exact H.
Qed.

Lemma marker_free_line c level t :
  c = 42 \/ c = 91 \/ c = 95 \/ c = 45 -> ~ In c t -> ~ In c (headingLine level t).
Proof.
  intros Hc Ht. unfold headingLine. rewrite in_app_iff. intros [H | [H | H]].
  - apply repeat_spec in H. destruct Hc as [-> | [-> | [-> | ->]]]; discriminate H.
  - destruct Hc as [-> | [-> | [-> | ->]]]; discriminate H.
  - contradiction.
Qed.

(** The inline patterns leave a text without their first code units. *)
Lemma inline_absent s :
  ~ In 91 s -> ~ In 42 s -> ~ In 95 s ->
  replace italic_re em_tmpl
    (replace underscore_re strong_tmpl
       (replace bold_re strong_tmpl (replace link_re link_tmpl s))) = s.
Proof.
  intros H1 H2 H3.
  rewrite (replace_absent link_re _ 91 s link_head H1).
  rewrite (replace_absent bold_re _ 42 s bold_head H2).
  rewrite (replace_absent underscore_re _ 95 s underscore_head H3).
  apply (replace_absent italic_re _ 42 s italic_head H2).
Qed.

Lemma element_head level t : head (headingElement level t) <> Some 35.
Proof. unfold headingElement. cbn. discriminate. Qed.

Lemma convert_heading level t :
  (1 <= level <= 3)%nat -> oneLine t -> ~ In 42 t -> ~ In 91 t -> ~ In 95 t ->
  convertInline (headingLine level t) = headingElement level t.
Proof.
  intros Hl Ht H42 H91 H95. unfold convertInline.
  assert (T : forall hashes tmpl,
            hashes = "###"%string \/ hashes = "##"%string \/ hashes = "#"%string ->
            replace (heading_re hashes) tmpl (headingElement level t)
            = headingElement level t).
  { intros hashes tmpl Hh. apply replace_heading_none.
    - apply oneLine_headingElement; [lia | exact Ht].
    - apply heading_head; [exact Hh | apply element_head]. }
  assert (N : forall hashes tmpl,
            hashes = "###"%string \/ hashes = "##"%string \/ hashes = "#"%string ->
            String.length hashes <> level ->
            replace (heading_re hashes) tmpl (headingLine level t) = headingLine level t).
  { intros hashes tmpl Hh Hn. apply replace_heading_none.
    - apply oneLine_headingLine, Ht.
    - apply exec_heading_other; [exact Hh | lia | exact Hn]. }
  assert (I : replace italic_re em_tmpl
                (replace underscore_re strong_tmpl
                   (replace bold_re strong_tmpl
                      (replace link_re link_tmpl (headingElement level t))))
              = headingElement level t).
  { apply inline_absent; apply marker_free_element; try lia; try assumption; tauto. }
  assert (L : level = 1%nat \/ level = 2%nat \/ level = 3%nat) by lia.
  destruct L as [-> | [-> | ->]].
  - rewrite (N "###"%string) by (cbn; first [tauto | lia]).
    rewrite (N "##"%string) by (cbn; first [tauto | lia]).
    rewrite (replace_heading 1 t) by (first [lia | assumption]).
    change (GetSubstitution (headingLine 1 t) [] [] [Some t] (js "<h1>$1</h1>"))
      with (headingElement 1 t).
    exact I.
  - rewrite (N "###"%string) by (cbn; first [tauto | lia]).
    rewrite (replace_heading 2 t) by (first [lia | assumption]).
    change (GetSubstitution (headingLine 2 t) [] [] [Some t] (js "<h2>$1</h2>"))
      with (headingElement 2 t).
    rewrite (T "#"%string) by tauto.
    exact I.
  - rewrite (replace_heading 3 t) by (first [lia | assumption]).
    change (GetSubstitution (headingLine 3 t) [] [] [Some t] (js "<h3>$1</h3>"))
      with (headingElement 3 t).
    rewrite (T "##"%string) by tauto. rewrite (T "#"%string) by tauto.
    exact I.
Qed.

Lemma convert_deep level t :
  (4 <= level)%nat -> oneLine t -> ~ In 42 t -> ~ In 91 t -> ~ In 95 t ->
  convertInline (headingLine level t) = headingLine level t.
Proof.
  intros Hl Ht H42 H91 H95. unfold convertInline.
  assert (N : forall hashes tmpl,
            hashes = "###"%string \/ hashes = "##"%string \/ hashes = "#"%string ->
            replace (heading_re hashes) tmpl (headingLine level t) = headingLine level t).
  { intros hashes tmpl Hh. apply replace_heading_none.
    - apply oneLine_headingLine, Ht.
    - apply exec_heading_other; [exact Hh | lia |].
      destruct Hh as [-> | [-> | ->]]; cbn; lia. }
  rewrite !N by tauto.
  apply inline_absent; apply marker_free_line; try assumption; tauto.
Qed.

Lemma parse_one_line s :
  s <> [] -> oneLine s -> head s <> Some 45 ->
  parseMarkdown s = wrapBlock (convertInline s).
Proof.
  intros Hne Hs Hh.
  apply parseMarkdown_one_block.
  - apply blankFree_spec, oneLine_blankFree, Hs.
  - apply frontmatter_head, Hh.
Qed.

End HeadingFacts.

Module MarkdownExtras.
Import MatcherDefs MatcherFacts ReplaceFacts TextDefs BlankFacts PatternFacts
  MarkdownFacts FrontmatterFacts InlineFacts HeadingDefs HeadingFacts.

(** X4.  The heading syntax of [parseMarkdown] has three levels.  A document
    that is one line of one, two or three [#], a space and a text without [*],
    [[] and [_] is rendered as the heading element of that level around the
    text, without a paragraph tag.  With four or more [#] the line is no
    heading: it is rendered as a paragraph that shows the [#] as they are. *)
Theorem parseMarkdown_heading_levels level t :
  oneLine t -> ~ In 42 t -> ~ In 91 t -> ~ In 95 t ->
  ((1 <= level <= 3)%nat ->
   parseMarkdown (headingLine level t) = headingElement level t) /\
  ((4 <= level)%nat ->
   parseMarkdown (headingLine level t) = js "<p>" ++ trim (headingLine level t) ++ js "</p>").
Proof.
  intros Ht H42 H91 H95.
  assert (P : (1 <= level)%nat ->
              parseMarkdown (headingLine level t)
              = wrapBlock (convertInline (headingLine level t))).
  { intros Hl. apply parse_one_line.
    - unfold headingLine. destruct level; [lia | discriminate].
    - apply oneLine_headingLine, Ht.
    - unfold headingLine. destruct level; [lia | discriminate]. }
  split; intros Hl.
  - rewrite P by lia. rewrite convert_heading by assumption.
    destruct (wrapBlock_cases (headingElement level t)) as (_ & W & _).
    assert (T : trim (headingElement level t) = headingElement level t).
    { apply trim_id.
      - unfold headingElement. reflexivity.
      - unfold headingElement. rewrite !app_assoc, rev_app_distr. reflexivity. }
    cbv zeta in W. rewrite T in W. apply W.
    unfold headingElement. reflexivity.
  - rewrite P by lia. rewrite convert_deep by assumption.
    destruct (wrapBlock_cases (headingLine level t)) as (_ & _ & W).
    cbv zeta in W.
    destruct (trim_keeps_prefix (repeat 35 level) (32 :: t)) as [b' Eb].
    { destruct level; [lia | reflexivity]. }
    { destruct level; [lia |]. cbn [repeat].
      assert (R : exists r, rev (35 :: repeat 35 level) = 35 :: r).
      { clear. induction level as [|n [r IH]]; [exists []; reflexivity |].
        cbn [repeat rev] in *. rewrite IH. eexists. reflexivity. }
      destruct R as [r ->]. reflexivity. }
    unfold headingLine in *. apply W.
    + rewrite Eb. destruct level; [lia | discriminate].
    + rewrite Eb. destruct level; [lia | reflexivity].
Qed.

Lemma parseMarkdown_heading_levels_witness :
  parseMarkdown (js "### The grind: Hitting the wall.")
  = js "<h3>The grind: Hitting the wall.</h3>" /\
  parseMarkdown (js "#### Details ") = js "<p>#### Details</p>".
Proof.
  assert (H : oneLine (js "The grind: Hitting the wall.") /\
              ~ In 42 (js "The grind: Hitting the wall.") /\
              ~ In 91 (js "The grind: Hitting the wall.") /\
              ~ In 95 (js "The grind: Hitting the wall.")).
  { split; [unfold oneLine; apply (bool_decide_unpack _); vm_compute; reflexivity |].
    repeat split; apply (bool_decide_unpack _); vm_compute; reflexivity. }
  assert (D : oneLine (js "Details ") /\ ~ In 42 (js "Details ") /\
              ~ In 91 (js "Details ") /\ ~ In 95 (js "Details ")).
  { split; [unfold oneLine; apply (bool_decide_unpack _); vm_compute; reflexivity |].
    repeat split; apply (bool_decide_unpack _); vm_compute; reflexivity. }
  destruct H as (H1 & H2 & H3 & H4). destruct D as (D1 & D2 & D3 & D4).
  split.
  - apply (proj1 (parseMarkdown_heading_levels 3 _ H1 H2 H3 H4)). lia.
  - apply (proj2 (parseMarkdown_heading_levels 4 _ D1 D2 D3 D4)). lia.
Defined.

(** X5.  A frontmatter block in which [---] before a newline occurs only as
    the closing delimiter is removed whole: the document renders as its body
    renders alone, as long as the body does not start with a frontmatter
    block of its own. *)
Theorem parseMarkdown_frontmatter_removed fm body :
  closesAtEnd fm -> exec_at frontmatter_re [] body = None ->
  parseMarkdown (js "---" ++ fm ++ js "---" ++ nl ++ body) = parseMarkdown body.
Proof.
  intros Hc Hb. rewrite (parseMarkdown_strips fm body Hc).
  unfold parseMarkdown. rewrite (stripFrontmatter_id body Hb). reflexivity.
Qed.

Lemma parseMarkdown_frontmatter_removed_witness :
  parseMarkdown
    (js "---" ++ (nl ++ js "title: Berlin" ++ nl ++ js "date: 2025-02-25" ++ nl) ++ js "---" ++ nl
     ++ js "Body")
  = js "<p>Body</p>".
Proof.
  rewrite (parseMarkdown_frontmatter_removed
             (nl ++ js "title: Berlin" ++ nl ++ js "date: 2025-02-25" ++ nl) (js "Body")).
  - reflexivity.
  - apply closesAtEndb_spec. vm_compute. reflexivity.
  - reflexivity.
Defined.

End MarkdownExtras.

(** ** Site metadata and layout: properties *)

Module SiteFacts.
Import Site SiteDefs.
Export JsFacts.

Lemma alter_absent {A} (f : A -> A) (i : string) (m : gmap string A) :
  m !! i = None -> alter f i m = m.
Proof.
  intros E. apply map_eq. intros j. rewrite lookup_alter.
  destruct (decide (i = j)) as [<- |]; [rewrite E |]; reflexivity.
Qed.

Lemma alter_twice {A} (f g : A -> A) (i : string) (m : gmap string A) :
  alter f i (alter g i m) = alter (fun x => f (g x)) i m.
Proof.
  apply map_eq. intros j. destruct (decide (i = j)) as [<- | Hne].
  - rewrite !lookup_alter_eq. destruct (m !! i); reflexivity.
  - rewrite !lookup_alter_ne by exact Hne. reflexivity.
Qed.

Lemma withText_None entry m j : withText entry m !! j = None <-> m !! j = None.
Proof. unfold withText. destruct (truthy (snd entry)); [apply lookup_alter_None | reflexivity]. Qed.

Lemma withText_ne entry m j : fst entry <> j -> withText entry m !! j = m !! j.
Proof.
  intros H. unfold withText.
  destruct (truthy (snd entry)); [apply lookup_alter_ne, H | reflexivity].
Qed.

Lemma withText_eq id v m :
  withText (id, v) m !! id
  = if truthy v then textOf (show v) <$> m !! id else m !! id.
Proof.
  unfold withText. cbn [fst snd].
  destruct (truthy v); [apply lookup_alter_eq | reflexivity].
Qed.

Lemma setTextIf_run el id v w :
  (el = None <-> doc w !! id = None) ->
  setTextIf el id v w
  = (Normal tt, {| doc := withText (id, v) (doc w); console := console w |}).
Proof.
  intros P. unfold setTextIf, withText. cbn [fst snd]. destruct el as [n |].
  - destruct (truthy v); [reflexivity | destruct w; reflexivity].
  - rewrite alter_absent by (apply P; reflexivity).
    destruct (truthy v); destruct w; reflexivity.
Qed.

Ltac present := cbn [doc]; rewrite ?withText_None; reflexivity.

Lemma loadSiteMetadata_run config w :
  loadSiteMetadata (Some config) w
  = (Normal tt,
     {| doc := fold_left (fun m entry => withText entry m) (siteFields config) (doc w);
        console := console w |}).
Proof.
  unfold loadSiteMetadata, tryCatch.
  rewrite bind_get. (erewrite bind_run; [| apply setTextIf_run; present]).
  rewrite bind_get. (erewrite bind_run; [| apply setTextIf_run; present]).
  rewrite bind_get. (erewrite bind_run; [| apply setTextIf_run; present]).
  rewrite bind_get. rewrite bind_get.
  (erewrite bind_run; [| apply setTextIf_run; present]).
  (erewrite bind_run; [| apply setTextIf_run; present]).
  rewrite bind_get. (erewrite setTextIf_run; [| present]).
  reflexivity.
Qed.

Lemma loadBlogSiteMetadata_run config w :
  loadBlogSiteMetadata (Some config) w
  = (Normal tt,
     {| doc := fold_left (fun m entry => withText entry m) (blogSiteFields config) (doc w);
        console := console w |}).
Proof.
  unfold loadBlogSiteMetadata, tryCatch.
  rewrite bind_get. rewrite bind_get.
  (erewrite bind_run; [| apply setTextIf_run; present]).
  (erewrite setTextIf_run; [| present]).
  reflexivity.
Qed.

(** What a sequence of conditional text updates on distinct elements does
    to each element. *)
Lemma withText_fold_other fields : forall m id,
  ~ In id (List.map fst fields) ->
  fold_left (fun m entry => withText entry m) fields m !! id = m !! id.
Proof.
  induction fields as [|[i v] fields IH]; intros m id Hn; [reflexivity |].
  cbn [fold_left]. rewrite IH.
  - apply withText_ne. cbn. intros E. apply Hn. left. exact E.
  - intros H. apply Hn. right. exact H.
Qed.

Lemma withText_fold_in fields : forall m id v,
  NoDup (List.map fst fields) -> In (id, v) fields ->
  fold_left (fun m entry => withText entry m) fields m !! id
  = if truthy v then textOf (show v) <$> m !! id else m !! id.
Proof.
  induction fields as [|[i u] fields IH]; intros m id v Hd Hin; [destruct Hin |].
  cbn [List.map fst] in Hd. apply NoDup_cons in Hd. destruct Hd as [Hi Hd].
  cbn [fold_left]. destruct Hin as [E | Hin].
  - inversion E; subst. rewrite withText_fold_other.
    + apply withText_eq.
    + intros H. apply Hi. apply list_elem_of_In. exact H.
  - rewrite (IH _ id v Hd Hin).
    assert (Hne : i <> id).
    { intros ->. apply Hi. apply list_elem_of_In. apply in_map_iff. exists (id, v).
      split; [reflexivity | exact Hin]. }
    rewrite withText_ne by exact Hne. reflexivity.
Qed.

Section Layout.
Context `{Host}.

Lemma withHTML_None entry m j : withHTML entry m !! j = None <-> m !! j = None.
Proof. unfold withHTML. destruct (truthy (snd entry)); [apply lookup_alter_None | reflexivity]. Qed.

Lemma withHTML_ne entry m j : fst entry <> j -> withHTML entry m !! j = m !! j.
Proof.
  intros E. unfold withHTML.
  destruct (truthy (snd entry)); [apply lookup_alter_ne, E | reflexivity].
Qed.

Lemma withLicense_None footer m j : withLicense footer m !! j = None <-> m !! j = None.
Proof. unfold withLicense. destruct (truthy _); [apply lookup_alter_None | reflexivity]. Qed.

Lemma withLicense_ne footer m j :
  "footer-license"%string <> j -> withLicense footer m !! j = m !! j.
Proof.
  intros E. unfold withLicense.
  destruct (truthy _); [apply lookup_alter_ne, E | reflexivity].
Qed.

Lemma withLicense_eq footer m :
  withLicense footer m !! "footer-license"%string
  = if truthy (footer ≫= license_text)
    then licensed footer <$> m !! "footer-license"%string
    else m !! "footer-license"%string.
Proof. unfold withLicense. destruct (truthy _); [apply lookup_alter_eq | reflexivity]. Qed.

Lemma withNav_ne navigation m j : "nav-links"%string <> j -> withNav navigation m !! j = m !! j.
Proof.
  intros E. unfold withNav. destruct (m !! "nav-links"%string); [| reflexivity].
  destruct navigation; [apply lookup_insert_ne, E | reflexivity].
Qed.

Lemma withNav_None navigation m j : withNav navigation m !! j = None <-> m !! j = None.
Proof.
  unfold withNav. destruct (m !! "nav-links"%string) eqn:E; [| reflexivity].
  destruct navigation; [| reflexivity].
  destruct (decide ("nav-links"%string = j)) as [<- |].
  - rewrite lookup_insert_eq, E. split; discriminate.
  - rewrite lookup_insert_ne by assumption. reflexivity.
Qed.

Lemma updateSectionTitle_run id v w :
  updateSectionTitle id v w
  = (Normal tt, {| doc := withHTML (id, v) (doc w); console := console w |}).
Proof.
  unfold updateSectionTitle. rewrite bind_get. unfold withHTML. cbn [fst snd].
  destruct (doc w !! id) eqn:E.
  - destruct (truthy v); [reflexivity | destruct w; reflexivity].
  - rewrite alter_absent by exact E. destruct (truthy v); destruct w; reflexivity.
Qed.

Lemma setLicense_run el footer w :
  (el = None <-> doc w !! "footer-license"%string = None) ->
  setLicense el footer w
  = (Normal tt, {| doc := withLicense footer (doc w); console := console w |}).
Proof.
  intros P. unfold setLicense, withLicense. destruct el as [n |].
  - destruct (truthy _); [| destruct w; reflexivity].
    erewrite bind_run by reflexivity.
    unfold setTextContent, Dom.update. cbn [doc console].
    rewrite alter_twice. reflexivity.
  - rewrite alter_absent by (apply P; reflexivity).
    destruct (truthy _); destruct w; reflexivity.
Qed.

Lemma nav_run navigation w :
  (match doc w !! "nav-links"%string, navigation with
   | Some nav, Some navigation =>
       let themeButton := querySelectorId (js "theme-toggle") nav in
       setInnerHTML "nav-links" [];;
       forEach navigation (fun navItem => appendChild "nav-links" (navLink navItem));;
       match themeButton with
       | Some button => appendChild "nav-links" button
       | None => ret tt
       end
   | _, _ => ret tt
   end) w
  = (Normal tt, {| doc := withNav navigation (doc w); console := console w |}).
Proof.
  unfold withNav.
  destruct (doc w !! "nav-links"%string) as [nav |] eqn:E; [| destruct w; reflexivity].
  destruct navigation as [items |]; [| destruct w; reflexivity].
  cbv zeta.
  assert (E1 : setInnerHTML "nav-links" [] w
               = (Normal tt,
                  {| doc := <["nav-links"%string := withChildren nav []]> (doc w);
                     console := console w |})).
  { rewrite (setInnerHTML_run _ _ _ _ E), parseHTML_empty. reflexivity. }
  rewrite (bind_run _ _ _ _ _ E1).
  rewrite (bind_run _ _ _ _ _
             (TocFacts.forEach_append navLink "nav-links" items _ _ (lookup_insert_eq _ _ _))).
  cbn [doc console]. rewrite insert_insert_eq.
  unfold navChildren.
  destruct (querySelectorId (js "theme-toggle") nav) as [button |].
  - unfold appendChild, Dom.update. cbn [doc console].
    rewrite (JsFacts.alter_present _ _ _ _ (lookup_insert_eq _ _ _)).
    rewrite insert_insert_eq. f_equal. f_equal. f_equal.
    destruct nav; reflexivity.
  - cbn [option_list]. rewrite app_nil_r.
    destruct nav; reflexivity.
Qed.

Ltac present' :=
  cbn [doc]; rewrite ?withText_None, ?withHTML_None, ?withLicense_None, ?withNav_None;
  reflexivity.

Lemma loadLayoutConfiguration_run config w :
  loadLayoutConfiguration (Some config) w
  = (Normal tt,
     {| doc :=
          withLicense (layout config ≫= footer)
            (withText ("footer-year"%string, (layout config ≫= footer) ≫= year)
               (withText ("footer-tagline"%string, (layout config ≫= footer) ≫= tagline)
                  (withHTML ("media-heading"%string,
                             ((layout config ≫= sections) ≫= media) ≫= title)
                     (withHTML ("blog-heading"%string,
                                ((layout config ≫= sections) ≫= blog) ≫= title)
                        (withHTML ("publications-heading"%string,
                                   ((layout config ≫= sections) ≫= publications) ≫= title)
                           (withNav ((layout config ≫= header) ≫= navigation) (doc w)))))));
        console := console w |}).
Proof.
  unfold loadLayoutConfiguration, tryCatch.
  rewrite bind_get. rewrite (bind_run _ _ _ _ _ (nav_run _ _)).
  rewrite (bind_run _ _ _ _ _ (updateSectionTitle_run _ _ _)).
  rewrite (bind_run _ _ _ _ _ (updateSectionTitle_run _ _ _)).
  rewrite (bind_run _ _ _ _ _ (updateSectionTitle_run _ _ _)).
  rewrite !bind_get.
  (erewrite bind_run; [| apply setTextIf_run; present']).
  (erewrite bind_run; [| apply setTextIf_run; present']).
  (erewrite setLicense_run; [| present']).
  reflexivity.
Qed.

End Layout.

Lemma loadBlogLayoutConfiguration_run config w :
  loadBlogLayoutConfiguration (Some config) w
  = (Normal tt,
     {| doc :=
          withLicense (layout config ≫= footer)
            (withText ("footer-tagline"%string, (layout config ≫= footer) ≫= tagline)
               (withText ("footer-year"%string, (layout config ≫= footer) ≫= year) (doc w)));
        console := console w |}).
Proof.
  unfold loadBlogLayoutConfiguration, tryCatch.
  rewrite !bind_get.
  (erewrite bind_run; [| apply setTextIf_run; present]).
  (erewrite bind_run; [| apply setTextIf_run; present]).
  (erewrite setLicense_run; [| present]).
  reflexivity.
Qed.

Lemma textOf_twice text n : textOf text (textOf text n) = textOf text n.
Proof. destruct n; reflexivity. Qed.

Lemma withText_fold_twice fields m :
  NoDup (List.map fst fields) ->
  fold_left (fun m entry => withText entry m) fields
    (fold_left (fun m entry => withText entry m) fields m)
  = fold_left (fun m entry => withText entry m) fields m.
Proof.
  intros Hd. apply map_eq. intros id.
  destruct (in_dec string_dec id (List.map fst fields)) as [Hin | Hn].
  - apply in_map_iff in Hin. destruct Hin as ([i v] & E & Hin). cbn in E. subst i.
    rewrite (withText_fold_in fields _ id v Hd Hin).
    rewrite (withText_fold_in fields _ id v Hd Hin).
    destruct (truthy v); [| reflexivity].
    destruct (m !! id); [| reflexivity]. cbn. rewrite textOf_twice. reflexivity.
  - rewrite !withText_fold_other by exact Hn. reflexivity.
Qed.

End SiteFacts.

Module SiteExtras.
Import Simple SimpleFacts Site SiteDefs SiteFacts SiteSamples TimelineDefs.

(** X13.  [loadSiteMetadata] sets the text of its six elements and of nothing
    else: an element of the list receives the value that the configuration
    has for it when that value is a non-empty string and stays as it is
    otherwise; every other element stays as it is; nothing is logged and
    nothing is thrown.  Without a configuration the page stays as it is. *)
Theorem loadSiteMetadata_fields config w :
  loadSiteMetadata None w = (Normal tt, w) /\
  exists w',
    loadSiteMetadata (Some config) w = (Normal tt, w') /\
    console w' = console w /\
    (forall id v, In (id, v) (siteFields config) ->
       doc w' !! id = if truthy v then textOf (show v) <$> doc w !! id else doc w !! id) /\
    (forall id, ~ In id (List.map fst (siteFields config)) -> doc w' !! id = doc w !! id).
Proof.
  split; [reflexivity |].
  eexists. split; [apply loadSiteMetadata_run |]. cbn [doc console].
  split; [reflexivity |]. split.
  - intros id v Hin. apply withText_fold_in; [| exact Hin].
    apply (bool_decide_unpack _). vm_compute. reflexivity.
  - intros id Hn. apply withText_fold_other, Hn.
Qed.

Lemma loadSiteMetadata_fields_witness :
  exists w',
    loadSiteMetadata (Some sampleConfig) homePage = (Normal tt, w') /\
    doc w' !! "site-name"%string = Some (Elem "SPAN" ∅ [Text (js "Fabio")]) /\
    doc w' !! "role-affiliation"%string = Some (Elem "SPAN" ∅ [Text (js "Somewhere")]) /\
    doc w' !! "footer-year"%string = Some (Elem "SPAN" ∅ []).
Proof.
  destruct (loadSiteMetadata_fields sampleConfig homePage) as (_ & w' & R & _ & F & O).
  exists w'. split; [exact R |]. split; [| split].
  - rewrite (F "site-name"%string (Some (js "Fabio"))); [reflexivity |]. left. reflexivity.
  - rewrite (F "role-affiliation"%string None); [reflexivity |].
    right. right. right. right. left. reflexivity.
  - rewrite (O "footer-year"%string); [reflexivity |].
    cbn. intros E. repeat (destruct E as [E | E]; [discriminate E |]). exact E.
Defined.

(** X14.  Running [loadSiteMetadata] a second time changes nothing: the page
    and the outcome are those of the first run. *)
Theorem loadSiteMetadata_idempotent config w :
  loadSiteMetadata config (snd (loadSiteMetadata config w)) = loadSiteMetadata config w.
Proof.
  destruct config as [config |]; [| reflexivity].
  rewrite !loadSiteMetadata_run. cbn [snd doc console].
  rewrite withText_fold_twice; [reflexivity |].
  apply (bool_decide_unpack _). vm_compute. reflexivity.
Qed.

(** X15.  The loaders of the blog page treat the elements they share with the
    main page as the loaders of the main page do: after
    [loadBlogSiteMetadata] the site name and the footer name are what
    [loadSiteMetadata] makes of them, after [loadBlogLayoutConfiguration]
    the year, the tagline and the license link of the footer are what
    [loadLayoutConfiguration] makes of them, and the blog loaders leave every
    other element as it is. *)
Theorem blog_page_loaders_agree `{Host} config w :
  (forall id, In id ["site-name"; "footer-name"]%string ->
     doc (snd (loadBlogSiteMetadata config w)) !! id
     = doc (snd (loadSiteMetadata config w)) !! id) /\
  (forall id, ~ In id ["site-name"; "footer-name"]%string ->
     doc (snd (loadBlogSiteMetadata config w)) !! id = doc w !! id) /\
  (forall id, In id footerIds ->
     doc (snd (loadBlogLayoutConfiguration config w)) !! id
     = doc (snd (loadLayoutConfiguration config w)) !! id) /\
  (forall id, ~ In id footerIds ->
     doc (snd (loadBlogLayoutConfiguration config w)) !! id = doc w !! id).
Proof.
  destruct config as [config |]; [| repeat split; reflexivity].
  rewrite loadSiteMetadata_run, loadBlogSiteMetadata_run,
    loadLayoutConfiguration_run, loadBlogLayoutConfiguration_run.
  cbn [snd doc]. split; [| split; [| split]].
  - intros id Hin.
    assert (Hb : In id (List.map fst (blogSiteFields config))) by exact Hin.
    apply in_map_iff in Hb. destruct Hb as ([i v] & E & Hb). cbn in E. subst i.
    rewrite (withText_fold_in (blogSiteFields config) _ id v);
      [| apply (bool_decide_unpack _); vm_compute; reflexivity | exact Hb].
    rewrite (withText_fold_in (siteFields config) _ id v);
      [reflexivity | apply (bool_decide_unpack _); vm_compute; reflexivity |].
    destruct Hb as [E | [E | []]]; inversion E; subst; cbn; tauto.
  - intros id Hn. apply withText_fold_other. exact Hn.
  - intros id Hin. unfold footerIds in Hin.
    destruct Hin as [<- | [<- | [<- | []]]];
      repeat first
        [ rewrite withLicense_ne by discriminate
        | rewrite withText_ne by (cbn; discriminate)
        | rewrite withHTML_ne by (cbn; discriminate)
        | rewrite withNav_ne by discriminate
        | rewrite withText_eq
        | rewrite withLicense_eq ];
      reflexivity.
  - intros id Hn. unfold footerIds in Hn.
    rewrite withLicense_ne by (intros <-; apply Hn; cbn; tauto).
    rewrite !withText_ne by (cbn; intros <-; apply Hn; cbn; tauto).
    reflexivity.
Qed.

Lemma blog_page_loaders_agree_witness :
  doc (snd (loadBlogSiteMetadata (Some sampleConfig) homePage)) !! "site-name"%string
  = doc (snd (loadSiteMetadata (Some sampleConfig) homePage)) !! "site-name"%string /\
  doc (snd (loadBlogSiteMetadata (Some sampleConfig) homePage)) !! "nav-links"%string
  = doc homePage !! "nav-links"%string /\
  doc (snd (loadBlogLayoutConfiguration (Some sampleConfig) homePage)) !! "footer-year"%string
  = doc (snd (@loadLayoutConfiguration utcHost (Some sampleConfig) homePage))
      !! "footer-year"%string /\
  doc (snd (loadBlogLayoutConfiguration (Some sampleConfig) homePage)) !! "site-name"%string
  = doc homePage !! "site-name"%string.
Proof.
  destruct (@blog_page_loaders_agree utcHost (Some sampleConfig) homePage)
    as (A & B & C & D).
  split; [apply A; left; reflexivity |].
  split; [apply B; cbn; intros E; repeat (destruct E as [E | E]; [discriminate E |]); exact E |].
  split; [apply C; left; reflexivity |].
  apply D. cbn. intros E. repeat (destruct E as [E | E]; [discriminate E |]). exact E.
Defined.

(** X16.  [loadLayoutConfiguration] rebuilds the navigation bar: the bar holds
    one link per entry of the navigation in the order of the configuration
    and, behind them, the theme button if the bar had one before; whatever
    else the bar held is gone.  The button is never lost, and nothing is
    logged. *)
Theorem loadLayoutConfiguration_navigation `{Host} config w nav items :
  doc w !! "nav-links"%string = Some nav ->
  (layout config ≫= header) ≫= navigation = Some items ->
  exists w',
    loadLayoutConfiguration (Some config) w = (Normal tt, w') /\
    doc w' !! "nav-links"%string
    = Some (withChildren nav
              (List.map navLink items
               ++ option_list (querySelectorId (js "theme-toggle") nav))) /\
    (forall button, querySelectorId (js "theme-toggle") nav = Some button ->
       exists nav', doc w' !! "nav-links"%string = Some nav' /\
         length (childrenOf nav') = S (length items) /\
         last (childrenOf nav') = Some button) /\
    console w' = console w.
Proof.
  intros En Ei. eexists.
  split; [apply loadLayoutConfiguration_run |]. cbn [doc console].
  assert (E : withLicense (layout config ≫= footer)
                (withText ("footer-year"%string, (layout config ≫= footer) ≫= year)
                   (withText ("footer-tagline"%string, (layout config ≫= footer) ≫= tagline)
                      (withHTML ("media-heading"%string,
                                 ((layout config ≫= sections) ≫= media) ≫= title)
                         (withHTML ("blog-heading"%string,
                                    ((layout config ≫= sections) ≫= blog) ≫= title)
                            (withHTML ("publications-heading"%string,
                                       ((layout config ≫= sections) ≫= publications) ≫= title)
                               (withNav ((layout config ≫= header) ≫= navigation) (doc w)))))))
              !! "nav-links"%string
              = Some (withChildren nav (navChildren nav items))).
  { rewrite withLicense_ne by discriminate.
    rewrite !withText_ne by (cbn; discriminate).
    rewrite !withHTML_ne by (cbn; discriminate).
    unfold withNav. rewrite En, Ei. apply lookup_insert_eq. }
  split; [exact E |]. split; [| reflexivity].
  intros button Eb. eexists. split; [exact E |].
  destruct nav as [d | t p cs]; [discriminate Eb |].
  unfold navChildren. cbn [withChildren childrenOf]. rewrite Eb. cbn [option_list].
  split.
  - rewrite length_app, length_map. cbn. lia.
  - apply last_snoc.
Qed.

Lemma loadLayoutConfiguration_navigation_witness :
  exists w' nav',
    @loadLayoutConfiguration utcHost (Some sampleConfig) homePage = (Normal tt, w') /\
    doc w' !! "nav-links"%string = Some nav' /\
    length (childrenOf nav') = 3%nat /\
    last (childrenOf nav') = Some themeButton.
Proof.
  destruct (@loadLayoutConfiguration_navigation utcHost sampleConfig homePage
              (Elem "NAV" ∅ [Elem "A" ∅ [Text (js "Home")]; themeButton])
              [ {| nav_href := Some (js "#blog"); nav_label := Some (js "Blog") |};
                {| nav_href := Some (js "#media"); nav_label := Some (js "Media") |} ])
    as (w' & R & _ & B & _); [reflexivity | reflexivity |].
  destruct (B themeButton) as (nav' & N & L & T); [reflexivity |].
  exists w', nav'. split; [exact R |]. split; [exact N |]. split; [exact L | exact T].
Defined.



End SiteExtras.

(** ** Section loaders: properties *)

Module LoaderRunFacts.
Import SortDefs SortFacts Timeline TimelineDefs TimelineFacts Loaders LoaderFacts LoaderDefs
  SiteFacts.

Lemma mediaCard_cases item :
  (exists y, forall w, mediaCard item w = (Normal y, w)) \/
  (exists e, forall w, mediaCard item w = (Throw e, w)).
Proof.
  unfold mediaCard, formatField.
  destruct (media_title item); [| right; eexists; reflexivity].
  destruct (media_description item); [left | right]; eexists; reflexivity.
Qed.

Lemma mediaCard_complete item :
  mediaComplete item -> exists y, forall w, mediaCard item w = (Normal y, w).
Proof.
  intros [[t Et] [d Ed]]. unfold mediaCard, formatField. rewrite Et, Ed.
  eexists. reflexivity.
Qed.

Lemma mediaCard_incomplete item :
  ~ mediaComplete item -> exists e, forall w, mediaCard item w = (Throw e, w).
Proof.
  intros Hn. unfold mediaCard, formatField.
  destruct (media_title item) eqn:Et; [| eexists; reflexivity].
  destruct (media_description item) eqn:Ed; [| eexists; reflexivity].
  exfalso. apply Hn. split; [rewrite Et | rewrite Ed]; eexists; reflexivity.
Qed.

Lemma publicationCard_cases pub :
  (exists y, forall w, publicationCard pub w = (Normal y, w)) \/
  (exists e, forall w, publicationCard pub w = (Throw e, w)).
Proof.
  unfold publicationCard. destruct (authors pub); [left | right]; eexists; reflexivity.
Qed.

Lemma publicationCard_complete pub :
  hasAuthors pub -> exists y, forall w, publicationCard pub w = (Normal y, w).
Proof. intros [a Ea]. unfold publicationCard. cbv zeta. rewrite Ea. eexists. reflexivity. Qed.

Lemma publicationCard_incomplete pub :
  ~ hasAuthors pub -> exists e, forall w, publicationCard pub w = (Throw e, w).
Proof.
  intros Hn. unfold publicationCard. destruct (authors pub) eqn:Ea; [| eexists; reflexivity].
  exfalso. apply Hn. unfold hasAuthors. rewrite Ea. eexists. reflexivity.
Qed.

Lemma sort_map {A B} (f : A -> B) (cmpA : A -> A -> option Z) (cmpB : B -> B -> option Z) l :
  (forall x y, cmpB (f x) (f y) = cmpA x y) ->
  sort cmpB (List.map f l) = List.map f (sort cmpA l).
Proof.
  intros Hc.
  assert (Hi : forall x l, insert cmpB (f x) (List.map f l) = List.map f (insert cmpA x l)).
  { intros x l0. induction l0 as [|y l0 IH]; [reflexivity |].
    cbn [List.map insert]. unfold SortCompare. rewrite Hc.
    destruct (_ <=? 0)%Z; [reflexivity |]. cbn [List.map]. rewrite IH. reflexivity. }
  induction l as [|x l IH]; [reflexivity |].
  unfold sort in *. cbn [List.map fold_right]. rewrite IH. apply Hi.
Qed.

Lemma mapJs_map {A B C} (f : A -> B) (g : B -> Js C) l w :
  mapJs (List.map f l) g w = mapJs l (fun x => g (f x)) w.
Proof.
  revert w. induction l as [|x l IH]; intros w; [reflexivity |].
  cbn [List.map mapJs]. unfold mbind, Js_bind, bind.
  destruct (g (f x) w) as [[y | e] w1]; [| reflexivity].
  rewrite IH. reflexivity.
Qed.

Lemma Forall_or_Exists {A} (P : A -> Prop) l :
  (forall x, P x \/ ~ P x) -> Forall P l \/ Exists (fun x => ~ P x) l.
Proof.
  intros D. induction l as [|x l [IH | IH]].
  - left. constructor.
  - destruct (D x) as [Hx | Hx]; [left | right]; constructor; assumption.
  - right. constructor 2. exact IH.
Qed.

Section Runs.
Context `{Host}.

Lemma renders_dec item : renders item \/ ~ renders item.
Proof.
  unfold renders.
  destruct (textual_dec (end_date item)); destruct (textual_dec (description item)); tauto.
Qed.

Lemma loadTimeline_failed e w :
  loadTimeline (Throw e) w
  = (Normal tt,
     {| doc := doc w;
        console := console w ++ [js "Error loading YAML from content/timeline/timeline.yaml:"] |}).
Proof.
  unfold loadTimeline, tryCatch. rewrite (bind_run _ _ _ _ _ (loadYaml_run _ _ _)), bind_get.
  cbn [doc]. destruct (doc w !! "timeline-list"%string); reflexivity.
Qed.

Lemma loadTimeline_null w : loadTimeline (Normal None) w = (Normal tt, w).
Proof.
  unfold loadTimeline, tryCatch. rewrite (bind_run _ _ _ _ _ (loadYaml_loaded _ _ _)), bind_get.
  destruct (doc w !! "timeline-list"%string); reflexivity.
Qed.

Lemma loadBlogs_failed e w :
  loadBlogs (Throw e) w
  = (Normal tt,
     {| doc := doc w;
        console := console w ++ [js "Error loading YAML from content/blogs/blogs.yaml:"] |}).
Proof.
  unfold loadBlogs, tryCatch. rewrite (bind_run _ _ _ _ _ (loadYaml_run _ _ _)), bind_get.
  cbn [doc]. destruct (doc w !! "blog-list"%string); reflexivity.
Qed.

Lemma loadBlogs_null w : loadBlogs (Normal None) w = (Normal tt, w).
Proof.
  unfold loadBlogs, tryCatch. rewrite (bind_run _ _ _ _ _ (loadYaml_loaded _ _ _)), bind_get.
  destruct (doc w !! "blog-list"%string); reflexivity.
Qed.

Lemma loadBlogs_run blogs w el :
  doc w !! "blog-list"%string = Some el ->
  loadBlogs (Normal (Some blogs)) w
  = (Normal tt,
     {| doc := <["blog-list"%string :=
                   withChildren el (parseHTML (concat (List.map blogCard blogs)))]> (doc w);
        console := console w |}).
Proof.
  intros E. unfold loadBlogs, tryCatch.
  rewrite (bind_run _ _ _ _ _ (loadYaml_loaded _ _ _)), bind_get, E. cbv zeta.
  rewrite (setInnerHTML_run _ _ _ _ E), join_concat. reflexivity.
Qed.

(** A run of [loadTimeline]: the page it leaves and the lines it logs. *)
Lemma loadTimeline_outcome response w :
  exists w1 lines,
    loadTimeline response w = (Normal tt, w1) /\
    console w1 = console w ++ lines /\
    loadTimeline response w1
    = (Normal tt, {| doc := doc w1; console := console w1 ++ lines |}) /\
    (forall data, response = Normal data ->
       (forall l, data = Some l -> Forall renders l) -> lines = []).
Proof.
  destruct response as [[l |] | e].
  - destruct (doc w !! "timeline-list"%string) as [el |] eqn:E.
    + destruct (Forall_or_Exists renders l renders_dec) as [F | X].
      * destruct (rendersTo_exists renderItem renders (sort byStartDate l)
                    renderItem_renders) as [markups M].
        { apply List.Forall_forall. intros item Hi. apply sort_In in Hi.
          apply (proj1 (List.Forall_forall _ _) F), Hi. }
        eexists _, []. split; [apply (loadTimeline_run l markups w el E M) |].
        cbn [doc console]. split; [rewrite app_nil_r; reflexivity |].
        split; [| reflexivity].
        rewrite (loadTimeline_run l markups _ _ (lookup_insert_eq _ _ _) M).
        cbn [doc console]. rewrite app_nil_r, insert_insert_eq, TocFacts.withChildren_twice.
        reflexivity.
      * eexists _, [js "Error loading timeline:"].
        split; [apply (loadTimeline_throws l w el E X) |]. cbn [doc console].
        split; [reflexivity |]. split.
        -- exact (loadTimeline_throws l
                    {| doc := doc w; console := console w ++ [js "Error loading timeline:"] |}
                    el E X).
        -- intros data Ed Hr. injection Ed as <-. exfalso.
           apply List.Exists_exists in X. destruct X as (item & Hi & Hn).
           apply Hn, (proj1 (List.Forall_forall _ _) (Hr l eq_refl)), Hi.
    + exists w, []. rewrite (LoaderFacts.loadTimeline_absent _ w E), skipped_loaded.
      split; [reflexivity |]. split; [rewrite app_nil_r; reflexivity |].
      split; [destruct w; cbn; rewrite app_nil_r; reflexivity | reflexivity].
  - exists w, []. rewrite loadTimeline_null.
    split; [reflexivity |]. split; [rewrite app_nil_r; reflexivity |].
    split; [destruct w; cbn; rewrite app_nil_r; reflexivity | reflexivity].
  - eexists _, _. split; [apply loadTimeline_failed |]. cbn [doc console].
    split; [reflexivity |]. split; [apply loadTimeline_failed |]. discriminate.
Qed.

Lemma renderItemJs_throws item :
  ~ rendersJs item -> exists e, forall w, TimelineJs.renderItem item w = (Throw e, w).
Proof.
  intros N. exists (js "TypeError"). intros w. unfold TimelineJs.renderItem.
  destruct (textual_dec (TimelineJs.endDate item)) as [He | He].
  - destruct (yearRange_textual (TimelineJs.startDate item) _ He) as [range Hr].
    rewrite (bind_run _ _ _ _ _ (Hr w)). cbv zeta.
    apply bind_throw, description_other. intros Hd. apply N. split; assumption.
  - apply bind_throw, yearRange_other, He.
Qed.

(** Appending markup logs nothing. *)
Lemma appended_console markups : forall w,
  console (fold_left (fun w markup => snd (appendInnerHTML "timeline-list" markup w)) markups w)
  = console w.
Proof.
  induction markups as [|m markups IH]; intros w; [reflexivity |].
  cbn [fold_left]. rewrite IH. reflexivity.
Qed.

(** The loop of [timeline.js] up to the first entry that throws. *)
Lemma forEach_partial good bad rest markups e : forall w,
  rendersTo TimelineJs.renderItem good markups ->
  (forall w, TimelineJs.renderItem bad w = (Throw e, w)) ->
  forEach (good ++ bad :: rest)
    (fun item =>
       timelineHTML ← TimelineJs.renderItem item;
       appendInnerHTML "timeline-list" timelineHTML) w
  = (Throw e,
     fold_left (fun w markup => snd (appendInnerHTML "timeline-list" markup w)) markups w).
Proof.
  intros w R Hb. revert w. induction R as [|x y l ms Hx _ IH]; intros w.
  - cbn [app forEach fold_left].
    apply bind_throw, bind_throw, Hb.
  - cbn [app forEach fold_left].
    erewrite bind_run; [apply IH |].
    rewrite (bind_run _ _ _ _ _ (Hx w)). reflexivity.
Qed.

End Runs.

End LoaderRunFacts.

Module DescriptionFacts.
Import Simple SimpleDefs SimpleFacts TextDefs MatcherDefs MatcherFacts ReplaceFacts BlankFacts
  PatternFacts MarkdownFacts InlineFacts Timeline DescriptionDefs.

Lemma break_none before c s :
  negb ((c =? 10) && starts10 s) = true -> exec_at break_re before (c :: s) = None.
Proof.
  intros H. unfold exec_at. cbn [pattern fl ngroups break_re cat repeat].
  destruct (N.eqb_spec c 10) as [-> | Hc].
  - rewrite rmatch_Seq, rmatch_Chr by reflexivity.
    destruct s as [|d s]; [reflexivity |]. cbn -[N.eqb]. simpl in H.
    rewrite N.eqb_sym. destruct (d =? 10); [discriminate | reflexivity].
  - cbn -[N.eqb]. destruct (N.eqb_spec 10 c); [congruence | reflexivity].
Qed.

Lemma break_walk tmpl : forall p before s,
  blankFree p = true -> ends10 p = false ->
  replace_loop break_re tmpl before 0 (p ++ s)
  = p ++ replace_loop break_re tmpl (rev p ++ before) 0 s.
Proof.
  induction p as [|c p IH]; intros before s Hb He; [reflexivity |].
  rewrite blankFree_cons in Hb. apply andb_true_iff in Hb. destruct Hb as [H1 H2].
  rewrite ends10_cons in He.
  cbn [app]. rewrite replace_loop_pass.
  - destruct p as [|d p].
    + reflexivity.
    + rewrite IH by assumption. cbn [rev]. rewrite <- !app_assoc. reflexivity.
  - apply break_none. destruct p as [|d p].
    + rewrite He. reflexivity.
    + exact H1.
Qed.

Lemma break_match before s :
  exec_at break_re before (10 :: 10 :: s) = Some ([10; 10], []).
Proof.
  unfold exec_at. cbn [pattern fl ngroups break_re cat repeat].
  rewrite rmatch_Seq, rmatch_Chr by reflexivity. rewrite rmatch_Chr by reflexivity.
  f_equal. f_equal. apply advances_consumed. reflexivity.
Qed.

Lemma nat_ind2 (P : nat -> Prop) :
  P 0%nat -> P 1%nat -> (forall n, P n -> P (S (S n))) -> forall n, P n.
Proof.
  intros H0 H1 HS n. assert (H : P n /\ P (S n)); [| exact (proj1 H)].
  induction n as [|n [IH1 IH2]]; [split; assumption |].
  split; [exact IH2 | apply HS, IH1].
Qed.

(** A run of newlines before a code unit that is none. *)
Lemma break_run run : forall before s,
  starts10 s = false ->
  replace_loop break_re paragraph_tmpl before 0 (repeat 10 run ++ s)
  = breaks run ++ replace_loop break_re paragraph_tmpl (rev (repeat 10 run) ++ before) 0 s.
Proof.
  induction run as [| |run IH] using nat_ind2; intros before s Hs.
  - reflexivity.
  - cbn [repeat app]. rewrite replace_loop_pass; [reflexivity |].
    apply break_none. rewrite Hs. reflexivity.
  - change (repeat 10 (S (S run)) ++ s) with ([10; 10] ++ repeat 10 run ++ s).
    rewrite (replace_loop_match break_re paragraph_tmpl before [10; 10] (repeat 10 run ++ s) []);
      [| discriminate | apply break_match].
    rewrite IH by exact Hs.
    unfold breaks.
    replace (S (S run)) with (run + 1 * 2)%nat by lia.
    rewrite Nat.div_add, Nat.Div0.mod_add by lia.
    rewrite Nat.add_1_r. cbn [repeat concat].
    replace (run + 1 * 2)%nat with (S (S run)) by lia.
    cbn [repeat rev]. rewrite <- !app_assoc. reflexivity.
Qed.

Lemma break_loop : forall others p before,
  plainParagraph p -> Forall plainParagraph (List.map snd others) ->
  replace_loop break_re paragraph_tmpl before 0 (paragraphs p others)
  = p ++ concat (List.map (fun '(extra, q) => breaks (S (S extra)) ++ q) others).
Proof.
  induction others as [|[extra q] others IH]; intros p before Hp Ho.
  - unfold paragraphs. cbn [List.map concat].
    destruct Hp as (_ & Hb & _ & He & _).
    rewrite break_walk by assumption. reflexivity.
  - rewrite paragraphs_cons.
    destruct Hp as (_ & Hb & _ & He & _).
    rewrite break_walk by assumption. f_equal.
    inversion Ho as [|? ? Hq Ho']; subst.
    assert (Hs : starts10 (paragraphs q others) = false).
    { rewrite starts10_paragraphs; apply Hq. }
    rewrite break_run by exact Hs.
    rewrite IH by assumption. cbn [List.map concat]. rewrite <- !app_assoc. reflexivity.
Qed.

Lemma description_paragraphs p others :
  plainParagraph p -> Forall plainParagraph (List.map snd others) ->
  replace break_re paragraph_tmpl (formatInlineMarkdown (paragraphs p others))
  = p ++ concat (List.map (fun '(extra, q) => breaks (S (S extra)) ++ q) others).
Proof.
  intros Hp Ho. rewrite format_unmarked.
  - unfold replace. cbn [fl break_re global g]. apply break_loop; assumption.
  - apply paragraphs_absent; [discriminate | apply Hp |].
    eapply Forall_impl; [exact Ho |]. intros q Hq. apply Hq.
  - apply paragraphs_absent; [discriminate | apply Hp |].
    eapply Forall_impl; [exact Ho |]. intros q Hq. apply Hq.
Qed.

End DescriptionFacts.

Module DescriptionExtras.
Import Simple SimpleDefs SimpleFacts TextDefs Timeline TimelineDefs TimelineFacts
  DescriptionDefs DescriptionFacts LoaderDefs.

(** X6.  Paragraphs in the description of a timeline entry: between plain
    paragraphs every two newlines give one paragraph break, so that a run of
    four newlines leaves an empty paragraph and the odd newline of a run
    stays in the text; a single newline is kept.  An entry without
    description, or with one that counts as false, has an empty description
    paragraph; with a description that is neither a string nor counts as
    false the callback throws.  Both timeline loaders render the description
    in this way. *)
Theorem renderItem_description `{Host} item :
  (forall first others range w,
     plainParagraph first -> Forall plainParagraph (List.map snd others) ->
     description item = VStr (paragraphs first others) ->
     yearRange (start_date item) (end_date item) w = (Normal range, w) ->
     renderItem item w
     = (Normal
          (timelineHTML range
             (logoHTML (url item) (logo item) (organization item))
             (first ++ concat (List.map (fun '(extra, p) => breaks (S (S extra)) ++ p) others))),
        w)) /\
  (forall range w,
     ToBoolean (description item) = false ->
     yearRange (start_date item) (end_date item) w = (Normal range, w) ->
     renderItem item w
     = (Normal (timelineHTML range (logoHTML (url item) (logo item) (organization item)) []),
        w)) /\
  (forall w, ~ textual (description item) -> exists e, renderItem item w = (Throw e, w)) /\
  (forall entry w, toYaml entry = item -> TimelineJs.renderItem entry w = renderItem item w).
Proof.
  split; [| split; [| split]].
  - intros first others range w Hf Ho Ed Ey.
    rewrite (renderItem_run item range (paragraphs first others) w Ey).
    + rewrite description_paragraphs by assumption. reflexivity.
    + rewrite Ed. unfold orValue.
      destruct Hf as (Hne & _). unfold paragraphs.
      destruct first; [congruence | reflexivity].
  - intros range w Ht Ey. rewrite (renderItem_run item range [] w Ey); [reflexivity |].
    unfold orValue. rewrite Ht. reflexivity.
  - intros w Hn. destruct (renderItem_throws item) as [e He]; [| exists e; apply He].
    intros [_ Hd]. exact (Hn Hd).
  - intros entry w <-. reflexivity.
Qed.

Lemma renderItem_description_witness :
  @renderItem utcHost (described (js "Joined." ++ nl ++ nl ++ nl ++ nl ++ js "Left."))
    timelineOnly
  = (Normal
       (@timelineHTML (js "2024 -")
          (js "<img src=" ++ dq ++ js "undefined" ++ dq ++ js " alt=" ++ dq
           ++ js "undefined" ++ dq ++ js " class=" ++ dq ++ js "timeline-logo" ++ dq ++ js ">")
          (js "Joined." ++ paragraph_tmpl ++ paragraph_tmpl ++ js "Left.")),
     timelineOnly) /\
  @renderItem utcHost (described []) timelineOnly
  = (Normal
       (@timelineHTML (js "2024 -")
          (js "<img src=" ++ dq ++ js "undefined" ++ dq ++ js " alt=" ++ dq
           ++ js "undefined" ++ dq ++ js " class=" ++ dq ++ js "timeline-logo" ++ dq ++ js ">")
          []),
     timelineOnly) /\
  (exists e,
     @renderItem utcHost
       {| start_date := VStr (js "2024"); end_date := VUndefined;
          description := VNum (Some 7%Z); url := VUndefined; logo := VUndefined;
          organization := VUndefined |} timelineOnly
     = (Throw e, timelineOnly)) /\
  @TimelineJs.renderItem utcHost
    {| TimelineJs.startDate := VStr (js "2024"); TimelineJs.endDate := VUndefined;
       TimelineJs.description := VStr []; TimelineJs.url := VUndefined;
       TimelineJs.logo := VUndefined; TimelineJs.organization := VUndefined |}
    timelineOnly
  = @renderItem utcHost (described []) timelineOnly.
Proof.
  assert (P : forall p, p <> [] -> blankFree p = true -> starts10 p = false ->
              ends10 p = false -> forallb (fun c => negb (c =? 42) && negb (c =? 91)) p = true ->
              plainParagraph p).
  { intros p H1 H2 H3 H4 H5. repeat split; try assumption.
    - intros Hin. apply (proj1 (forallb_forall _ _) H5) in Hin. discriminate Hin.
    - intros Hin. apply (proj1 (forallb_forall _ _) H5) in Hin. discriminate Hin. }
  destruct (@renderItem_description utcHost
              (described (js "Joined." ++ nl ++ nl ++ nl ++ nl ++ js "Left."))) as (R & _).
  destruct (@renderItem_description utcHost (described [])) as (_ & E & _ & J).
  destruct (@renderItem_description utcHost
              {| start_date := VStr (js "2024"); end_date := VUndefined;
                 description := VNum (Some 7%Z); url := VUndefined; logo := VUndefined;
                 organization := VUndefined |}) as (_ & _ & T & _).
  split; [| split; [| split]].
  - rewrite (R (js "Joined.") [(2%nat, js "Left.")] (js "2024 -") timelineOnly).
    + reflexivity.
    + apply P; [discriminate | reflexivity ..].
    + constructor; [| constructor]. apply P; [discriminate | reflexivity ..].
    + reflexivity.
    + reflexivity.
  - rewrite (E (js "2024 -") timelineOnly eq_refl eq_refl). reflexivity.
  - apply T. intros [[s Es] | F]; [discriminate Es | discriminate F].
  - apply J. reflexivity.
Defined.

End DescriptionExtras.

Module LoaderExtras.
Import MatcherDefs SortDefs SortFacts Timeline TimelineDefs TimelineFacts Loaders LoaderFacts
  LoaderDefs LoaderRunFacts SiteFacts TocFacts.

(** X10.  [loadMedia] renders all items or none: when every item has a title
    and a description, the list receives the cards of all items and nothing
    is logged; when one item lacks either, the list keeps what it had, one
    line is logged, and nothing is thrown. *)
Theorem loadMedia_all_or_nothing `{Host} mediaItems w el :
  doc w !! "media-list"%string = Some el ->
  (Forall mediaComplete mediaItems ->
   exists cards,
     rendersTo mediaCard mediaItems cards /\
     loadMedia (Normal (Some mediaItems)) w
     = (Normal tt,
        {| doc := <["media-list"%string := withChildren el (parseHTML (concat cards))]> (doc w);
           console := console w |})) /\
  (Exists (fun item => ~ mediaComplete item) mediaItems ->
   loadMedia (Normal (Some mediaItems)) w
   = (Normal tt, {| doc := doc w; console := console w ++ [js "Error loading media:"] |})).
Proof.
  intros E. split.
  - intros F. destruct (rendersTo_exists mediaCard mediaComplete mediaItems mediaCard_complete F)
      as [cards R].
    exists cards. split; [exact R |].
    unfold loadMedia, tryCatch.
    rewrite (bind_run _ _ _ _ _ (loadYaml_loaded _ _ _)), bind_get, E.
    rewrite (bind_run _ _ _ _ _ (mapJs_all _ _ _ w R)).
    rewrite (setInnerHTML_run _ _ _ _ E), join_concat. reflexivity.
  - intros X. unfold loadMedia, tryCatch.
    rewrite (bind_run _ _ _ _ _ (loadYaml_loaded _ _ _)), bind_get, E.
    destruct (mapJs_throw mediaCard mediaItems w mediaCard_cases) as [e He].
    { eapply Exists_impl; [exact X |]. intros item Hn. apply mediaCard_incomplete, Hn. }
    unfold mbind, Js_bind, bind. rewrite He. reflexivity.
Qed.

Lemma loadMedia_all_or_nothing_witness :
  (exists cards,
     @loadMedia utcHost (Normal (Some [clip (Some (js "*Talk*"))])) mediaOnly
     = (Normal tt,
        {| doc := <["media-list"%string := Elem "DIV" ∅ [Text (concat cards)]]> (doc mediaOnly);
           console := [] |})) /\
  @loadMedia utcHost (Normal (Some [clip (Some (js "Talk")); clip None])) mediaOnly
  = (Normal tt, {| doc := doc mediaOnly; console := [js "Error loading media:"] |}).
Proof.
  destruct (@loadMedia_all_or_nothing utcHost [clip (Some (js "*Talk*"))] mediaOnly
              (Elem "DIV" ∅ [Text (js "old")]) eq_refl) as (A & _).
  destruct (@loadMedia_all_or_nothing utcHost [clip (Some (js "Talk")); clip None] mediaOnly
              (Elem "DIV" ∅ [Text (js "old")]) eq_refl) as (_ & B).
  split.
  - destruct A as (cards & M & R).
    + repeat constructor; eexists; reflexivity.
    + inversion M as [|? card ? rest Hc Hr]; subst. inversion Hr; subst.
      specialize (Hc mediaOnly). vm_compute in Hc. injection Hc as <-.
      eexists. exact R.
  - apply B. right. left. intros [[t Et] _]. discriminate Et.
Defined.

(** X11.  [loadPublications] renders all publications or none: when every
    publication has its authors, the list receives the cards of all of them,
    whatever else is missing, and nothing is logged; when one publication has
    no authors, the list keeps what it had, one line is logged, and nothing
    is thrown. *)
Theorem loadPublications_all_or_nothing `{Host} publications w el :
  doc w !! "publications-list"%string = Some el ->
  (Forall hasAuthors publications ->
   exists cards,
     rendersTo publicationCard publications cards /\
     loadPublications (Normal (Some publications)) w
     = (Normal tt,
        {| doc := <["publications-list"%string :=
                      withChildren el (parseHTML (concat cards))]> (doc w);
           console := console w |})) /\
  (Exists (fun pub => ~ hasAuthors pub) publications ->
   loadPublications (Normal (Some publications)) w
   = (Normal tt,
      {| doc := doc w; console := console w ++ [js "Error loading publications:"] |})).
Proof.
  intros E. split.
  - intros F.
    destruct (rendersTo_exists publicationCard hasAuthors publications
                publicationCard_complete F) as [cards R].
    exists cards. split; [exact R |].
    unfold loadPublications, tryCatch.
    rewrite (bind_run _ _ _ _ _ (loadYaml_loaded _ _ _)), bind_get, E.
    rewrite (bind_run _ _ _ _ _ (mapJs_all _ _ _ w R)).
    rewrite (setInnerHTML_run _ _ _ _ E), join_concat. reflexivity.
  - intros X. unfold loadPublications, tryCatch.
    rewrite (bind_run _ _ _ _ _ (loadYaml_loaded _ _ _)), bind_get, E.
    destruct (mapJs_throw publicationCard publications w publicationCard_cases) as [e He].
    { eapply Exists_impl; [exact X |]. intros pub Hn. apply publicationCard_incomplete, Hn. }
    unfold mbind, Js_bind, bind. rewrite He. reflexivity.
Qed.

Lemma loadPublications_all_or_nothing_witness :
  (exists cards,
     @loadPublications utcHost (Normal (Some [article (Some (js "F. Fehr"))]))
       publicationsOnly
     = (Normal tt,
        {| doc := <["publications-list"%string := Elem "DIV" ∅ [Text (concat cards)]]>
                    (doc publicationsOnly);
           console := [] |})) /\
  @loadPublications utcHost (Normal (Some [article None; article (Some (js "F. Fehr"))]))
    publicationsOnly
  = (Normal tt,
     {| doc := doc publicationsOnly; console := [js "Error loading publications:"] |}).
Proof.
  destruct (@loadPublications_all_or_nothing utcHost [article (Some (js "F. Fehr"))]
              publicationsOnly (Elem "DIV" ∅ []) eq_refl) as (A & _).
  destruct (@loadPublications_all_or_nothing utcHost
              [article None; article (Some (js "F. Fehr"))]
              publicationsOnly (Elem "DIV" ∅ []) eq_refl) as (_ & B).
  split.
  - destruct A as (cards & M & R).
    + repeat constructor; eexists; reflexivity.
    + inversion M as [|? card ? rest Hc Hr]; subst. inversion Hr; subst.
      specialize (Hc publicationsOnly). vm_compute in Hc. injection Hc as <-.
      eexists. exact R.
  - apply B. left. intros [a Ea]. discriminate Ea.
Defined.

(** X12.  [loadSocialLinks] adds to what the container holds: the links of the
    contacts are appended behind the children it has, in the order of the
    configuration, so that a second run appends the same links once more. *)
Theorem loadSocialLinks_appends `{Host} config links w el :
  doc w !! "profile-socials"%string = Some el ->
  contacts config = Some links ->
  let after n :=
    {| doc := <["profile-socials"%string :=
                  withChildren el
                    (childrenOf el ++ concat (repeat (List.map socialLink links) n))]> (doc w);
       console := console w |} in
  loadSocialLinks (Some config) w = (Normal tt, after 1%nat) /\
  loadSocialLinks (Some config) (after 1%nat) = (Normal tt, after 2%nat).
Proof.
  intros E Ec after.
  assert (R : forall w0 el0, doc w0 !! "profile-socials"%string = Some el0 ->
            loadSocialLinks (Some config) w0
            = (Normal tt,
               {| doc := <["profile-socials"%string :=
                             withChildren el0 (childrenOf el0 ++ List.map socialLink links)]>
                           (doc w0);
                  console := console w0 |})).
  { intros w0 el0 E0. unfold loadSocialLinks, tryCatch. rewrite Ec, bind_get, E0.
    rewrite (forEach_append socialLink "profile-socials" links w0 el0 E0). reflexivity. }
  split.
  - rewrite (R w el E). unfold after. cbn [repeat concat]. rewrite app_nil_r. reflexivity.
  - rewrite (R (after 1%nat) _ (lookup_insert_eq _ _ _)).
    unfold after. cbn [doc console repeat concat]. rewrite insert_insert_eq, !app_nil_r.
    destruct el as [d | t p cs]; cbn [withChildren childrenOf]; [reflexivity |].
    rewrite <- app_assoc. reflexivity.
Qed.

Lemma loadSocialLinks_appends_witness :
  @loadSocialLinks utcHost (Some {| contacts := Some [mail] |}) socialsOnly
  = (Normal tt,
     {| doc := <["profile-socials"%string :=
                   Elem "DIV" ∅ [Text (js "old"); @socialLink utcHost mail]]> (doc socialsOnly);
        console := [] |}).
Proof.
  destruct (@loadSocialLinks_appends utcHost {| contacts := Some [mail] |} [mail] socialsOnly
              (Elem "DIV" ∅ [Text (js "old")]) eq_refl eq_refl) as (A & _).
  exact A.
Defined.

(** X9.  The loaders that assign the markup of their list can run again:
    the second run of [loadTimeline] or [loadBlogs] with the same outcome of
    loading leaves the page as the first run left it and logs once more what
    the first run logged.  When the data was loaded and every entry renders,
    that is nothing, and the second run changes nothing at all; when an
    entry of the timeline does not render, it is the line of the handler,
    and when loading failed, the line of [loadYaml]. *)
Theorem loaders_rerun `{Host} timeline blogs w :
  (exists w1 lines,
     loadTimeline timeline w = (Normal tt, w1) /\
     console w1 = console w ++ lines /\
     loadTimeline timeline w1
     = (Normal tt, {| doc := doc w1; console := console w1 ++ lines |}) /\
     (forall data, timeline = Normal data ->
        (forall l, data = Some l -> Forall renders l) ->
        lines = [] /\ loadTimeline timeline w1 = (Normal tt, w1)) /\
     (forall l el, timeline = Normal (Some l) ->
        doc w !! "timeline-list"%string = Some el ->
        Exists (fun item => ~ renders item) l ->
        lines = [js "Error loading timeline:"] /\ doc w1 = doc w) /\
     (forall e, timeline = Throw e ->
        lines = [js "Error loading YAML from content/timeline/timeline.yaml:"] /\
        doc w1 = doc w)) /\
  (exists w1,
     loadBlogs blogs w = (Normal tt, w1) /\
     console w1 = console w ++ yamlFailure "content/blogs/blogs.yaml" blogs /\
     loadBlogs blogs w1
     = (Normal tt,
        {| doc := doc w1;
           console := console w1 ++ yamlFailure "content/blogs/blogs.yaml" blogs |}) /\
     (forall data, blogs = Normal data -> loadBlogs blogs w1 = (Normal tt, w1)) /\
     (forall e, blogs = Throw e -> doc w1 = doc w)).
Proof.
  split.
  - destruct (loadTimeline_outcome timeline w) as (w1 & lines & R1 & C1 & R2 & L).
    exists w1, lines. split; [exact R1 |]. split; [exact C1 |]. split; [exact R2 |].
    split; [| split].
    + intros data Ed Hr. specialize (L data Ed Hr). split; [exact L |].
      rewrite R2, L. destruct w1; cbn; rewrite app_nil_r; reflexivity.
    + intros l el -> E X. rewrite (loadTimeline_throws l w el E X) in R1. injection R1 as <-.
      cbn [console doc] in *. split; [| reflexivity].
      apply app_inv_head in C1. symmetry. exact C1.
    + intros e ->. rewrite loadTimeline_failed in R1. injection R1 as <-.
      cbn [console doc] in *. split; [| reflexivity].
      apply app_inv_head in C1. symmetry. exact C1.
  - destruct blogs as [[l |] | e].
    + destruct (doc w !! "blog-list"%string) as [el |] eqn:E.
      * eexists. split; [apply (loadBlogs_run l w el E) |]. cbn [doc console yamlFailure].
        split; [rewrite app_nil_r; reflexivity |].
        assert (R2 : loadBlogs (Normal (Some l))
                       {| doc := <["blog-list"%string :=
                                     withChildren el
                                       (parseHTML (concat (List.map blogCard l)))]> (doc w);
                          console := console w |}
                     = (Normal tt,
                        {| doc := <["blog-list"%string :=
                                      withChildren el
                                        (parseHTML (concat (List.map blogCard l)))]> (doc w);
                           console := console w |})).
        { rewrite (loadBlogs_run l _ _ (lookup_insert_eq _ _ _)). cbn [doc console].
          rewrite insert_insert_eq, TocFacts.withChildren_twice. reflexivity. }
        split; [rewrite R2, app_nil_r; reflexivity |].
        split; [intros data _; exact R2 | discriminate].
      * exists w. rewrite (LoaderFacts.loadBlogs_absent _ w E), skipped_loaded.
        cbn [yamlFailure]. split; [reflexivity |]. split; [rewrite app_nil_r; reflexivity |].
        split; [destruct w; cbn; rewrite app_nil_r; reflexivity |].
        split; [reflexivity | discriminate].
    + exists w. rewrite loadBlogs_null. cbn [yamlFailure].
      split; [reflexivity |]. split; [rewrite app_nil_r; reflexivity |].
      split; [destruct w; cbn; rewrite app_nil_r; reflexivity |].
      split; [reflexivity | discriminate].
    + eexists. split; [apply loadBlogs_failed |]. cbn [doc console yamlFailure].
      split; [reflexivity |]. split; [apply loadBlogs_failed |].
      split; [discriminate | reflexivity].
Qed.

Lemma loaders_rerun_witness :
  (exists w1,
     @loadTimeline utcHost (Normal (Some [entry "2021" VUndefined])) timelineOnly
     = (Normal tt, w1) /\
     @loadTimeline utcHost (Normal (Some [entry "2021" VUndefined])) w1 = (Normal tt, w1)) /\
  (exists w1,
     @loadTimeline utcHost (Throw (js "TypeError")) timelineOnly = (Normal tt, w1) /\
     console w1 = [js "Error loading YAML from content/timeline/timeline.yaml:"] /\
     doc w1 = doc timelineOnly) /\
  (exists w1,
     @loadBlogs utcHost (Throw (js "TypeError")) blogOnly = (Normal tt, w1) /\
     console (snd (@loadBlogs utcHost (Throw (js "TypeError")) w1))
     = [js "Error loading YAML from content/blogs/blogs.yaml:";
        js "Error loading YAML from content/blogs/blogs.yaml:"]).
Proof.
  split; [| split].
  - destruct (@loaders_rerun utcHost (Normal (Some [entry "2021" VUndefined])) (Normal None)
                timelineOnly) as ((w1 & lines & R1 & _ & _ & N & _ & _) & _).
    exists w1. split; [exact R1 |].
    apply (N (Some [entry "2021" VUndefined]) eq_refl).
    intros l E. injection E as <-. repeat constructor; right; reflexivity.
  - destruct (@loaders_rerun utcHost (Throw (js "TypeError")) (Normal None)
                timelineOnly) as ((w1 & lines & R1 & C1 & _ & _ & _ & T) & _).
    destruct (T (js "TypeError") eq_refl) as [L D].
    exists w1. split; [exact R1 |]. split; [rewrite C1, L; reflexivity | exact D].
  - destruct (@loaders_rerun utcHost (Normal None) (Throw (js "TypeError")) blogOnly)
      as (_ & (w1 & R1 & C1 & R2 & _)).
    exists w1. split; [exact R1 |]. rewrite R2. cbn [snd console]. rewrite C1. reflexivity.
Defined.

(** X7.  The two timeline loaders produce the same markup in the same order:
    the entries of [timeline.json], sorted and rendered by [timeline.js], give
    what [js/main.js] gives for the entries with the same values, and where
    the one throws, so does the other. *)
Theorem timeline_loaders_same_markup `{Host} timeline w :
  mapJs (sort TimelineJs.byStartDate timeline) TimelineJs.renderItem w
  = mapJs (sort byStartDate (List.map toYaml timeline)) renderItem w.
Proof.
  rewrite (sort_map toYaml TimelineJs.byStartDate byStartDate) by reflexivity.
  rewrite mapJs_map. reflexivity.
Qed.

(** X8.  No entry of the timeline is lost or repeated, whatever the start
    dates are: when every entry renders, that is, its end date and its
    description are strings or count as false, the entries that
    [loadTimeline] renders are the entries it was given, in some order, also
    when start dates are missing or cannot be parsed.  When one entry does
    not render, none is rendered: the list keeps what it had and one line is
    logged. *)
Theorem loadTimeline_keeps_every_entry `{Host} timeline w el :
  doc w !! "timeline-list"%string = Some el ->
  (Forall renders timeline ->
   exists order markups,
     Permutation order timeline /\
     rendersTo renderItem order markups /\
     length markups = length timeline /\
     loadTimeline (Normal (Some timeline)) w
     = (Normal tt,
        {| doc := <["timeline-list"%string :=
                      withChildren el (parseHTML (concat markups))]> (doc w);
           console := console w |})) /\
  (Exists (fun item => ~ renders item) timeline ->
   loadTimeline (Normal (Some timeline)) w
   = (Normal tt, {| doc := doc w; console := console w ++ [js "Error loading timeline:"] |})).
Proof.
  intros E. split.
  - intros F.
    destruct (rendersTo_exists renderItem renders (sort byStartDate timeline)
                renderItem_renders) as [markups M].
    { apply List.Forall_forall. intros item Hi. apply sort_In in Hi.
      apply (proj1 (List.Forall_forall _ _) F), Hi. }
    exists (sort byStartDate timeline), markups.
    split; [apply sort_perm |]. split; [exact M |]. split.
    + rewrite <- (Forall2_length _ _ _ M). apply Permutation_length, sort_perm.
    + apply (loadTimeline_run timeline markups w el E M).
  - intros X. apply (loadTimeline_throws timeline w el E X).
Qed.

Lemma loadTimeline_keeps_every_entry_witness :
  (exists order markups,
     Permutation order [entry "soon" VUndefined; entry "2021" (VStr (js "2023"))] /\
     length markups = 2%nat /\
     @loadTimeline utcHost
       (Normal (Some [entry "soon" VUndefined; entry "2021" (VStr (js "2023"))])) timelineOnly
     = (Normal tt,
        {| doc := <["timeline-list"%string := Elem "DIV" ∅ [Text (concat markups)]]>
                    (doc timelineOnly);
           console := [] |})) /\
  @loadTimeline utcHost
    (Normal (Some [entry "2020" VUndefined; entry "2021" (VNum (Some 2023%Z))])) timelineOnly
  = (Normal tt, {| doc := doc timelineOnly; console := [js "Error loading timeline:"] |}).
Proof.
  split.
  - destruct (@loadTimeline_keeps_every_entry utcHost
                [entry "soon" VUndefined; entry "2021" (VStr (js "2023"))]
                timelineOnly (Elem "DIV" ∅ []) (lookup_singleton_eq _ _))
      as (K & _).
    destruct K as (order & markups & P & M & L & R).
    + constructor; [split; right; reflexivity |].
      constructor; [split; [left; eexists; reflexivity | right; reflexivity] | constructor].
    + exists order, markups. split; [exact P |]. split; [exact L |].
      assert (N : concat markups <> []).
      { inversion M as [|item m ? rest Hm Hr]; subst; [discriminate L |].
        destruct (renderItem_year item m timelineOnly (Hm timelineOnly))
          as (range & _ & before & after & ->).
        destruct before; discriminate. }
      rewrite R. cbn [parseHTML utcHost].
      destruct (concat markups); [congruence | reflexivity].
  - destruct (@loadTimeline_keeps_every_entry utcHost
                [entry "2020" VUndefined; entry "2021" (VNum (Some 2023%Z))]
                timelineOnly (Elem "DIV" ∅ []) (lookup_singleton_eq _ _))
      as (_ & T).
    apply T. right. left. intros [[[s Es] | F] _]; [discriminate Es | discriminate F].
Defined.

(** X26.  The year that the timeline shows for a start date written as a
    year alone: the date is read as midnight UTC on the first of January of
    that year, whatever the runtime, and the year range of an entry without
    end date begins with that year in a time zone at UTC or east of it, and
    with the year before in a time zone west of UTC. *)
Theorem yearRange_of_year_alone `{Host} y w :
  (0 <= y <= 9999)%Z ->
  newDate (VStr (year4 y)) = Some (TimeFromYear y) /\
  ((0 <= LocalTZA (TimeFromYear y) < msPerDay)%Z ->
   yearRange (VStr (year4 y)) VUndefined w = (Normal (zToString y ++ js " -"), w)) /\
  ((- msPerDay < LocalTZA (TimeFromYear y) < 0)%Z ->
   yearRange (VStr (year4 y)) VUndefined w = (Normal (zToString (y - 1) ++ js " -"), w)).
Proof.
  intros B. split; [apply newDate_year4, B |]. split; intros Z; unfold yearRange.
  - rewrite getFullYear_east by assumption. reflexivity.
  - rewrite getFullYear_west by assumption. reflexivity.
Qed.

Lemma yearRange_of_year_alone_witness :
  @yearRange utcHost (VStr (js "2022")) VUndefined timelineOnly
  = (Normal (js "2022 -"), timelineOnly) /\
  @yearRange westHost (VStr (js "2022")) VUndefined timelineOnly
  = (Normal (js "2021 -"), timelineOnly).
Proof.
  destruct (@yearRange_of_year_alone utcHost 2022%Z timelineOnly) as (_ & E & _); [lia |].
  destruct (@yearRange_of_year_alone westHost 2022%Z timelineOnly) as (_ & _ & W); [lia |].
  split.
  - apply E. cbn. unfold msPerDay. lia.
  - apply W. cbn. unfold msPerDay. lia.
Defined.

(** X27.  The two timeline loaders differ when an entry does not render:
    [timeline.js] appends entry by entry, so that the entries before the
    first one that throws, in sorted order, are in the list when the failure
    is logged; [js/main.js] assigns the markup of all entries at once and
    then renders none. *)
Theorem loadTimelineJs_partial `{Host} timeline good bad rest markups w el :
  doc w !! "timeline-list"%string = Some el ->
  sort TimelineJs.byStartDate timeline = good ++ bad :: rest ->
  rendersTo TimelineJs.renderItem good markups -> ~ rendersJs bad ->
  TimelineJs.loadTimeline (Normal timeline) w
  = (Normal tt,
     {| doc :=
          doc (fold_left (fun w markup => snd (appendInnerHTML "timeline-list" markup w))
                 markups w);
        console := console w ++ [js "Error loading timeline:"] |}) /\
  loadTimeline (Normal (Some (List.map toYaml timeline))) w
  = (Normal tt, {| doc := doc w; console := console w ++ [js "Error loading timeline:"] |}).
Proof.
  intros E Es R Hn. split.
  - destruct (renderItemJs_throws bad Hn) as [e He].
    unfold TimelineJs.loadTimeline, tryCatch.
    erewrite bind_run by reflexivity. rewrite bind_get, E. cbv zeta. rewrite Es.
    rewrite (forEach_partial good bad rest markups e w R He).
    unfold console_error. rewrite appended_console. reflexivity.
  - apply (loadTimeline_throws _ w el E).
    apply List.Exists_exists. exists (toYaml bad). split; [| exact Hn].
    apply in_map. apply (sort_In TimelineJs.byStartDate). rewrite Es.
    apply in_or_app. right. left. reflexivity.
Qed.

Lemma loadTimelineJs_partial_witness :
  exists markup,
    @TimelineJs.loadTimeline utcHost
      (Normal [entryJs "2020" (VNum (Some 2021%Z)); entryJs "2022" VUndefined]) timelineOnly
    = (Normal tt,
       {| doc := {["timeline-list"%string := Elem "DIV" ∅ [Text markup]]};
          console := [js "Error loading timeline:"] |}) /\
    infix (yearElement (js "2022 -")) markup.
Proof.
  destruct (@loadTimelineJs_partial utcHost
              [entryJs "2020" (VNum (Some 2021%Z)); entryJs "2022" VUndefined]
              [entryJs "2022" VUndefined] (entryJs "2020" (VNum (Some 2021%Z))) []
              [timelineHTML (js "2022 -") (@logoHTML utcHost VUndefined VUndefined VUndefined) []]
              timelineOnly (Elem "DIV" ∅ [])) as (P & _).
  - reflexivity.
  - reflexivity.
  - constructor; [intros w; reflexivity | constructor].
  - intros [[[s Es] | F] _]; [discriminate Es | discriminate F].
  - exists (timelineHTML (js "2022 -") (@logoHTML utcHost VUndefined VUndefined VUndefined) []).
    split; [rewrite P; vm_compute; reflexivity | apply timelineHTML_year].
Defined.

End LoaderExtras.

(** ** Theme toggle: properties *)

Module ThemeFacts.
Import Site SiteDefs SiteFacts Theme ThemeDefs.

Lemma startTheme_cases b : startTheme b = js "dark" \/ startTheme b = js "light".
Proof. unfold startTheme. destruct (decide _); [left | right]; reflexivity. Qed.

Lemma otherTheme_twice t : t = js "dark" \/ t = js "light" -> otherTheme (otherTheme t) = t.
Proof. intros [-> | ->]; reflexivity. Qed.

Lemma themeAfter_cases n b :
  themeAfter n (startTheme b) = js "dark" \/ themeAfter n (startTheme b) = js "light".
Proof.
  unfold themeAfter. destruct (Nat.even n); [apply startTheme_cases |].
  destruct (startTheme_cases b) as [-> | ->]; [right | left]; reflexivity.
Qed.

Lemma themeAfter_S n b :
  themeAfter (S n) (startTheme b) = otherTheme (themeAfter n (startTheme b)).
Proof.
  unfold themeAfter. rewrite Nat.even_succ, <- Nat.negb_even.
  destruct (Nat.even n); cbn [negb]; [reflexivity |].
  symmetry. apply otherTheme_twice, startTheme_cases.
Qed.

Lemma setIcon_lookup icon w el :
  doc w !! "theme-toggle"%string = Some el ->
  doc (setIcon icon w) !! "theme-toggle"%string = Some (textOf icon el).
Proof.
  intros E. unfold setIcon, setTextContent, Dom.update. cbn.
  rewrite lookup_alter_eq, E. reflexivity.
Qed.

Lemma textOf_over a b el : textOf a (textOf b el) = textOf a el.
Proof. destruct el; reflexivity. Qed.

(** The state after the initialization. *)
Lemma initialize_present b el :
  doc (page b) !! "theme-toggle"%string = Some el ->
  dataTheme (initializeThemeToggle b) = Some (startTheme b) /\
  doc (page (initializeThemeToggle b)) !! "theme-toggle"%string
  = Some (textOf (iconOf (startTheme b)) el) /\
  localStorage (initializeThemeToggle b) = localStorage b /\
  clickListeners (initializeThemeToggle b) = S (clickListeners b).
Proof.
  intros E. unfold initializeThemeToggle, startTheme. rewrite E.
  destruct (decide _); cbn [dataTheme page localStorage clickListeners];
    (split; [reflexivity |]); (split; [apply setIcon_lookup, E | split; reflexivity]).
Qed.

(** One run of the listener. *)
Lemma onClick_spec b el t :
  doc (page b) !! "theme-toggle"%string = Some el ->
  dataTheme b = Some t -> t = js "dark" \/ t = js "light" ->
  dataTheme (onClick b) = Some (otherTheme t) /\
  doc (page (onClick b)) !! "theme-toggle"%string = Some (textOf (iconOf (otherTheme t)) el) /\
  localStorage (onClick b) !! "theme"%string = Some (otherTheme t) /\
  clickListeners (onClick b) = clickListeners b.
Proof.
  intros E Ed Ht. unfold onClick. cbn [dataTheme page localStorage clickListeners]. rewrite Ed.
  destruct Ht as [-> | ->].
  - split; [reflexivity |]. split; [apply setIcon_lookup, E |].
    split; [apply lookup_insert_eq | reflexivity].
  - split; [reflexivity |]. split; [apply setIcon_lookup, E |].
    split; [apply lookup_insert_eq | reflexivity].
Qed.

Lemma clicks_spec b el : forall n,
  doc (page b) !! "theme-toggle"%string = Some el ->
  clickListeners b = 0%nat ->
  let b' := Nat.iter n click (initializeThemeToggle b) in
  let theme := themeAfter n (startTheme b) in
  dataTheme b' = Some theme /\
  doc (page b') !! "theme-toggle"%string = Some (textOf (iconOf theme) el) /\
  clickListeners b' = 1%nat /\
  match n with
  | O => localStorage b' = localStorage b
  | S _ => localStorage b' !! "theme"%string = Some theme
  end.
Proof.
  intros n E L. cbv zeta. induction n as [|n IH].
  - destruct (initialize_present b el E) as (A & B & C & D).
    change (Nat.iter 0 click (initializeThemeToggle b)) with (initializeThemeToggle b).
    unfold themeAfter. cbn [Nat.even].
    split; [exact A |]. split; [exact B |]. split; [rewrite D, L; reflexivity | exact C].
  - destruct IH as (A & B & C & _). rewrite Nat.iter_succ.
    set (b1 := Nat.iter n click (initializeThemeToggle b)) in *.
    assert (E1 : click b1 = onClick b1) by (unfold click; rewrite C; reflexivity).
    rewrite E1.
    destruct (onClick_spec b1 _ _ B A (themeAfter_cases n b)) as (A' & B' & C' & D').
    rewrite themeAfter_S.
    split; [exact A' |]. split; [rewrite B', textOf_over; reflexivity |].
    split; [rewrite D'; exact C | exact C'].
Qed.

End ThemeFacts.

Module ThemeExtras.
Import Site SiteDefs Theme ThemeDefs ThemeFacts.

(** X17.  On a page without the button [initializeThemeToggle] does nothing: a
    stored theme is not applied.  On a page with the button it applies the
    stored theme, or without one the preference of the system, where every
    value other than [dark] counts as [light]; each click switches between
    [dark] and [light], so that after [n] clicks the theme is the first one
    for even [n] and the other one for odd [n]; the button always shows the
    sun while the theme is [dark] and the moon while it is [light]; the
    storage is written by the clicks only, and after a click it holds the
    theme of the page. *)
Theorem theme_after_clicks b :
  (doc (page b) !! "theme-toggle"%string = None -> initializeThemeToggle b = b) /\
  (forall el n,
     doc (page b) !! "theme-toggle"%string = Some el -> clickListeners b = 0%nat ->
     let b' := Nat.iter n click (initializeThemeToggle b) in
     let theme := themeAfter n (startTheme b) in
     (theme = js "dark" \/ theme = js "light") /\
     dataTheme b' = Some theme /\
     doc (page b') !! "theme-toggle"%string = Some (textOf (iconOf theme) el) /\
     match n with
     | O => localStorage b' = localStorage b
     | S _ => localStorage b' !! "theme"%string = Some theme
     end).
Proof.
  split.
  - intros E. unfold initializeThemeToggle. rewrite E. reflexivity.
  - intros el n E L. cbv zeta.
    destruct (clicks_spec b el n E L) as (A & B & _ & D).
    split; [apply themeAfter_cases |]. split; [exact A |]. split; [exact B | exact D].
Qed.

Lemma theme_after_clicks_witness :
  initializeThemeToggle (revisit {| doc := ∅; console := [] |} true firstVisit)
  = revisit {| doc := ∅; console := [] |} true firstVisit /\
  dataTheme (Nat.iter 3 click (initializeThemeToggle firstVisit)) = Some (js "light") /\
  doc (page (Nat.iter 3 click (initializeThemeToggle firstVisit))) !! "theme-toggle"%string
  = Some (Elem "BUTTON" ∅ [Text moon]) /\
  localStorage (Nat.iter 3 click (initializeThemeToggle firstVisit)) !! "theme"%string
  = Some (js "light").
Proof.
  destruct (theme_after_clicks (revisit {| doc := ∅; console := [] |} true firstVisit))
    as (N & _).
  destruct (theme_after_clicks firstVisit) as (_ & T).
  destruct (T (Elem "BUTTON" ∅ []) 3%nat eq_refl eq_refl) as (_ & A & B & C).
  split; [exact (N eq_refl) |]. split; [exact A |]. split; [exact B | exact C].
Defined.

(** X18.  The theme chosen by a click comes back on the next visit: with the
    storage that a visit with at least one click leaves, the next visit of
    a page with the button starts in the theme that the page had last,
    whatever the system prefers then. *)
Theorem theme_persists b el n w el' prefers :
  doc (page b) !! "theme-toggle"%string = Some el -> clickListeners b = 0%nat ->
  doc w !! "theme-toggle"%string = Some el' ->
  let last := Nat.iter (S n) click (initializeThemeToggle b) in
  dataTheme (initializeThemeToggle (revisit w prefers last)) = dataTheme last.
Proof.
  intros E L E'. cbv zeta.
  destruct (clicks_spec b el (S n) E L) as (A & _ & _ & D). cbv zeta in A, D.
  set (last := Nat.iter (S n) click (initializeThemeToggle b)) in *.
  destruct (initialize_present (revisit w prefers last) el' E') as (A' & _).
  rewrite A', A. f_equal.
  destruct (themeAfter_cases (S n) b) as [T | T]; rewrite T in D |- *;
    unfold startTheme, revisit; cbn [localStorage prefersDark]; rewrite D; reflexivity.
Qed.

Lemma theme_persists_witness :
  dataTheme
    (initializeThemeToggle
       (revisit (page firstVisit) true (Nat.iter 1 click (initializeThemeToggle firstVisit))))
  = Some (js "light").
Proof.
  rewrite (theme_persists firstVisit (Elem "BUTTON" ∅ []) 0 (page firstVisit)
             (Elem "BUTTON" ∅ []) true eq_refl eq_refl eq_refl).
  reflexivity.
Defined.

End ThemeExtras.

(** ** The blog post page: properties *)

Module BlogFacts.
Import Site SiteDefs SiteFacts Loaders Toc TocDefs TocFacts BlogPost BlogDefs.

Lemma startsWith_refl_app p s : startsWith (p ++ s) p = true.
Proof. induction p as [|c p IH]; [reflexivity |]. cbn. rewrite N.eqb_refl. exact IH. Qed.

Lemma includes_prefix p s : includes (p ++ s) p = true.
Proof.
  destruct (p ++ s) eqn:E; cbn [includes]; rewrite <- E, startsWith_refl_app; reflexivity.
Qed.

(** An image that has been fixed is not fixed again. *)
Lemma fixImage_twice n : fixImage (fixImage n) = fixImage n.
Proof.
  destruct n as [d | t p cs]; [reflexivity |].
  unfold fixImage at 2 3.
  destruct (truthy (p !! "src"%string) && _ && _ && _) eqn:E;
    [| unfold fixImage; rewrite E; reflexivity].
  cbn [setProp]. unfold fixImage. rewrite lookup_insert_eq. cbn [show].
  rewrite includes_prefix. rewrite andb_false_r. reflexivity.
Qed.

Lemma fixImage_tag n : tagNameOf (fixImage n) = tagNameOf n.
Proof.
  destruct n as [d | t p cs]; [reflexivity |]. unfold fixImage.
  destruct (_ && _); reflexivity.
Qed.

Lemma fixImage_children n : childrenOf (fixImage n) = childrenOf n.
Proof.
  destruct n as [d | t p cs]; [reflexivity |]. unfold fixImage.
  destruct (_ && _); reflexivity.
Qed.

Lemma fixImage_shape t p cs : exists p', fixImage (Elem t p cs) = Elem t p' cs.
Proof. unfold fixImage. destruct (_ && _); eexists; reflexivity. Qed.

Lemma fixImages_shape t p cs :
  exists p', fixImages (Elem t p cs) = Elem t p' (List.map fixImages cs) /\
             (String.eqb t "IMG" = false -> p' = p).
Proof.
  cbn [fixImages]. destruct (String.eqb t "IMG").
  - destruct (fixImage_shape t p (List.map fixImages cs)) as [p' E].
    exists p'. split; [exact E | discriminate].
  - exists p. split; reflexivity.
Qed.

Lemma fixImages_twice n : fixImages (fixImages n) = fixImages n.
Proof.
  induction n as [d | t p cs IH] using node_rect'; [reflexivity |].
  cbn [fixImages].
  assert (Ec : List.map fixImages (List.map fixImages cs) = List.map fixImages cs).
  { induction IH as [|c cs Hc _ IHcs]; [reflexivity |]. cbn. rewrite Hc, IHcs. reflexivity. }
  destruct (String.eqb t "IMG") eqn:Et.
  - destruct (fixImage_shape t p (List.map fixImages cs)) as [p' E].
    rewrite E. cbn [fixImages]. rewrite Et, Ec, <- E. apply fixImage_twice.
  - cbn [fixImages]. rewrite Et, Ec. reflexivity.
Qed.

Lemma fixImages_text n : textContent (fixImages n) = textContent n.
Proof.
  induction n as [d | t p cs IH] using node_rect'; [reflexivity |].
  destruct (fixImages_shape t p cs) as (p' & E & _). rewrite E. cbn [textContent].
  f_equal. clear E. induction IH as [|c cs Hc _ IHcs]; [reflexivity |].
  cbn. rewrite Hc, IHcs. reflexivity.
Qed.

Lemma fixImages_tag n : tagNameOf (fixImages n) = tagNameOf n.
Proof.
  destruct n as [d | t p cs]; [reflexivity |].
  destruct (fixImages_shape t p cs) as (p' & E & _). rewrite E. reflexivity.
Qed.

(** The headings of a subtree with fixed images are the headings of the
    subtree, each with its images fixed. *)
Lemma fixImages_headings n :
  headingsOf (fixImages n) = List.map fixImages (headingsOf n).
Proof.
  induction n as [d | t p cs IH] using node_rect'; [reflexivity |].
  destruct (fixImages_shape t p cs) as (p' & E & _). rewrite E.
  cbn [headingsOf]. rewrite List.map_app. f_equal.
  - rewrite (isHeading_tag t p' p (List.map fixImages cs) cs).
    destruct (isHeading (Elem t p cs)); [| reflexivity].
    cbn [List.map]. rewrite E. reflexivity.
  - clear E. induction IH as [|c cs' Hc _ IHcs]; [reflexivity |].
    cbn [List.map flat_map]. rewrite List.map_app, Hc, IHcs. reflexivity.
Qed.

Lemma fixImages_headings_list l :
  flat_map headingsOf (List.map fixImages l) = List.map fixImages (flat_map headingsOf l).
Proof.
  induction l as [|c l IH]; [reflexivity |].
  cbn [List.map flat_map]. rewrite List.map_app, fixImages_headings, IH. reflexivity.
Qed.

Lemma tocItem_fixed i h : tocItem i (fixImages h) = tocItem i h.
Proof. unfold tocItem. rewrite fixImages_tag, fixImages_text. reflexivity. Qed.

Lemma imap_tocItem_fixed l : forall (g : nat -> nat),
  imap (fun i h => tocItem (g i) h) (List.map fixImages l)
  = imap (fun i h => tocItem (g i) h) l.
Proof.
  induction l as [|h l IH]; intros g; [reflexivity |].
  cbn [List.map imap]. rewrite tocItem_fixed. f_equal.
  apply (IH (fun i => g (S i))).
Qed.

Section Post.
Context `{Host}.
Variable fetchJson : jsstring -> completion (option jsstring).
Variable fetchText : jsstring -> completion jsstring.

Lemma setBody_run el markup w body :
  doc w !! "blog-body"%string = Some body -> el = Some body ->
  setBody el markup w
  = (Normal tt,
     {| doc := <["blog-body"%string := withChildren body (parseHTML markup)]> (doc w);
        console := console w |}).
Proof.
  intros E ->. unfold setBody, setInnerHTML, Dom.update.
  rewrite (JsFacts.alter_present _ _ _ _ E). reflexivity.
Qed.

Lemma setTextOf_run el id text w :
  (el = None <-> doc w !! id = None) ->
  setTextOf el id text w
  = (Normal tt, {| doc := alter (textOf (default [] text)) id (doc w); console := console w |}).
Proof.
  intros P. unfold setTextOf. destruct el as [n |]; [reflexivity |].
  rewrite alter_absent by (apply P; reflexivity). destruct w; reflexivity.
Qed.

Ltac known := cbn [doc]; rewrite ?lookup_alter_None; reflexivity.

(** The run up to the loading of the content. *)
Lemma header_run blog (k : Js unit) w :
  (titleElement ← getElementById "blog-title";
   dateElement ← getElementById "blog-date";
   pageTitleElement ← getElementById "page-title";
   setTextOf titleElement "blog-title" (post_title blog);;
   setTextOf pageTitleElement "page-title" (post_title blog);;
   setTextOf dateElement "blog-date" (Some (formatDate (post_date blog)));;
   k) w
  = k {| doc := withHeader blog (doc w); console := console w |}.
Proof.
  rewrite !bind_get.
  (erewrite bind_run; [| apply setTextOf_run; known]).
  (erewrite bind_run; [| apply setTextOf_run; known]).
  (erewrite bind_run; [| apply setTextOf_run; known]).
  reflexivity.
Qed.

Lemma withHeader_ne blog m id :
  id <> "blog-title"%string -> id <> "page-title"%string -> id <> "blog-date"%string ->
  withHeader blog m !! id = m !! id.
Proof.
  intros H1 H2 H3. unfold withHeader. rewrite !lookup_alter_ne by congruence. reflexivity.
Qed.

Lemma handler_run w body :
  doc w !! "blog-body"%string = Some body ->
  (console_error "Error loading blog post:";;
   blogBodyElement ← getElementById "blog-body";
   setBody blogBodyElement (js "<p>Error loading blog post.</p>")) w
  = (Normal tt,
     {| doc := <["blog-body"%string :=
                   withChildren body (parseHTML (js "<p>Error loading blog post.</p>"))]> (doc w);
        console := console w ++ [js "Error loading blog post:"] |}).
Proof.
  intros E. erewrite bind_run by reflexivity. rewrite bind_get. cbn [doc].
  erewrite setBody_run; [reflexivity | exact E | exact E].
Qed.

Lemma generateTableOfContents_normal w : fst (generateTableOfContents w) = Normal tt.
Proof.
  unfold generateTableOfContents. rewrite !bind_get.
  destruct (doc w !! "blog-body"%string) as [body |]; [| reflexivity].
  destruct (doc w !! "toc-list"%string) as [toc |] eqn:Et; [| reflexivity].
  destruct (length (querySelectorAll body) =? 0)%nat.
  - destruct (doc w !! "blog-toc"%string); reflexivity.
  - erewrite bind_run by reflexivity.
    rewrite JsFacts.forEach_run; [reflexivity |].
    intros [i h] w0. reflexivity.
Qed.

Lemma setBody_normal el markup w : fst (setBody el markup w) = Normal tt.
Proof. destruct el; reflexivity. Qed.

Lemma loadBlogPost_normal blogId blogs w :
  fst (loadBlogPost fetchJson fetchText blogId blogs w) = Normal tt.
Proof.
  unfold loadBlogPost, tryCatch.
  match goal with |- context [match ?b w with _ => _ end] => destruct (b w) as [[[] | e] w1] end;
    [reflexivity |].
  erewrite bind_run by reflexivity. rewrite bind_get. apply setBody_normal.
Qed.

End Post.

End BlogFacts.

Module BlogExtras.
Import Site SiteDefs SiteFacts Loaders Toc TocDefs TocFacts BlogPost BlogDefs BlogFacts
  TimelineDefs.

(** X19.  The fix of the image paths in a post can be repeated without effect:
    fixing a subtree twice gives what fixing it once gives.  An image whose
    path is not empty, does not start with [http] or [/] and does not contain
    [content/blogs/] receives the prefix [content/blogs/]; every other image
    stays as it is. *)
Theorem fixImages_idempotent :
  (forall n, fixImages (fixImages n) = fixImages n) /\
  (forall t p cs src,
     p !! "src"%string = Some src -> src <> [] ->
     startsWith src (js "http") = false -> startsWith src (js "/") = false ->
     includes src (js "content/blogs/") = false ->
     fixImage (Elem t p cs) = Elem t (<["src"%string := js "content/blogs/" ++ src]> p) cs) /\
  (forall t p cs,
     match p !! "src"%string with
     | Some src =>
         src = [] \/ startsWith src (js "http") = true \/ startsWith src (js "/") = true \/
         includes src (js "content/blogs/") = true
     | None => True
     end ->
     fixImage (Elem t p cs) = Elem t p cs).
Proof.
  split; [exact fixImages_twice |]. split.
  - intros t p cs src E Hne H1 H2 H3. unfold fixImage. rewrite E. cbn [show].
    rewrite H1, H2, H3. destruct src; [congruence | reflexivity].
  - intros t p cs Hs. unfold fixImage. destruct (p !! "src"%string) as [src |]; [| reflexivity].
    cbn [show]. destruct Hs as [-> | [-> | [-> | ->]]];
      rewrite ?andb_false_r; reflexivity.
Qed.

Lemma fixImages_idempotent_witness :
  fixImages sampleFigure
  = Elem "FIGURE" ∅
      [Elem "IMG" {["src"%string := js "content/blogs/images/berlin/wall.jpeg"]} []] /\
  fixImage (Elem "IMG" {["src"%string := js "https://example.org/a.png"]} [])
  = Elem "IMG" {["src"%string := js "https://example.org/a.png"]} [].
Proof.
  destruct fixImages_idempotent as (_ & F & K). split.
  - unfold sampleFigure. cbn [fixImages List.map String.eqb Ascii.eqb Bool.eqb].
    rewrite (F "IMG"%string {["src"%string := js "images/berlin/wall.jpeg"]} []
               (js "images/berlin/wall.jpeg"));
      [| reflexivity | discriminate | reflexivity | reflexivity | reflexivity].
    rewrite insert_singleton_eq. reflexivity.
  - apply K. rewrite lookup_singleton_eq. right. left. reflexivity.
Defined.

Section Post.
Context `{Host}.
Variable fetchJson : jsstring -> completion (option jsstring).
Variable fetchText : jsstring -> completion jsstring.

(** X20.  [loadBlogPost] never throws, and what it cannot load it says in the
    body of the page.  Without an [id] in the address the body reads that no
    post is specified, and the index is not loaded.  With an [id] that no
    entry of the loaded index has, or with an index that is [null], the body
    reads that the post is not found and nothing is logged; when loading
    the index failed, the body reads the same and the line of [loadYaml] is
    in the console.  When the entry is found and its content cannot be
    loaded (no file named, a failed fetch, or content without text), the
    body reads that loading failed, one line is logged, and the title and
    the date of the entry have been written all the same. *)
Theorem loadBlogPost_messages blogId response w body :
  doc w !! "blog-body"%string = Some body ->
  (forall blogId' response' w0,
     fst (loadBlogPost fetchJson fetchText blogId' response' w0) = Normal tt) /\
  (truthy blogId = false ->
   loadBlogPost fetchJson fetchText blogId response w
   = (Normal tt,
      {| doc := <["blog-body"%string :=
                    withChildren body (parseHTML (js "<p>No blog post specified.</p>"))]> (doc w);
         console := console w |})) /\
  (forall blogs,
     truthy blogId = true -> response = Normal blogs -> find blogs (show blogId) = None ->
     loadBlogPost fetchJson fetchText blogId response w
     = (Normal tt,
        {| doc := <["blog-body"%string :=
                      withChildren body (parseHTML (js "<p>Blog post not found.</p>"))]> (doc w);
           console := console w |})) /\
  (forall e,
     truthy blogId = true -> response = Throw e ->
     loadBlogPost fetchJson fetchText blogId response w
     = (Normal tt,
        {| doc := <["blog-body"%string :=
                      withChildren body (parseHTML (js "<p>Blog post not found.</p>"))]> (doc w);
           console := console w ++ [js "Error loading YAML from content/blogs/blogs.yaml:"] |})) /\
  (forall blogs blog e,
     truthy blogId = true -> response = Normal blogs ->
     find blogs (show blogId) = Some blog ->
     loadContent fetchJson fetchText blog = Throw e ->
     loadBlogPost fetchJson fetchText blogId response w
     = (Normal tt,
        {| doc := <["blog-body"%string :=
                      withChildren body (parseHTML (js "<p>Error loading blog post.</p>"))]>
                    (withHeader blog (doc w));
           console := console w ++ [js "Error loading blog post:"] |})).
Proof.
  intros Eb. split; [apply loadBlogPost_normal |].
  split; [| split; [| split]].
  - intros Ht. unfold loadBlogPost, tryCatch. rewrite bind_get, Ht. cbn [negb].
    erewrite setBody_run; [reflexivity | exact Eb | exact Eb].
  - intros blogs Ht -> Ef. unfold loadBlogPost, tryCatch. rewrite bind_get, Ht. cbn [negb].
    rewrite (bind_run _ _ _ _ _ (loadYaml_loaded _ _ _)), Ef.
    erewrite setBody_run; [reflexivity | exact Eb | exact Eb].
  - intros e Ht ->. unfold loadBlogPost, tryCatch. rewrite bind_get, Ht. cbn [negb].
    rewrite (bind_run _ _ _ _ _ (loadYaml_run _ _ _)). cbn [find].
    erewrite setBody_run; [reflexivity | exact Eb | exact Eb].
  - intros blogs blog e Ht -> Ef Ec. unfold loadBlogPost, tryCatch.
    rewrite bind_get, Ht. cbn [negb].
    rewrite (bind_run _ _ _ _ _ (loadYaml_loaded _ _ _)), Ef.
    rewrite header_run. rewrite Ec.
    change ((settle (Throw e) ≫= _) ?w) with (@Throw unit e, w).
    cbv beta iota.
    rewrite handler_run with (body := body); [reflexivity |].
    cbn [doc]. rewrite withHeader_ne by discriminate. exact Eb.
Qed.

(** X21.  When the index and the content of the entry load, [loadBlogPost]
    writes the title and the date, puts the parsed markup with the image
    paths fixed into the body, logs nothing, and goes on with
    [generateTableOfContents] on that page.  The fix of the image paths does
    not change the outline: its items are those of the headings of the
    parsed markup. *)
Theorem loadBlogPost_renders blogId blogs blog markup w body :
  doc w !! "blog-body"%string = Some body ->
  truthy blogId = true -> find blogs (show blogId) = Some blog ->
  loadContent fetchJson fetchText blog = Normal markup ->
  let w1 :=
    {| doc := <["blog-body"%string := rendered body markup]> (withHeader blog (doc w));
       console := console w |} in
  loadBlogPost fetchJson fetchText blogId (Normal blogs) w = generateTableOfContents w1 /\
  fst (generateTableOfContents w1) = Normal tt /\
  doc w1 !! "blog-body"%string = Some (rendered body markup) /\
  doc w1 !! "toc-list"%string = doc w !! "toc-list"%string /\
  (forall t p cs, body = Elem t p cs ->
     imap tocItem (querySelectorAll (rendered body markup))
     = imap tocItem (flat_map headingsOf (parseHTML markup))).
Proof.
  intros Eb Ht Ef Ec w1.
  assert (R : loadBlogPost fetchJson fetchText blogId (Normal blogs) w
              = generateTableOfContents w1).
  { unfold loadBlogPost, tryCatch. rewrite bind_get, Ht. cbn [negb].
    rewrite (bind_run _ _ _ _ _ (loadYaml_loaded _ _ _)), Ef.
    rewrite header_run, Ec. erewrite bind_run by reflexivity. rewrite Eb.
    set (body_step := (setInnerHTML "blog-body" markup;;
                       update "blog-body"
                         (fun n => withChildren n (List.map fixImages (childrenOf n))))).
    assert (E1 : body_step {| doc := withHeader blog (doc w); console := console w |}
                 = (Normal tt, w1)).
    { unfold body_step. erewrite bind_run by reflexivity.
      unfold setInnerHTML, Dom.update, w1, rendered. cbn [snd doc console].
      rewrite alter_twice.
      rewrite (JsFacts.alter_present _ _ _ body)
        by (rewrite withHeader_ne by discriminate; exact Eb).
      destruct body; reflexivity. }
    rewrite (bind_run _ _ _ _ _ E1).
    pose proof (generateTableOfContents_normal w1) as N.
    destruct (generateTableOfContents w1) as [[[] | e] w2]; [reflexivity | discriminate N]. }
  split; [exact R |]. split; [apply generateTableOfContents_normal |].
  split; [apply lookup_insert_eq |].
  split.
  - unfold w1. cbn [doc]. rewrite lookup_insert_ne by discriminate.
    apply withHeader_ne; discriminate.
  - intros t p cs ->. unfold rendered, querySelectorAll. cbn [withChildren childrenOf].
    rewrite fixImages_headings_list.
    apply (imap_tocItem_fixed _ (fun i => i)).
Qed.

End Post.

Lemma loadBlogPost_messages_witness :
  @loadBlogPost pageHost sampleJson noText None (Normal (Some [samplePost])) postPage
  = (Normal tt,
     {| doc := <["blog-body"%string :=
                   Elem "DIV" ∅ [Elem "P" ∅ [Text (js "No blog post specified.")]]]>
                 (doc postPage);
        console := [] |}) /\
  @loadBlogPost pageHost sampleJson noText (Some (js "oslo")) (Normal (Some [samplePost]))
    postPage
  = (Normal tt,
     {| doc := <["blog-body"%string :=
                   Elem "DIV" ∅ [Elem "P" ∅ [Text (js "Blog post not found.")]]]>
                 (doc postPage);
        console := [] |}) /\
  @loadBlogPost pageHost sampleJson noText (Some (js "berlin")) (Throw (js "TypeError"))
    postPage
  = (Normal tt,
     {| doc := <["blog-body"%string :=
                   Elem "DIV" ∅ [Elem "P" ∅ [Text (js "Blog post not found.")]]]>
                 (doc postPage);
        console := [js "Error loading YAML from content/blogs/blogs.yaml:"] |}) /\
  console (snd (@loadBlogPost pageHost (fun _ => Throw (js "TypeError")) noText
                  (Some (js "berlin")) (Normal (Some [samplePost])) postPage))
  = [js "Error loading blog post:"].
Proof.
  destruct (@loadBlogPost_messages pageHost sampleJson noText None
              (Normal (Some [samplePost])) postPage (Elem "DIV" ∅ []) eq_refl) as (_ & A & _).
  destruct (@loadBlogPost_messages pageHost sampleJson noText (Some (js "oslo"))
              (Normal (Some [samplePost])) postPage (Elem "DIV" ∅ []) eq_refl)
    as (_ & _ & B & _).
  destruct (@loadBlogPost_messages pageHost sampleJson noText (Some (js "berlin"))
              (Throw (js "TypeError")) postPage (Elem "DIV" ∅ []) eq_refl)
    as (_ & _ & _ & Y & _).
  destruct (@loadBlogPost_messages pageHost (fun _ => Throw (js "TypeError")) noText
              (Some (js "berlin")) (Normal (Some [samplePost])) postPage (Elem "DIV" ∅ [])
              eq_refl)
    as (_ & _ & _ & _ & C).
  split; [exact (A eq_refl) |].
  split; [exact (B (Some [samplePost]) eq_refl eq_refl eq_refl) |].
  split; [exact (Y (js "TypeError") eq_refl eq_refl) |].
  rewrite (C (Some [samplePost]) samplePost (js "TypeError") eq_refl eq_refl eq_refl eq_refl).
  reflexivity.
Defined.

Lemma loadBlogPost_renders_witness :
  @loadBlogPost pageHost sampleJson noText (Some (js "berlin")) (Normal (Some [samplePost]))
    postPage
  = (Normal tt,
     {| doc :=
          <["blog-body"%string :=
              Elem "DIV" ∅
                [ Elem "H2" {["id"%string := js "section-0"]} [Text (js "Wall")];
                  Text nl;
                  Elem "FIGURE" ∅
                    [Elem "IMG" {["src"%string := js "content/blogs/images/wall.jpeg"]} []] ]]>
            (<["blog-title"%string := Elem "H1" ∅ [Text (js "Berlin")]]>
               (<["toc-list"%string :=
                    Elem "UL" ∅
                      [Elem "LI" ∅
                         [Elem "A" {["href"%string := js "#section-0"]} [Text (js "Wall")]]]]>
                  ∅));
        console := [] |}) /\
  imap tocItem (querySelectorAll
                  (@rendered pageHost (Elem "DIV" ∅ []) (parseMarkdown sampleContent)))
  = [Elem "LI" ∅ [Elem "A" {["href"%string := js "#section-0"]} [Text (js "Wall")]]].
Proof.
  destruct (@loadBlogPost_renders pageHost sampleJson noText (Some (js "berlin"))
              (Some [samplePost]) samplePost (parseMarkdown sampleContent) postPage
              (Elem "DIV" ∅ []) eq_refl eq_refl eq_refl eq_refl) as (R & _ & _ & _ & O).
  split.
  - rewrite R. vm_compute. reflexivity.
  - rewrite (O "DIV"%string ∅ [] eq_refl). vm_compute. reflexivity.
Defined.

End BlogExtras.

(** ** Outline and scroll listener: properties *)

Module AnchorFacts.
Import Toc TocDefs TocFacts.

Lemma js_inj s t : js s = js t -> s = t.
Proof.
  unfold js. intros E.
  rewrite <- (string_of_list_ascii_of_string s), <- (string_of_list_ascii_of_string t).
  f_equal. revert E. generalize (list_ascii_of_string s) (list_ascii_of_string t).
  induction l as [|a l IH]; intros [|b l'] E; try discriminate E; [reflexivity |].
  cbn in E. inversion E as [[Ea El]]. f_equal.
  - rewrite <- (ascii_N_embedding a), <- (ascii_N_embedding b), Ea. reflexivity.
  - apply IH, El.
Qed.

Lemma natToString_inj i j : natToString i = natToString j -> i = j.
Proof.
  unfold natToString. intros E. apply js_inj in E.
  apply Unsigned.to_uint_inj.
  assert (S : Some (Nat.to_uint i) = Some (Nat.to_uint j)).
  { rewrite <- !NilEmpty.usu, E. reflexivity. }
  inversion S. reflexivity.
Qed.

Lemma sectionId_inj i j : sectionId i = sectionId j -> i = j.
Proof. unfold sectionId. intros E. apply app_inv_head in E. apply natToString_inj, E. Qed.

Lemma NoDup_map_inj {A B} (f : A -> B) l :
  (forall x y, f x = f y -> x = y) -> NoDup l -> NoDup (List.map f l).
Proof.
  intros Hf. induction 1 as [|x l Hx _ IH]; [apply NoDup_nil_2 |].
  cbn [List.map]. apply NoDup_cons_2; [| exact IH].
  intros Hin. apply list_elem_of_In, in_map_iff in Hin. destruct Hin as (y & E & Hy).
  apply Hf in E. subst y. apply Hx, list_elem_of_In, Hy.
Qed.

Lemma sectionIds_NoDup first count : NoDup (sectionIds first count).
Proof.
  unfold sectionIds. apply NoDup_map_inj; [| apply NoDup_seq].
  intros i j. apply sectionId_inj.
Qed.

Lemma textContent_tocItem i h : textContent (tocItem i h) = textContent h.
Proof. unfold tocItem. cbn [textContent List.map concat]. rewrite !app_nil_r. reflexivity. Qed.

Lemma texts_tocItems l : forall (g : nat -> nat),
  List.map textContent (imap (fun i h => tocItem (g i) h) l) = List.map textContent l.
Proof.
  induction l as [|h l IH]; intros g; [reflexivity |].
  cbn [imap List.map]. rewrite textContent_tocItem. f_equal.
  apply (IH (fun i => g (S i))).
Qed.

End AnchorFacts.

Module TocExtras.
Import Toc TocDefs TocFacts AnchorFacts.

(** X22.  The anchors of the outline are unambiguous and its items carry the
    text of the headings: after [generateTableOfContents] on a body with
    headings, no two headings have the same identifier, no two items link to
    the same target, and the text of each item is the text of its heading
    without the markup inside it. *)
Theorem generateTableOfContents_anchors w body toc :
  doc w !! "blog-body"%string = Some body ->
  doc w !! "toc-list"%string = Some toc ->
  querySelectorAll body <> [] ->
  exists w' body',
    generateTableOfContents w = (Normal tt, w') /\
    doc w' !! "blog-body"%string = Some body' /\
    NoDup (List.map idOf (querySelectorAll body')) /\
    Forall (fun id => id <> None) (List.map idOf (querySelectorAll body')) /\
    doc w' !! "toc-list"%string
    = Some (withChildren toc (childrenOf toc ++ imap tocItem (querySelectorAll body))) /\
    NoDup (List.map hrefOf (imap tocItem (querySelectorAll body))) /\
    List.map textContent (imap tocItem (querySelectorAll body))
    = List.map textContent (querySelectorAll body).
Proof.
  intros Eb Et Hne.
  assert (E0 : (length (querySelectorAll body) =? 0)%nat = false).
  { destruct (querySelectorAll body); [congruence | reflexivity]. }
  assert (Hb : exists t p cs, body = Elem t p cs).
  { destruct body as [d | t p cs]; [exfalso; apply Hne; reflexivity | eauto]. }
  destruct Hb as (t & p & cs & ->).
  eexists. exists (withChildren (Elem t p cs) (fst (assignIdsList (childrenOf (Elem t p cs)) 0))).
  split; [apply (generateTableOfContents_run w _ toc Eb Et) |].
  rewrite E0. cbn [doc].
  destruct (assignIdsList_spec cs) with (i := 0%nat) as (_ & I & _ & _).
  { apply List.Forall_forall. intros n _. apply assignIds_spec. }
  unfold querySelectorAll. cbn [childrenOf withChildren].
  split; [rewrite lookup_insert_ne by discriminate; apply lookup_insert_eq |].
  split.
  { rewrite I. apply NoDup_map_inj; [| apply sectionIds_NoDup].
    intros a b E. inversion E. reflexivity. }
  split.
  { rewrite I. apply List.Forall_forall. intros id Hin. apply in_map_iff in Hin.
    destruct Hin as (s & <- & _). discriminate. }
  split; [apply lookup_insert_eq |].
  split.
  { rewrite (hrefs_tocItems _ 0).
    apply NoDup_map_inj; [| apply sectionIds_NoDup].
    intros a b E. inversion E. reflexivity. }
  apply (texts_tocItems _ (fun i => i)).
Qed.

Lemma generateTableOfContents_anchors_witness :
  exists w' body',
    generateTableOfContents samplePage = (Normal tt, w') /\
    doc w' !! "blog-body"%string = Some body' /\
    NoDup (List.map idOf (querySelectorAll body')).
Proof.
  destruct (generateTableOfContents_anchors samplePage
              (Elem "DIV" ∅
                 [Elem "H2" ∅ [Text (js "Intro")]; Elem "P" ∅ [Text (js "text")];
                  Elem "H3" ∅ [Text (js "First")]; Elem "H3" ∅ [Text (js "Second")]])
              (Elem "UL" ∅ []))
    as (w' & body' & R & B & N & _).
  - reflexivity.
  - reflexivity.
  - discriminate.
  - exists w', body'. split; [exact R |]. split; [exact B | exact N].
Defined.

End TocExtras.

Module ScrollFacts.
Import Toc TocDefs TocFacts AnchorFacts Scroll ScrollDefs.

Lemma orderedSet_from (l : list jsstring) : forall (acc : list jsstring) (x : jsstring),
  x ∈ fold_left
        (fun acc token => if bool_decide (token ∈ acc) then acc else acc ++ [token]) l acc
  <-> x ∈ acc \/ x ∈ l.
Proof.
  induction l as [|t l IH]; intros acc x; cbn [fold_left].
  - split; [tauto | intros [H | H]; [exact H | inversion H]].
  - rewrite IH. rewrite elem_of_cons. destruct (bool_decide_reflect (t ∈ acc)) as [Ht | Ht].
    + split; [tauto |]. intros [H | [-> | H]]; tauto.
    + rewrite elem_of_app, list_elem_of_singleton. tauto.
Qed.

Lemma orderedSet_elem (l : list jsstring) (x : jsstring) : x ∈ orderedSet l <-> x ∈ l.
Proof.
  unfold orderedSet. rewrite orderedSet_from. split; [| tauto].
  intros [H | H]; [inversion H | exact H].
Qed.

Lemma splitTokens_tokens s : forall cur,
  Forall (fun c => isAsciiWhitespace c = false) cur ->
  Forall isToken (splitTokens cur s).
Proof.
  assert (R : forall cur c, Forall (fun c => isAsciiWhitespace c = false) (c :: cur) ->
              isToken (rev (c :: cur))).
  { intros cur c H. split.
    - intros E. apply (f_equal (@length _)) in E. rewrite length_rev in E. discriminate E.
    - apply Forall_rev. exact H. }
  induction s as [|c s IH]; intros cur Hc; cbn [splitTokens].
  - destruct cur as [|d cur]; [constructor |]. constructor; [apply R, Hc | constructor].
  - destruct (isAsciiWhitespace c) eqn:E.
    + destruct cur as [|d cur]; [apply IH; constructor |].
      constructor; [apply R, Hc | apply IH; constructor].
    + apply IH. constructor; assumption.
Qed.

Lemma splitTokens_word t : forall cur s,
  Forall (fun c => isAsciiWhitespace c = false) t ->
  splitTokens cur (t ++ s) = splitTokens (rev t ++ cur) s.
Proof.
  induction t as [|c t IH]; intros cur s Ht; [reflexivity |].
  inversion Ht as [|? ? Hc Ht']; subst. cbn [app splitTokens]. rewrite Hc.
  rewrite IH by exact Ht'. cbn [rev]. rewrite <- app_assoc. reflexivity.
Qed.

(** Tokens joined by spaces split into the same tokens. *)
Lemma splitTokens_join ts :
  Forall isToken ts -> splitTokens [] (join (js " ") ts) = ts.
Proof.
  induction 1 as [|t ts [Hne Ht] _ IH]; [reflexivity |].
  assert (Hr : exists c r, rev t = c :: r).
  { destruct (rev t) as [|c r] eqn:E; [| eauto].
    exfalso. apply Hne. rewrite <- (rev_involutive t), E. reflexivity. }
  destruct Hr as (c & r & Hr).
  destruct ts as [|t' ts].
  - cbn [join]. rewrite <- (app_nil_r t) at 1. rewrite splitTokens_word by exact Ht.
    rewrite app_nil_r, Hr. cbn [splitTokens]. rewrite <- Hr, rev_involutive. reflexivity.
  - change (join (js " ") (t :: t' :: ts)) with (t ++ 32 :: join (js " ") (t' :: ts)).
    rewrite splitTokens_word by exact Ht. rewrite app_nil_r, Hr.
    cbn [splitTokens]. change (isAsciiWhitespace 32) with true. cbv iota.
    rewrite <- Hr, rev_involutive, IH. reflexivity.
Qed.

Lemma classList_tokens n : Forall isToken (classList n).
Proof.
  destruct n as [d | t p cs]; [constructor |]. cbn [classList].
  destruct (p !! "className"%string) as [v |]; [| constructor].
  apply List.Forall_forall. intros x Hx.
  apply (proj2 (list_elem_of_In _ _)) in Hx. apply (proj1 (orderedSet_elem _ _)) in Hx.
  apply (proj1 (list_elem_of_In _ _)) in Hx.
  exact (proj1 (List.Forall_forall _ _) (splitTokens_tokens v [] (Forall_nil_2 _)) x Hx).
Qed.

(** After the update steps the class list has the given tokens. *)
Lemma classList_update n tokens x :
  Forall isToken tokens ->
  x ∈ classList (updateClass n tokens) <-> x ∈ tokens /\ (exists t p cs, n = Elem t p cs).
Proof.
  intros Ht. destruct n as [d | t p cs].
  - cbn. split; [intros H; inversion H | intros [_ (t & p & cs & E)]; discriminate E].
  - assert (S : x ∈ classList (setProp (Elem t p cs) "className" (join (js " ") tokens))
                <-> x ∈ tokens).
    { cbn [setProp classList]. rewrite lookup_insert_eq, orderedSet_elem.
      rewrite splitTokens_join by exact Ht. reflexivity. }
    cbn [updateClass]. destruct (p !! "className"%string) as [v |] eqn:E.
    + rewrite S. split; [intros H; split; [exact H | eauto] | tauto].
    + destruct tokens as [|t0 tokens].
      * cbn [classList]. rewrite E. split; [intros H; inversion H | intros [H _]; inversion H].
      * rewrite S. split; [intros H; split; [exact H | eauto] | tauto].
Qed.

Lemma updateClass_href n tokens : hrefAttribute (updateClass n tokens) = hrefAttribute n.
Proof.
  destruct n as [d | t p cs]; [reflexivity |]. cbn [updateClass].
  destruct (p !! "className"%string), tokens; cbn [setProp hrefAttribute];
    rewrite ?lookup_insert_ne by discriminate; reflexivity.
Qed.

Lemma updateClass_shape t p cs tokens :
  exists p', updateClass (Elem t p cs) tokens = Elem t p' cs.
Proof.
  cbn [updateClass]. destruct (p !! "className"%string), tokens; eexists; reflexivity.
Qed.

Lemma active_token : isToken (js "active").
Proof. split; [discriminate | repeat constructor]. Qed.

Lemma removed_tokens token n :
  Forall isToken (List.filter (fun t => negb (bool_decide (t = token))) (classList n)).
Proof.
  apply List.Forall_forall. intros x Hx. apply filter_In in Hx.
  exact (proj1 (List.Forall_forall _ _) (classList_tokens n) x (proj1 Hx)).
Qed.

Lemma remove_inactive n : isActive (classList_remove (js "active") n) = false.
Proof.
  unfold isActive, classList_remove. apply bool_decide_eq_false. intros H.
  apply classList_update in H; [| apply removed_tokens].
  destruct H as [H _]. apply list_elem_of_In, filter_In in H. destruct H as [_ H].
  rewrite bool_decide_eq_true_2 in H by reflexivity. discriminate H.
Qed.

Lemma add_active t p cs : isActive (classList_add (js "active") (Elem t p cs)) = true.
Proof.
  unfold isActive, classList_add. apply bool_decide_eq_true.
  apply classList_update.
  - destruct (bool_decide _); [apply classList_tokens |].
    apply Forall_app. split; [apply classList_tokens |].
    constructor; [apply active_token | constructor].
  - split; [| eauto].
    destruct (bool_decide_reflect (js "active" ∈ classList (Elem t p cs))) as [H | H];
      [exact H |].
    apply elem_of_app. right. apply list_elem_of_singleton. reflexivity.
Qed.

(** What the callback makes of one link. *)
Lemma markLink_spec current t p cs :
  exists p',
    markLink current (Elem t p cs) = Elem t p' cs /\
    hrefAttribute (Elem t p' cs) = hrefAttribute (Elem t p cs) /\
    isActive (Elem t p' cs)
    = bool_decide (hrefAttribute (Elem t p cs) = Some (js "#" ++ current)).
Proof.
  unfold markLink.
  destruct (updateClass_shape t p cs
              (List.filter (fun x => negb (bool_decide (x = js "active")))
                 (classList (Elem t p cs)))) as [p1 E1].
  assert (H1 : hrefAttribute (classList_remove (js "active") (Elem t p cs))
               = hrefAttribute (Elem t p cs)) by apply updateClass_href.
  assert (A1 := remove_inactive (Elem t p cs)).
  unfold classList_remove in *. rewrite E1 in *.
  destruct (decide (hrefAttribute (Elem t p1 cs) = Some (js "#" ++ current))) as [Hh | Hh].
  - destruct (updateClass_shape t p1 cs
                (if bool_decide (js "active" ∈ classList (Elem t p1 cs))
                 then classList (Elem t p1 cs)
                 else classList (Elem t p1 cs) ++ [js "active"])) as [p2 E2].
    exists p2. unfold classList_add. split; [exact E2 |].
    rewrite <- E2. split.
    + rewrite updateClass_href. exact H1.
    + rewrite (add_active t p1 cs : isActive (updateClass _ _) = true).
      symmetry. apply bool_decide_eq_true. rewrite <- H1. exact Hh.
  - exists p1. split; [reflexivity |]. split; [exact H1 |].
    rewrite A1. symmetry. apply bool_decide_eq_false. rewrite <- H1. exact Hh.
Qed.

Lemma markLinks_shape current t p cs :
  exists p',
    markLinks current (Elem t p cs) = Elem t p' (List.map (markLinks current) cs) /\
    hrefAttribute (Elem t p' cs) = hrefAttribute (Elem t p cs) /\
    (String.eqb t "A" = true ->
     isActive (Elem t p' cs)
     = bool_decide (hrefAttribute (Elem t p cs) = Some (js "#" ++ current))).
Proof.
  cbn [markLinks]. destruct (String.eqb t "A").
  - destruct (markLink_spec current t p (List.map (markLinks current) cs)) as (p' & E & Hh & Ha).
    exists p'. split; [exact E |]. split; [exact Hh |]. intros _. exact Ha.
  - exists p. split; [reflexivity |]. split; [reflexivity | discriminate].
Qed.

(** The loop keeps the links and their targets, and a link is highlighted
    afterwards exactly if it points to the current section. *)
Lemma markLinks_anchors current n :
  List.map hrefAttribute (anchorsOf (markLinks current n)) = List.map hrefAttribute (anchorsOf n) /\
  Forall (fun link => isActive link
                      = bool_decide (hrefAttribute link = Some (js "#" ++ current)))
    (anchorsOf (markLinks current n)).
Proof.
  induction n as [d | t p cs IH] using node_rect'; [split; [reflexivity | constructor] |].
  destruct (markLinks_shape current t p cs) as (p' & E & Hh & Ha). rewrite E.
  cbn [anchorsOf].
  assert (C : List.map hrefAttribute (flat_map anchorsOf (List.map (markLinks current) cs))
              = List.map hrefAttribute (flat_map anchorsOf cs) /\
              Forall (fun link => isActive link
                                  = bool_decide (hrefAttribute link = Some (js "#" ++ current)))
                (flat_map anchorsOf (List.map (markLinks current) cs))).
  { clear E Hh Ha.
    induction IH as [|c cs' [Hc1 Hc2] _ [I1 I2]]; [split; [reflexivity | constructor] |].
    cbn [List.map flat_map]. rewrite !List.map_app, Hc1, I1.
    split; [reflexivity | apply Forall_app; split; assumption]. }
  destruct C as [C1 C2]. rewrite !List.map_app, C1. split.
  - f_equal. destruct (String.eqb t "A"); [| reflexivity]. cbn [List.map]. f_equal. exact Hh.
  - apply Forall_app. split; [| exact C2].
    destruct (String.eqb t "A") eqn:Et; [| constructor].
    constructor; [| constructor].
    change (isActive (Elem t p' (List.map (markLinks current) cs)))
      with (isActive (Elem t p' cs)).
    change (hrefAttribute (Elem t p' (List.map (markLinks current) cs)))
      with (hrefAttribute (Elem t p' cs)).
    rewrite Hh. apply Ha. reflexivity.
Qed.

Lemma markLinks_anchors_list current l :
  List.map hrefAttribute (flat_map anchorsOf (List.map (markLinks current) l))
  = List.map hrefAttribute (flat_map anchorsOf l) /\
  Forall (fun link => isActive link
                      = bool_decide (hrefAttribute link = Some (js "#" ++ current)))
    (flat_map anchorsOf (List.map (markLinks current) l)).
Proof.
  induction l as [|c l [I1 I2]]; [split; [reflexivity | constructor] |].
  destruct (markLinks_anchors current c) as [H1 H2].
  cbn [List.map flat_map]. rewrite !List.map_app, H1, I1.
  split; [reflexivity | apply Forall_app; split; assumption].
Qed.

(** Among links with distinct targets at most one points to the section. *)
Lemma one_target (target : option jsstring) (l : list node) :
  NoDup (List.map hrefAttribute l) ->
  (length (List.filter (fun link => bool_decide (hrefAttribute link = target)) l) <= 1)%nat.
Proof.
  induction l as [|x l IH]; intros Hd; [cbn; lia |].
  cbn [List.map] in Hd. apply NoDup_cons in Hd. destruct Hd as [Hx Hd].
  cbn [List.filter]. destruct (bool_decide_reflect (hrefAttribute x = target)) as [E | E].
  - assert (Z : List.filter (fun link => bool_decide (hrefAttribute link = target)) l = []).
    { destruct (List.filter _ l) as [|y r] eqn:F; [reflexivity |].
      exfalso.
      assert (Hy : In y (List.filter
                           (fun link => bool_decide (hrefAttribute link = target)) l))
        by (rewrite F; left; reflexivity).
      apply filter_In in Hy. destruct Hy as [Hy1 Hy2].
      apply bool_decide_eq_true in Hy2. apply Hx. rewrite E, <- Hy2.
      apply list_elem_of_In, in_map, Hy1. }
    rewrite Z. cbn. lia.
  - apply IH, Hd.
Qed.

Lemma currentSection_app a b :
  currentSection (a ++ b)
  = fold_left (fun current heading => if passed heading then fst heading else current) b
      (currentSection a).
Proof. unfold currentSection. apply fold_left_app. Qed.

Lemma currentSection_none b : forall start,
  Forall (fun heading => passed heading = false) b ->
  fold_left (fun current heading => if passed heading then fst heading else current) b start
  = start.
Proof.
  induction b as [|h b IH]; intros start Hb; [reflexivity |].
  inversion Hb as [|? ? Hh Hb']; subst. cbn [fold_left]. rewrite Hh. apply IH, Hb'.
Qed.

Lemma anchors_tocItem i h :
  List.map hrefAttribute (anchorsOf (tocItem i h)) = [Some (js "#" ++ sectionId i)].
Proof.
  assert (A : forall p q x,
            anchorsOf (Elem "LI" p [Elem "A" q [Text x]]) = [Elem "A" q [Text x]])
    by reflexivity.
  unfold tocItem. cbv zeta. rewrite A. cbn [List.map hrefAttribute].
  destruct (String.eqb (tagNameOf h) "H3");
    rewrite ?lookup_insert_ne by discriminate; rewrite lookup_insert_eq; reflexivity.
Qed.

(** The links of a generated outline have distinct targets. *)
Lemma anchors_tocItems l : forall first,
  List.map hrefAttribute (flat_map anchorsOf (imap (fun i h => tocItem (first + i) h) l))
  = List.map (fun id => Some (js "#" ++ id)) (sectionIds first (length l)).
Proof.
  induction l as [|h l IH]; intros first; [reflexivity |].
  cbn [imap flat_map length]. unfold sectionIds in *. cbn [seq List.map].
  rewrite List.map_app, anchors_tocItem, Nat.add_0_r. cbn [app]. f_equal.
  rewrite <- (IH (S first)). f_equal. f_equal. apply imap_ext. intros i x _.
  cbn [compose]. unfold compose. rewrite Nat.add_succ_r. reflexivity.
Qed.

Lemma anchors_outline t p hs :
  NoDup (List.map hrefAttribute (anchors (Elem t p (imap tocItem hs)))).
Proof.
  unfold anchors. cbn [childrenOf].
  rewrite (anchors_tocItems hs 0
           : List.map hrefAttribute (flat_map anchorsOf (imap tocItem hs)) = _).
  apply NoDup_map_inj; [| apply sectionIds_NoDup].
  intros a b E. inversion E. reflexivity.
Qed.

End ScrollFacts.

Module ScrollExtras.
Import Toc TocDefs Scroll ScrollDefs ScrollFacts.

(** X23.  The scroll listener of the outline highlights the section that is
    read.  The current section is the last heading whose top edge is at most
    100 pixels below the top of the viewport.  When there is none, or when
    it is the section highlighted already, the listener changes nothing: at
    the top of the page the highlight stays where it was.  Otherwise the
    links of the outline keep their targets, a link is highlighted
    afterwards exactly if its target is the current section, so that with
    distinct targets at most one link is highlighted, and the section is
    remembered.  The links of an outline that [generateTableOfContents] has
    built have distinct targets. *)
Theorem scroll_highlight headings activeLink w toc :
  doc w !! "toc-list"%string = Some toc ->
  let current := currentSection headings in
  (current = [] \/ Some current = activeLink ->
   onScroll headings activeLink w = (activeLink, w)) /\
  (current <> [] -> Some current <> activeLink ->
   exists toc',
     onScroll headings activeLink w
     = (Some current,
        {| doc := <["toc-list"%string := toc']> (doc w); console := console w |}) /\
     List.map hrefAttribute (anchors toc') = List.map hrefAttribute (anchors toc) /\
     Forall (fun link => isActive link
                         = bool_decide (hrefAttribute link = Some (js "#" ++ current)))
       (anchors toc') /\
     (NoDup (List.map hrefAttribute (anchors toc)) ->
      (length (List.filter isActive (anchors toc')) <= 1)%nat)) /\
  (forall before id top after,
     passed (id, top) = true -> Forall (fun heading => passed heading = false) after ->
     currentSection (before ++ (id, top) :: after) = id) /\
  (Forall (fun heading => passed heading = false) headings -> current = []) /\
  (forall t p hs, NoDup (List.map hrefAttribute (anchors (Elem t p (imap tocItem hs))))).
Proof.
  intros Et current. split; [| split; [| split; [| split; [| exact anchors_outline]]]].
  - intros [E | E]; unfold onScroll; fold current.
    + rewrite E. reflexivity.
    + rewrite (bool_decide_eq_true_2 _ E), andb_false_r. reflexivity.
  - intros Hne Ha. exists (withChildren toc (List.map (markLinks current) (childrenOf toc))).
    destruct (markLinks_anchors_list current (childrenOf toc)) as [M1 M2].
    assert (A : anchors (withChildren toc (List.map (markLinks current) (childrenOf toc)))
                = match toc with
                  | Elem _ _ cs => flat_map anchorsOf (List.map (markLinks current) cs)
                  | Text _ => []
                  end) by (destruct toc; reflexivity).
    split; [| split; [| split]].
    + unfold onScroll. fold current.
      rewrite (bool_decide_eq_false_2 _ Ha).
      destruct current as [|c r] eqn:Ec; [congruence |]. cbn [truthy andb negb].
      rewrite (JsFacts.alter_present _ _ _ _ Et). reflexivity.
    + rewrite A. destruct toc as [d | t p cs]; [reflexivity | exact M1].
    + rewrite A. destruct toc as [d | t p cs]; [constructor | exact M2].
    + intros Hd. rewrite A.
      destruct toc as [d | t p cs]; [cbn; lia |]. cbn [childrenOf] in *.
      unfold anchors in Hd. cbn [childrenOf] in Hd.
      rewrite (List.filter_ext_in isActive
                 (fun link => bool_decide (hrefAttribute link = Some (js "#" ++ current)))).
      * apply one_target. rewrite M1. exact Hd.
      * intros link Hin. exact (proj1 (List.Forall_forall _ _) M2 link Hin).
  - intros before id top after Hp Ha.
    rewrite currentSection_app. cbn [fold_left]. rewrite Hp. cbn [fst].
    apply currentSection_none, Ha.
  - intros Hn. unfold current, currentSection.
    apply (currentSection_none headings [] Hn).
Qed.

Lemma scroll_highlight_witness :
  (exists toc',
     onScroll sampleHeadings (Some (js "section-1")) outlinePage
     = (Some (js "section-0"),
        {| doc := <["toc-list"%string := toc']> (doc outlinePage); console := [] |}) /\
     List.map isActive (anchors toc') = [true; false]) /\
  onScroll sampleHeadings (Some (js "section-0")) outlinePage
  = (Some (js "section-0"), outlinePage) /\
  currentSection ([] ++ (js "section-0", QArith_base.inject_Z 20)
                  :: [(js "section-1", QArith_base.inject_Z 300)]) = js "section-0" /\
  currentSection [(js "section-1", QArith_base.inject_Z 300)] = [].
Proof.
  destruct (scroll_highlight sampleHeadings (Some (js "section-1")) outlinePage sampleOutline
              eq_refl) as (_ & H & L & _).
  destruct (scroll_highlight sampleHeadings (Some (js "section-0")) outlinePage sampleOutline
              eq_refl) as (S & _).
  destruct (scroll_highlight [(js "section-1", QArith_base.inject_Z 300)] None outlinePage
              sampleOutline eq_refl) as (_ & _ & _ & T & _).
  split; [| split; [| split]].
  - destruct H as (toc' & R & _); [discriminate | discriminate |].
    exists toc'. split; [exact R |].
    assert (E : doc (snd (onScroll sampleHeadings (Some (js "section-1")) outlinePage))
                   !! "toc-list"%string = Some toc').
    { rewrite R. apply lookup_insert_eq. }
    vm_compute in E. injection E as <-. vm_compute. reflexivity.
  - apply S. right. reflexivity.
  - apply L; [reflexivity | repeat constructor].
  - apply T. repeat constructor.
Defined.

End ScrollExtras.

(** ** The configuration cache: further properties *)

Module RetryFacts.
Import Loaders ConfigCache CacheDefs RetryDefs CacheFacts.

Section Facts.
Variable yamlLoad : jsstring -> completion loaded.

Lemma calls_app a b : calls (a ++ b) = (calls a + calls b)%nat.
Proof. unfold calls. rewrite List.filter_app, length_app. reflexivity. Qed.

(** What each event keeps: every fetch is pending, assigned or logged;
    every call is pending or has returned. *)
Lemma handle_accounting st e :
  fetches st = (suspended st + length (assigned st) + logged st)%nat ->
  fetches (handle yamlLoad st e)
  = (suspended (handle yamlLoad st e) + length (assigned (handle yamlLoad st e))
     + logged (handle yamlLoad st e))%nat /\
  (length (returned (handle yamlLoad st e)) + suspended (handle yamlLoad st e)
   = length (returned st) + suspended st + calls [e])%nat.
Proof.
  intros I. destruct e as [| response]; cbn [handle].
  - unfold loadConfig_enter. destruct (siteConfig st);
      cbn [fetches suspended assigned logged returned]; rewrite ?length_app; cbn; lia.
  - unfold loadConfig_resume. destruct (suspended st) as [|n] eqn:Es; [cbn; lia |].
    destruct response as [text | e]; [destruct (yamlLoad text) |];
      cbn [fetches suspended assigned logged returned]; rewrite ?length_app; cbn; lia.
Qed.

Lemma run_accounting events : forall st,
  fetches st = (suspended st + length (assigned st) + logged st)%nat ->
  let st' := run yamlLoad events st in
  fetches st' = (suspended st' + length (assigned st') + logged st')%nat /\
  (length (returned st') + suspended st'
   = length (returned st) + suspended st + calls events)%nat.
Proof.
  induction events as [|e events IH]; intros st I; cbv zeta.
  - cbn. split; [exact I | lia].
  - cbn [run fold_left]. destruct (handle_accounting st e I) as [I1 R1].
    destruct (IH _ I1) as [I2 R2]. cbv zeta in I2, R2. unfold run in *.
    split; [exact I2 |]. rewrite R2, R1.
    change (e :: events) with ([e] ++ events). rewrite calls_app. lia.
Qed.


End Facts.

End RetryFacts.

Module CacheExtras.
Import Loaders ConfigCache CacheDefs RetryDefs CacheFacts RetryFacts.

(** X24.  The bookkeeping of [loadConfig] in every run: each fetch is still
    pending, or ended in one assignment of the cache, or in one logged error;
    each call is still pending or has returned once; and no more fetches are
    issued than calls are made. *)
Theorem loadConfig_accounting (yamlLoad : jsstring -> completion loaded) events :
  let st := run yamlLoad events initial in
  fetches st = (suspended st + length (assigned st) + logged st)%nat /\
  (length (returned st) + suspended st = calls events)%nat /\
  (fetches st <= calls events)%nat.
Proof.
  cbv zeta. destruct (run_accounting yamlLoad events initial eq_refl) as [I R].
  cbv zeta in I, R. cbn [initial returned suspended length] in R.
  split; [exact I |]. split; [lia |].
  (* a fetch is issued by a call only *)
  assert (F : forall evs st, (fetches (run yamlLoad evs st) <= fetches st + calls evs)%nat).
  { induction evs as [|e evs IH]; intros st; [cbn; lia |].
    cbn [run fold_left]. specialize (IH (handle yamlLoad st e)). unfold run in IH.
    change (e :: evs) with ([e] ++ evs). rewrite calls_app.
    assert (fetches (handle yamlLoad st e) <= fetches st + calls [e])%nat; [| lia].
    destruct e as [| response]; cbn [handle].
    - unfold loadConfig_enter. destruct (siteConfig st); cbn; lia.
    - unfold loadConfig_resume. destruct (suspended st); [cbn; lia |].
      destruct response as [text | err]; [destruct (yamlLoad text) |]; cbn; lia. }
  apply (F events initial).
Qed.



End CacheExtras.

